(** * Warung Makan "Pintar": menu parsing, aggregation and export

    A shallow embedding of [src/coba1/main.py]: the parser [load_csv], the
    coercion [_to_number], the aggregator [compute_totals], the two exporters
    [convert_df_to_csv] and [convert_summary_to_json] and the export gate
    [data_valid], together with the parts of the Python runtime they call
    ([str.strip], [int], [float], [csv.DictReader], [json.dumps], UTF-8).

    Library behaviour follows CPython 3.11.  A Python [str] is a list of
    Unicode code points, [bytes] a list of octets, a [float] an IEEE-754
    binary64 number (Rocq's [spec_float] with precision 53), a [dict] an
    association list in insertion order, and a raised exception is an
    explicit [Raise] result. *)

From Stdlib Require Import ZArith NArith List Bool Lia String Ascii.
From Stdlib Require Import SpecFloat DecimalN.
Import ListNotations.

Set Implicit Arguments.

(** ** Exceptions *)

Inductive exn :=
| UnicodeDecodeError
| UnicodeEncodeError
| ValueError
| CsvError.

Inductive res (A : Type) :=
| Ok (a : A)
| Raise (e : exn).
Arguments Ok {A} a.
Arguments Raise {A} e.

Definition bind {A B} (x : res A) (k : A -> res B) : res B :=
  match x with
  | Ok a => k a
  | Raise e => Raise e
  end.

Notation "x <- e ;; k" := (bind e (fun x => k))
  (at level 61, e at next level, right associativity).

(** ** Python strings *)

Module PyStr.

Local Open Scope N_scope.

Definition str := list N.
Definition bytes := list N.

(** An ASCII literal of the source text as a [str]. *)
Definition lit (s : string) : str :=
  List.map N_of_ascii (list_ascii_of_string s).

Fixpoint eqb (a b : str) : bool :=
  match a, b with
  | [], [] => true
  | x :: a', y :: b' => N.eqb x y && eqb a' b'
  | _, _ => false
  end.

Definition is_empty {A} (l : list A) : bool :=
  match l with [] => true | _ => false end.

Definition between (lo hi c : N) : bool := N.leb lo c && N.leb c hi.

(** [str.isspace] for one code point (Unicode 14: bidirectional type WS, B
    or S, or category Zs). *)
Definition isspace (c : N) : bool :=
  between 9 13 c || between 28 32 c || N.eqb c 133 || N.eqb c 160
  || N.eqb c 5760 || between 8192 8202 c || N.eqb c 8232 || N.eqb c 8233
  || N.eqb c 8239 || N.eqb c 8287 || N.eqb c 12288.

Fixpoint lstrip_with (p : N -> bool) (s : str) : str :=
  match s with
  | [] => []
  | c :: s' => if p c then lstrip_with p s' else s
  end.

Definition rstrip_with (p : N -> bool) (s : str) : str :=
  fold_right (fun c acc => if p c && is_empty acc then [] else c :: acc) [] s.

Definition strip_with (p : N -> bool) (s : str) : str :=
  rstrip_with p (lstrip_with p s).

(** [s.strip()] *)
Definition strip (s : str) : str := strip_with isspace s.

(** [x or d] for a value [x] that is a [str] or [None]. *)
Definition or_str (x : option str) (d : str) : str :=
  match x with
  | Some (c :: s) => c :: s
  | _ => d
  end.

(** *** UTF-8 *)

Definition is_cont (b : N) : bool := between 128 191 b.

(** [s.encode("utf-8")]: surrogates cannot be encoded. *)
Definition encode_cp (c : N) : option bytes :=
  if N.ltb c 128 then Some [c]
  else if N.ltb c 2048 then Some [192 + c / 64; 128 + c mod 64]
  else if between 55296 57343 c then None
  else if N.ltb c 65536 then
    Some [224 + c / 4096; 128 + (c / 64) mod 64; 128 + c mod 64]
  else if N.ltb c 1114112 then
    Some [240 + c / 262144; 128 + (c / 4096) mod 64;
          128 + (c / 64) mod 64; 128 + c mod 64]
  else None.

Fixpoint encode (s : str) : res bytes :=
  match s with
  | [] => Ok []
  | c :: s' =>
      match encode_cp c with
      | None => Raise UnicodeEncodeError
      | Some bs => r <- encode s' ;; Ok (bs ++ r)
      end
  end.

(** [b.decode("utf-8")], strict: overlong forms, surrogates, code points
    above U+10FFFF, stray continuation bytes and truncated sequences raise. *)
Fixpoint decode (b : bytes) : res str :=
  match b with
  | [] => Ok []
  | b1 :: r1 =>
      if N.ltb b1 128 then (s <- decode r1 ;; Ok (b1 :: s))
      else if between 194 223 b1 then
        match r1 with
        | b2 :: r2 =>
            if is_cont b2
            then s <- decode r2 ;; Ok ((b1 - 192) * 64 + (b2 - 128) :: s)
            else Raise UnicodeDecodeError
        | _ => Raise UnicodeDecodeError
        end
      else if between 224 239 b1 then
        match r1 with
        | b2 :: b3 :: r3 =>
            let c := (b1 - 224) * 4096 + (b2 - 128) * 64 + (b3 - 128) in
            if is_cont b2 && is_cont b3 && N.leb 2048 c
               && negb (between 55296 57343 c)
            then s <- decode r3 ;; Ok (c :: s)
            else Raise UnicodeDecodeError
        | _ => Raise UnicodeDecodeError
        end
      else if between 240 244 b1 then
        match r1 with
        | b2 :: b3 :: b4 :: r4 =>
            let c := (b1 - 240) * 262144 + (b2 - 128) * 4096
                     + (b3 - 128) * 64 + (b4 - 128) in
            if is_cont b2 && is_cont b3 && is_cont b4
               && N.leb 65536 c && N.ltb c 1114112
            then s <- decode r4 ;; Ok (c :: s)
            else Raise UnicodeDecodeError
        | _ => Raise UnicodeDecodeError
        end
      else Raise UnicodeDecodeError
  end.

End PyStr.
Import PyStr.

(** ** Python numbers: [int] and [float] from text, and back *)

Module PyNum.

Local Open Scope N_scope.

(** First code point of each run of ten decimal digits (Unicode category
    Nd, as [unicodedata] of CPython 3.11 has them); the digit value is the
    offset in the run. *)
Definition decimal_blocks : list N :=
  [48; 1632; 1776; 1984; 2406; 2534; 2662; 2790; 2918; 3046; 3174; 3302;
   3430; 3558; 3664; 3792; 3872; 4160; 4240; 6112; 6160; 6470; 6608; 6784;
   6800; 6992; 7088; 7232; 7248; 42528; 43216; 43264; 43472; 43504; 43600;
   44016; 65296; 66720; 68912; 69734; 69872; 69942; 70096; 70384; 70736;
   70864; 71248; 71360; 71472; 71904; 72016; 72784; 73040; 73120; 92768;
   92864; 93008; 120782; 120792; 120802; 120812; 120822; 123200; 123632;
   125264; 130032].

Definition digit_val (c : N) : option Z :=
  match find (fun z => between z (z + 9) c) decimal_blocks with
  | Some z => Some (Z.of_N (c - z))
  | None => None
  end.

(** White space that [int] and [float] skip at both ends: the C [isspace]
    set and the non-ASCII Unicode spaces (the ASCII separators 28..31 are
    left alone). *)
Definition num_space (c : N) : bool := isspace c && negb (between 28 31 c).

(** [digit (["_"] digit)*], read greedily: the value, the number of digits
    and what is left.  [acc] and [n] are the value and count so far; an
    underscore is taken only between two digits. *)
Fixpoint digitpart (s : str) (acc : Z) (n : N) : Z * N * str :=
  match s with
  | c :: s' =>
      match digit_val c with
      | Some d => digitpart s' (10 * acc + d)%Z (n + 1)
      | None =>
          if N.eqb c 95 && N.ltb 0 n then
            match s' with
            | c' :: s'' =>
                match digit_val c' with
                | Some d => digitpart s'' (10 * acc + d)%Z (n + 1)
                | None => (acc, n, s)
                end
            | [] => (acc, n, s)
            end
          else (acc, n, s)
      end
  | [] => (acc, n, s)
  end.

(** Optional sign: [true] for a minus. *)
Definition sign (s : str) : bool * str :=
  match s with
  | 43 :: t => (false, t)
  | 45 :: t => (true, t)
  | _ => (false, s)
  end.

(** Default of [sys.get_int_max_str_digits()]. *)
Definition int_max_str_digits : N := 4300.

(** [int(s)] for a [str]; [None] is [ValueError]. *)
Definition py_int (s : str) : option Z :=
  let (neg, body) := sign (strip_with num_space s) in
  match digitpart body 0%Z 0 with
  | (v, n, []) =>
      if N.eqb n 0 || N.ltb int_max_str_digits n then None
      else Some (if neg then (- v)%Z else v)
  | _ => None
  end.

End PyNum.
Import PyNum.

(** ** Python floats: IEEE-754 binary64 *)

Module PyFloat.

Local Open Scope Z_scope.

Definition float := spec_float.
Definition prec : Z := 53.
Definition emax : Z := 1024.

Definition zero : float := S754_zero false.
Definition fadd : float -> float -> float := SFadd prec emax.
Definition fleb : float -> float -> bool := SFleb.
Definition fltb : float -> float -> bool := SFltb.

(** The binary64 nearest to an integer. *)
Definition of_Z (z : Z) : float := binary_normalize prec emax z 0 false.

(** The binary64 nearest to [d * 10^k] (ties to even), for [0 <= d]: an
    exact integer is rounded once, a quotient is cut at the right exponent
    with its remainder's position and rounded once. *)
Definition dec2f (neg : bool) (d k : Z) : float :=
  match d with
  | Zpos _ =>
      if 0 <=? k
      then binary_normalize prec emax (cond_Zopp neg (d * 10 ^ k)) 0 false
      else
        let '(q, e, l) := SFdiv_core_binary prec emax d 0 (10 ^ (- k)) 0 in
        binary_round_aux prec emax neg q e l
  | _ => S754_zero neg
  end.

(** [dec2f] for [d < 10^nd], without computing a power whose size decides
    the result alone: above [10^310] the value overflows, below [10^-330]
    it rounds to zero. *)
Definition of_decimal (neg : bool) (d nd k : Z) : float :=
  match d with
  | Zpos _ =>
      if 310 <? k then S754_infinity neg
      else if k + nd <? -330 then S754_zero neg
      else dec2f neg d k
  | _ => S754_zero neg
  end.

Definition lower (c : N) : N := if between 65 90 c then (c + 32)%N else c.

(** After the sign and the digits: an optional exponent, then the end. *)
Definition exponent (s : str) : option Z :=
  match s with
  | [] => Some 0
  | c :: t =>
      if N.eqb (lower c) 101 then
        let (eneg, t') := sign t in
        match digitpart t' 0 0%N with
        | (ev, n, []) =>
            if N.eqb n 0 then None else Some (if eneg then - ev else ev)
        | _ => None
        end
      else None
  end.

(** [float(s)] for a [str]; [None] is [ValueError]. *)
Definition py_float (s : str) : option float :=
  let (neg, body) := sign (strip_with num_space s) in
  let kw := List.map lower body in
  if PyStr.eqb kw (lit "inf") || PyStr.eqb kw (lit "infinity")
  then Some (S754_infinity neg)
  else if PyStr.eqb kw (lit "nan") then Some S754_nan
  else
    let '(ip, n1, r1) := digitpart body 0 0%N in
    let '(d, n2, r2) :=
      match r1 with
      | 46%N :: t => digitpart t ip 0%N
      | _ => (ip, 0%N, r1)
      end in
    if N.eqb (n1 + n2) 0 then None
    else
      match exponent r2 with
      | Some ev => Some (of_decimal neg d (Z.of_N (n1 + n2)) (ev - Z.of_N n2))
      | None => None
      end.

(** Structural equality; on valid binary64 values it is identity of the
    number (and of the sign of zero). *)
Definition same (x y : float) : bool :=
  match x, y with
  | S754_zero a, S754_zero b => Bool.eqb a b
  | S754_infinity a, S754_infinity b => Bool.eqb a b
  | S754_nan, S754_nan => true
  | S754_finite a m e, S754_finite b n f =>
      Bool.eqb a b && Pos.eqb m n && Z.eqb e f
  | _, _ => false
  end.

End PyFloat.
Import PyFloat.

(** ** [str] of numbers *)

Module PyShow.

Local Open Scope Z_scope.

Fixpoint uint_str (u : Decimal.uint) : str :=
  match u with
  | Decimal.Nil => []
  | Decimal.D0 u => 48%N :: uint_str u
  | Decimal.D1 u => 49%N :: uint_str u
  | Decimal.D2 u => 50%N :: uint_str u
  | Decimal.D3 u => 51%N :: uint_str u
  | Decimal.D4 u => 52%N :: uint_str u
  | Decimal.D5 u => 53%N :: uint_str u
  | Decimal.D6 u => 54%N :: uint_str u
  | Decimal.D7 u => 55%N :: uint_str u
  | Decimal.D8 u => 56%N :: uint_str u
  | Decimal.D9 u => 57%N :: uint_str u
  end.

(** Decimal digits of a natural number, most significant first. *)
Definition digits (z : Z) : str := uint_str (N.to_uint (Z.to_N z)).

Definition len (s : str) : Z := Z.of_nat (List.length s).

(** [str(z)] for an [int]; [None] is the [ValueError] of a number with more
    than [int_max_str_digits] digits. *)
Definition int_str (z : Z) : option str :=
  let ds := digits (Z.abs z) in
  if Z.of_N int_max_str_digits <? len ds then None
  else Some (if z <? 0 then 45%N :: ds else ds).

(** [10^E <= num / den], for positive [num] and [den]. *)
Definition pow10_le (E num den : Z) : bool :=
  if 0 <=? E then 10 ^ E * den <=? num else den <=? num * 10 ^ (- E).

(** The decimal exponent of [num / den]: the [E] with
    [10^E <= num/den < 10^(E+1)], looked for next to the estimate that the
    binary exponent [b] gives ([2^(b-1) <= num/den < 2^b]). *)
Definition floor_log10 (num den b : Z) : Z :=
  let est := ((b - 1) * 30103) / 100000 in
  if pow10_le (est + 2) num den then est + 2
  else if pow10_le (est + 1) num den then est + 1
  else if pow10_le est num den then est
  else est - 1.

(** The shortest decimal [c * 10^k] that [float] reads back as [f], and
    among the shortest the nearest to [f]; [n] is the number of digits
    tried, and 17 digits always suffice for a binary64. *)
Fixpoint shortest (fuel : nat) (n : Z) (f : float) (num den E : Z)
  : Z * Z :=
  let k := E - (n - 1) in
  let D := if 0 <=? k then den * 10 ^ k else den in
  let '(q, r) := Z.div_eucl (if 0 <=? k then num else num * 10 ^ (- k)) D in
  let lo := same (dec2f false q k) f in
  let hi := same (dec2f false (q + 1) k) f in
  let near :=
    if 2 * r <? D then q
    else if D <? 2 * r then q + 1
    else if Z.even q then q else q + 1 in
  match fuel with
  | O => (near, k)
  | S fuel' =>
      if lo && hi then (near, k)
      else if lo then (q, k)
      else if hi then (q + 1, k)
      else shortest fuel' (n + 1) f num den E
  end.

Definition rstrip_zeros (s : str) : str := rstrip_with (N.eqb 48) s.

Definition zeros (n : Z) : str := List.repeat 48%N (Z.to_nat n).

(** The digits of the shortest decimal of [m * 2^e] and the position
    [decpt] of the decimal point: the value is [0.d1d2... * 10^decpt]. *)
Definition short_digits (m : positive) (e : Z) : str * Z :=
  let num := if 0 <=? e then Zpos m * 2 ^ e else Zpos m in
  let den := if 0 <=? e then 1 else 2 ^ (- e) in
  let E := floor_log10 num den (Zpos (digits2_pos m) + e) in
  let '(c, k) := shortest 16 1 (S754_finite false m e) num den E in
  let ds := digits c in
  (rstrip_zeros ds, len ds + k).

(** [float.__repr__] of a positive finite number: plain notation when
    [-4 < decpt <= 16], else one digit before the point and an exponent of
    at least two digits. *)
Definition repr_pos (m : positive) (e : Z) : str :=
  let '(ds, decpt) := short_digits m e in
  if (decpt <=? -4) || (16 <? decpt) then
    let x := decpt - 1 in
    let xs := digits (Z.abs x) in
    firstn 1 ds ++ (if len ds <=? 1 then [] else 46%N :: skipn 1 ds)
      ++ [101%N; if x <? 0 then 45%N else 43%N]
      ++ (if len xs <? 2 then 48%N :: xs else xs)
  else if decpt <=? 0 then lit "0." ++ zeros (- decpt) ++ ds
  else if len ds <=? decpt then ds ++ zeros (decpt - len ds) ++ lit ".0"
  else firstn (Z.to_nat decpt) ds ++ 46%N :: skipn (Z.to_nat decpt) ds.

Definition minus (neg : bool) (s : str) : str :=
  if neg then 45%N :: s else s.

(** [repr(f)] of a finite [float]. *)
Definition repr_finite (f : float) : str :=
  match f with
  | S754_zero s => minus s (lit "0.0")
  | S754_finite s m e => minus s (repr_pos m e)
  | _ => []
  end.

(** [str(f)], which is [repr(f)]. *)
Definition float_str (f : float) : str :=
  match f with
  | S754_nan => lit "nan"
  | S754_infinity s => minus s (lit "inf")
  | _ => repr_finite f
  end.

End PyShow.
Import PyShow.

(** ** Dictionaries

    A [dict] with [str] keys, in insertion order: assigning to a key that is
    present keeps its place. *)

Module Dict.

Definition dict (V : Type) := list (str * V).

Fixpoint get {V} (d : dict V) (k : str) : option V :=
  match d with
  | [] => None
  | (k', v) :: d' => if PyStr.eqb k' k then Some v else get d' k
  end.

(** [d.get(k, dflt)] *)
Definition get_or {V} (d : dict V) (k : str) (dflt : V) : V :=
  match get d k with
  | Some v => v
  | None => dflt
  end.

(** [d[k] = v] *)
Fixpoint set {V} (d : dict V) (k : str) (v : V) : dict V :=
  match d with
  | [] => [(k, v)]
  | (k', v') :: d' =>
      if PyStr.eqb k' k then (k', v) :: d' else (k', v') :: set d' k v
  end.

Definition keys {V} (d : dict V) : list str := List.map fst d.
Definition values {V} (d : dict V) : list V := List.map snd d.

End Dict.
Import Dict.

(** ** The [csv] module: [csv.reader] and [csv.DictReader]

    The dialect is the one [load_csv] asks for: delimiter [;], the double
    quote as quote character, [doublequote], no escape character, no
    [skipinitialspace], not [strict].  The parser is the state machine of
    CPython's [_csv.c]; its two escape states need an escape character and
    are left out. *)

Module Csv.

Local Open Scope N_scope.

Definition delimiter : N := 59.
Definition quotechar : N := 34.
Definition LF : N := 10.
Definition CR : N := 13.

(** [csv.field_size_limit()] *)
Definition field_limit : N := 131072.

Inductive pstate :=
| START_RECORD
| START_FIELD
| IN_FIELD
| IN_QUOTED_FIELD
| QUOTE_IN_QUOTED_FIELD
| EAT_CRNL.

(** What the parser is fed: the characters of a line, then an end-of-line
    mark. *)
Inductive tok :=
| Ch (c : N)
| EOL.

Record reader := mkReader {
  state : pstate;
  field : str;          (* the field being read *)
  fields : list str     (* the fields of the record so far *)
}.

Definition parse_reset : reader := mkReader START_RECORD [] [].

Definition is_nl (t : tok) : bool :=
  match t with
  | Ch c => N.eqb c LF || N.eqb c CR
  | EOL => false
  end.

Definition is_ch (t : tok) (c : N) : bool :=
  match t with
  | Ch c' => N.eqb c' c
  | EOL => false
  end.

Definition parse_save_field (st : pstate) (r : reader) : reader :=
  mkReader st [] (fields r ++ [field r]).

Definition parse_add_char (st : pstate) (r : reader) (c : N) : res reader :=
  if N.leb field_limit (N.of_nat (List.length (field r)))
  then Raise CsvError
  else Ok (mkReader st (field r ++ [c]) (fields r)).

Definition after_nl (t : tok) : pstate :=
  match t with
  | EOL => START_RECORD
  | Ch _ => EAT_CRNL
  end.

Definition goto (st : pstate) (r : reader) : reader :=
  mkReader st (field r) (fields r).

Definition start_field (r : reader) (t : tok) : res reader :=
  match t with
  | EOL => Ok (parse_save_field START_RECORD r)
  | Ch c =>
      if is_nl t then Ok (parse_save_field EAT_CRNL r)
      else if N.eqb c quotechar then Ok (goto IN_QUOTED_FIELD r)
      else if N.eqb c delimiter then Ok (parse_save_field START_FIELD r)
      else parse_add_char IN_FIELD r c
  end.

Definition parse_process_char (r : reader) (t : tok) : res reader :=
  match state r with
  | START_RECORD =>
      match t with
      | EOL => Ok r
      | Ch _ => if is_nl t then Ok (goto EAT_CRNL r) else start_field r t
      end
  | START_FIELD => start_field r t
  | IN_FIELD =>
      match t with
      | EOL => Ok (parse_save_field START_RECORD r)
      | Ch c =>
          if is_nl t then Ok (parse_save_field EAT_CRNL r)
          else if N.eqb c delimiter then Ok (parse_save_field START_FIELD r)
          else parse_add_char IN_FIELD r c
      end
  | IN_QUOTED_FIELD =>
      match t with
      | EOL => Ok r
      | Ch c =>
          if N.eqb c quotechar then Ok (goto QUOTE_IN_QUOTED_FIELD r)
          else parse_add_char IN_QUOTED_FIELD r c
      end
  | QUOTE_IN_QUOTED_FIELD =>
      match t with
      | EOL => Ok (parse_save_field START_RECORD r)
      | Ch c =>
          if N.eqb c quotechar then parse_add_char IN_QUOTED_FIELD r c
          else if N.eqb c delimiter then Ok (parse_save_field START_FIELD r)
          else if is_nl t then Ok (parse_save_field EAT_CRNL r)
          else parse_add_char IN_FIELD r c
      end
  | EAT_CRNL =>
      match t with
      | EOL => Ok (goto START_RECORD r)
      | Ch _ => if is_nl t then Ok r else Raise CsvError
      end
  end.

Fixpoint feed (r : reader) (ts : list tok) : res reader :=
  match ts with
  | [] => Ok r
  | t :: ts' => r' <- parse_process_char r t ;; feed r' ts'
  end.

(** The lines that iterating over [io.StringIO(text)] yields: cut after
    every line feed, which stays on its line. *)
Fixpoint readlines_from (cur : str) (s : str) : list str :=
  match s with
  | [] => if is_empty cur then [] else [cur]
  | c :: s' =>
      if N.eqb c LF then (cur ++ [c]) :: readlines_from [] s'
      else readlines_from (cur ++ [c]) s'
  end.

Definition readlines (s : str) : list str := readlines_from [] s.

(** All records of a [csv.reader]: a record ends when an end of line
    leaves the parser at [START_RECORD]; at the end of the input an open
    quoted field is closed. *)
Fixpoint read_records (r : reader) (lines : list str)
  : res (list (list str)) :=
  match lines with
  | [] =>
      match state r, field r with
      | IN_QUOTED_FIELD, _ | _, _ :: _ => Ok [fields r ++ [field r]]
      | _, [] => Ok []
      end
  | l :: rest =>
      r' <- feed r (List.map Ch l ++ [EOL]) ;;
      match state r' with
      | START_RECORD =>
          recs <- read_records parse_reset rest ;; Ok (fields r' :: recs)
      | _ => read_records r' rest
      end
  end.

Definition reader_rows (text : str) : res (list (list str)) :=
  read_records parse_reset (readlines text).

(** One row of a [DictReader]: [dict(zip(fieldnames, row))], then [None]
    under the field names that the row is too short for.  (A longer row
    puts its tail under the key [None], which no [str] key reads.) *)
Definition dict_row (fieldnames row : list str) : dict (option str) :=
  let d := fold_left (fun d kv => set d (fst kv) (Some (snd kv)))
                     (combine fieldnames row) [] in
  fold_left (fun d k => set d k None)
            (skipn (List.length row) fieldnames) d.

(** [list(csv.DictReader(io.StringIO(text), delimiter=';'))]: the first
    record gives the field names, empty records are skipped. *)
Definition DictReader (text : str) : res (list (dict (option str))) :=
  recs <- reader_rows text ;;
  match recs with
  | [] => Ok []
  | fieldnames :: data =>
      Ok (List.map (dict_row fieldnames)
                   (filter (fun row => negb (is_empty row)) data))
  end.

(** *** [csv.writer]

    With [QUOTE_MINIMAL] (CPython 3.11): a field is quoted when it holds the
    delimiter, the quote character or a character of the line terminator,
    and a row that is one empty field is written as two quotes. *)

Definition needs_quote (lineterminator s : str) : bool :=
  existsb (fun c => N.eqb c delimiter || N.eqb c quotechar
                    || existsb (N.eqb c) lineterminator) s.

Definition double_quotes (s : str) : str :=
  flat_map (fun c => if N.eqb c quotechar then [c; c] else [c]) s.

Definition join_append (lineterminator s : str) : str :=
  if needs_quote lineterminator s
  then quotechar :: double_quotes s ++ [quotechar]
  else s.

Fixpoint join (sep : N) (l : list str) : str :=
  match l with
  | [] => []
  | [s] => s
  | s :: l' => s ++ sep :: join sep l'
  end.

Definition writerow (lineterminator : str) (row : list str) : str :=
  match row with
  | [[]] => [quotechar; quotechar] ++ lineterminator
  | _ => join delimiter (List.map (join_append lineterminator) row)
         ++ lineterminator
  end.

End Csv.

(** ** Values of a grid cell *)

Inductive pyval :=
| PyNone
| PyBool (b : bool)
| PyInt (z : Z)
| PyFloat (f : float)
| PyStr (s : str).

(** [str(x)]; [None] is the [ValueError] of an [int] too long to print. *)
Definition py_str (x : pyval) : option str :=
  match x with
  | PyNone => Some (lit "None")
  | PyBool true => Some (lit "True")
  | PyBool false => Some (lit "False")
  | PyInt z => int_str z
  | PyFloat f => Some (float_str f)
  | PyStr s => Some s
  end.

(** ** [json.dumps] of a [dict] of floats, with [indent=4]

    The defaults apply: [ensure_ascii], [allow_nan], item separator [,]
    and key separator [: ]. *)

Module Json.

Local Open Scope N_scope.

Definition hex_digit (n : N) : N := if N.ltb n 10 then 48 + n else 87 + n.

(** A backslash, [u] and four hexadecimal digits. *)
Definition u_escape (c : N) : str :=
  [92; 117; hex_digit (c / 4096); hex_digit ((c / 256) mod 16);
   hex_digit ((c / 16) mod 16); hex_digit (c mod 16)].

(** One character of a string under [ensure_ascii]: printable ASCII stays,
    quote, backslash and the usual control characters get a short escape,
    the rest a [u] escape (a surrogate pair above the basic plane). *)
Definition escape_char (c : N) : str :=
  if N.eqb c 34 then [92; 34]
  else if N.eqb c 92 then [92; 92]
  else if N.eqb c 10 then [92; 110]
  else if N.eqb c 13 then [92; 114]
  else if N.eqb c 9 then [92; 116]
  else if N.eqb c 12 then [92; 102]
  else if N.eqb c 8 then [92; 98]
  else if between 32 126 c then [c]
  else if N.ltb c 65536 then u_escape c
  else u_escape (55296 + (c - 65536) / 1024)
       ++ u_escape (56320 + (c - 65536) mod 1024).

Definition encode_basestring_ascii (s : str) : str :=
  34 :: flat_map escape_char s ++ [34].

(** [floatstr]: [float.__repr__], and the JavaScript names of the three
    values that are not finite. *)
Definition floatstr (f : float) : str :=
  match f with
  | S754_nan => lit "NaN"
  | S754_infinity false => lit "Infinity"
  | S754_infinity true => lit "-Infinity"
  | _ => repr_finite f
  end.

Definition item (kv : str * float) : str :=
  lit "    " ++ encode_basestring_ascii (fst kv) ++ lit ": "
  ++ floatstr (snd kv).

Fixpoint items (d : dict float) : str :=
  match d with
  | [] => []
  | [kv] => item kv
  | kv :: d' => item kv ++ [44; 10] ++ items d'
  end.

Definition dumps (d : dict float) : str :=
  match d with
  | [] => lit "{}"
  | _ => [123; 10] ++ items d ++ [10; 125]
  end.

End Json.

(** ** The program: [src/coba1/main.py] *)

Module Main.

(** One menu row: the [dict] with the keys [kategori], [nama] and [harga]
    that [load_csv] builds and the data editor hands back.  The two text
    columns hold a [str] or nothing ([None]: the key is missing or its
    value is [None]; [r.get] does not tell them apart); the price cell is
    free-form. *)
Record row := mkRow {
  kategori : option str;
  nama : option str;
  harga : pyval
}.

Definition SAMPLE_CSV : str := lit "kategori;nama;harga
Makanan;Ayam Bakar;25000
Makanan;Nasi Goreng;18000
Minuman;Es Teh;5000
Minuman;Jus Alpukat;12000
".

(** What [load_csv] is given: an uploaded file, whose [getvalue()] is its
    bytes, or the text itself. *)
Inductive file_like :=
| Upload (b : bytes)
| Text (s : str).

(** [row.get(k)] on a [DictReader] row. *)
Definition row_get (d : dict (option str)) (k : string) : option str :=
  match get d (lit k) with
  | Some v => v
  | None => None
  end.

(** [int((row.get("harga") or "0").strip())], and 0 on [ValueError]. *)
Definition parse_harga (d : dict (option str)) : Z :=
  match py_int (strip (or_str (row_get d "harga") (lit "0"))) with
  | Some z => z
  | None => 0%Z
  end.

(** The body of the loop of [load_csv]. *)
Definition load_row (d : dict (option str)) : row :=
  {| kategori := Some (strip (or_str (row_get d "kategori") []));
     nama := Some (strip (or_str (row_get d "nama") []));
     harga := PyInt (parse_harga d) |}.

Definition load_csv (f : file_like) : res (list row) :=
  text <- match f with
          | Upload b => decode b
          | Text s => Ok s
          end ;;
  rows <- Csv.DictReader text ;;
  Ok (List.map load_row rows).

(** [float(str(x).strip())] when it is [>= 0]; [None] when the conversion
    raises or the number is negative or not a number. *)
Definition _to_number (x : pyval) : option float :=
  match py_str x with
  | Some s =>
      match py_float (strip s) with
      | Some v => if fleb zero v then Some v else None
      | None => None
      end
  | None => None
  end.

Definition tidak_diketahui : str := lit "Tidak diketahui".

(** [(r.get("kategori") or "").strip() or "Tidak diketahui"] *)
Definition cat_of (r : row) : str :=
  or_str (Some (strip (or_str (kategori r) []))) tidak_diketahui.

(** The body of the loop of [compute_totals], on [(totals, total_all)]. *)
Definition step (acc : dict float * float) (r : row) : dict float * float :=
  match _to_number (harga r) with
  | None => acc
  | Some val =>
      let cat := cat_of r in
      (set (fst acc) cat (fadd (get_or (fst acc) cat zero) val),
       fadd (snd acc) val)
  end.

Definition compute_totals (rows : list row) : dict float * float :=
  fold_left step rows ([], zero).

(** The header that [pd.DataFrame(rows)] gives the frame: the keys of the
    rows, and no column when there is no row. *)
Definition columns (rows : list row) : list str :=
  if is_empty rows then [] else [lit "kategori"; lit "nama"; lit "harga"].

(** The line terminator of [to_csv]: [os.linesep], here POSIX. *)
Definition lineterminator : str := [Csv.LF].

Section Exporter.

(** How pandas prints a number of the price column, or raises; it depends
    on the type inferred for the whole column, which is the first
    argument. *)
Variable number_str : list pyval -> pyval -> res str.

(** A cell as text: a missing value is the empty [na_rep], a [str] is
    itself. *)
Definition cell_str (col : list pyval) (x : pyval) : res str :=
  match x with
  | PyNone => Ok []
  | PyStr s => Ok s
  | _ => number_str col x
  end.

Definition text_cell (x : option str) : str :=
  match x with
  | Some s => s
  | None => []
  end.

Definition record_strs (col : list pyval) (r : row) : res (list str) :=
  p <- cell_str col (harga r) ;;
  Ok [text_cell (kategori r); text_cell (nama r); p].

Fixpoint to_csv_rows (col : list pyval) (rows : list row) : res str :=
  match rows with
  | [] => Ok []
  | r :: rest =>
      fs <- record_strs col r ;;
      t <- to_csv_rows col rest ;;
      Ok (Csv.writerow lineterminator fs ++ t)
  end.

(** [df.to_csv(index=False, sep=';')] *)
Definition to_csv (rows : list row) : res str :=
  body <- to_csv_rows (List.map harga rows) rows ;;
  Ok (Csv.writerow lineterminator (columns rows) ++ body).

(** [convert_df_to_csv(pd.DataFrame(rows))]; the cache of [st.cache_data]
    returns what the function returns. *)
Definition convert_df_to_csv (rows : list row) : res bytes :=
  text <- to_csv rows ;; encode text.

End Exporter.

(** [convert_summary_to_json(totals)] *)
Definition convert_summary_to_json (summary_dict : dict float) : res bytes :=
  encode (Json.dumps summary_dict).

(** [data_valid], the condition under which both downloads are offered:
    [not current_df.empty and (total_all > 0 or not totals)].  A frame built
    from rows is empty exactly when there is no row. *)
Definition data_valid (rows : list row) : bool :=
  let '(totals, total_all) := compute_totals rows in
  negb (is_empty rows) && (fltb zero total_all || is_empty totals).

End Main.

(** ** Notions used by the statements *)

Import Main.

(** The float sum of a list, added from the left to [0.0]. *)
Definition fsum (l : list float) : float := fold_left fadd l zero.

(** The valid prices of the rows, in row order. *)
Definition valid_prices (rows : list row) : list float :=
  flat_map (fun r => match _to_number (harga r) with
                     | Some v => [v]
                     | None => []
                     end) rows.

(** The valid prices of the rows that are counted under category [c]. *)
Definition prices_of (c : str) (rows : list row) : list float :=
  valid_prices (filter (fun r => PyStr.eqb (cat_of r) c) rows).

(** The category of the row is missing, or blank once trimmed. *)
Definition blank_category (r : row) : bool :=
  match kategori r with
  | None => true
  | Some s => is_empty (strip s)
  end.

(** The coercion of [_to_number] before its sign test:
    [float(str(x).strip())]. *)
Definition coerce (x : pyval) : option float :=
  match py_str x with
  | Some s => py_float (strip s)
  | None => None
  end.

(** The price does not coerce to a number, or coerces to a negative one. *)
Definition invalid_price (x : pyval) : bool :=
  match coerce x with
  | None => true
  | Some v => fltb v zero
  end.

(** The price field of a [DictReader] row is missing, empty, or not the
    text of an integer. *)
Definition no_int_price (d : dict (option str)) : bool :=
  match row_get d "harga" with
  | None => true
  | Some s => match py_int (strip s) with
              | None => true
              | Some _ => false
              end
  end.

(** A data line with a negative price, under the header of the sample. *)
Definition NEGATIVE_CSV : str := lit "kategori;nama;harga
Makanan;Ayam Bakar;-500
".

(** The rows of [SAMPLE_CSV]. *)
Definition sample_rows : list row :=
  [mkRow (Some (lit "Makanan")) (Some (lit "Ayam Bakar")) (PyInt 25000);
   mkRow (Some (lit "Makanan")) (Some (lit "Nasi Goreng")) (PyInt 18000);
   mkRow (Some (lit "Minuman")) (Some (lit "Es Teh")) (PyInt 5000);
   mkRow (Some (lit "Minuman")) (Some (lit "Jus Alpukat")) (PyInt 12000)].

(** The summary of the sample: Makanan 43000.0 and Minuman 17000.0. *)
Definition sample_totals : dict float :=
  [(lit "Makanan", of_Z 43000); (lit "Minuman", of_Z 17000)].

(** A row whose category is blank. *)
Definition blank_row : row :=
  mkRow (Some (lit "  ")) (Some (lit "Es Teh")) (PyInt 5000).

(** The bytes of the summary of the sample as JSON; every apostrophe of
    the literal stands for a double quote. *)
Definition SAMPLE_JSON : bytes :=
  List.map (fun c => if N.eqb c 39 then 34%N else c) (lit "{
    'Makanan': 43000.0,
    'Minuman': 17000.0
}").

(** Data lines whose price is not the text of an integer, or is empty. *)
Definition BAD_PRICE_CSV : str := lit "kategori;nama;harga
Makanan;Sate;abc
Minuman;Es Jeruk;
Lainnya;Kerupuk;12.5
".

(** The rows that [csv.DictReader] makes of [BAD_PRICE_CSV]. *)
Definition bad_price_recs : list (dict (option str)) :=
  [[(lit "kategori", Some (lit "Makanan")); (lit "nama", Some (lit "Sate"));
    (lit "harga", Some (lit "abc"))];
   [(lit "kategori", Some (lit "Minuman")); (lit "nama", Some (lit "Es Jeruk"));
    (lit "harga", Some [])];
   [(lit "kategori", Some (lit "Lainnya")); (lit "nama", Some (lit "Kerupuk"));
    (lit "harga", Some (lit "12.5"))]].

(** A number that is [>= 0]. *)
Definition nonneg (f : float) : Prop := fleb zero f = true.

(** *** The reader seen as one pass over the text

    What [csv.reader] is fed, as one stream: every character of the text,
    and the end-of-line mark after each line feed. *)
Definition toks (s : str) : list Csv.tok :=
  flat_map (fun c => if N.eqb c Csv.LF then [Csv.Ch c; Csv.EOL]
                     else [Csv.Ch c]) s.

(** The records read from a stream and the parser after it: a record is
    complete when an end-of-line mark brings the parser to
    [START_RECORD]. *)
Fixpoint run (r : Csv.reader) (ts : list Csv.tok)
  : res (list (list str) * Csv.reader) :=
  match ts with
  | [] => Ok ([], r)
  | t :: ts' =>
      r' <- Csv.parse_process_char r t ;;
      match t, Csv.state r' with
      | Csv.EOL, Csv.START_RECORD =>
          p <- run Csv.parse_reset ts' ;; Ok (Csv.fields r' :: fst p, snd p)
      | _, _ => run r' ts'
      end
  end.

(** The record that the end of the input completes, if one is open. *)
Definition last_record (r : Csv.reader) : list (list str) :=
  match Csv.state r, Csv.field r with
  | Csv.IN_QUOTED_FIELD, _ | _, _ :: _ => [Csv.fields r ++ [Csv.field r]]
  | _, [] => []
  end.

(** *** Rows that survive export and re-parsing *)

(** A field that the writer and the reader agree on: within the field size
    limit, and with no carriage return unless the writer quotes the
    field. *)
Definition field_ok (f : str) : bool :=
  N.leb (N.of_nat (List.length f)) Csv.field_limit
  && (Csv.needs_quote lineterminator f || negb (existsb (N.eqb Csv.CR) f)).

(** No white space at either end. *)
Definition stripped (s : str) : bool := PyStr.eqb (strip s) s.

(** Category and name are strings that [strip] leaves alone and that are
    fields the writer and the reader agree on. *)
Definition text_ok (r : row) : bool :=
  match kategori r, nama r with
  | Some k, Some n => stripped k && stripped n && field_ok k && field_ok n
  | _, _ => false
  end.

(** The record that the reader makes of an exported row. *)
Definition reads_as (r : row) (rec : list str) : Prop :=
  exists p, rec = [text_cell (kategori r); text_cell (nama r); p].

(** The category and the name of a row. *)
Definition pair_of (r : row) : option str * option str :=
  (kategori r, nama r).

(** A character that an unquoted field may hold. *)
Definition plain (c : N) : bool :=
  negb (N.eqb c Csv.delimiter || N.eqb c Csv.quotechar
        || N.eqb c Csv.LF || N.eqb c Csv.CR).

(** Within the field size limit. *)
Definition fits (f : str) : Prop :=
  (N.of_nat (List.length f) <= Csv.field_limit)%N.

(** The parser when the text of the field [f] has been read, before the
    delimiter or line end that closes it. *)
Definition after_field (st : Csv.pstate) (f : str) : Prop :=
  match st with
  | Csv.IN_FIELD => f <> []
  | Csv.QUOTE_IN_QUOTED_FIELD => True
  | Csv.START_FIELD | Csv.START_RECORD => f = []
  | _ => False
  end.

(** The text of a number as [str] gives it, which is how the cells of a
    column of integers are written. *)
Definition str_number (col : list pyval) (x : pyval) : res str :=
  match py_str x with
  | Some s => Ok s
  | None => Raise ValueError
  end.

(** A row whose category and name carry white space at an end. *)
Definition padded_row : row :=
  mkRow (Some (lit " Makanan")) (Some (lit "Es Teh ")) (PyInt 5000).

(** The category holds a delimiter, the name two double quotes and a line
    feed. *)
Definition quoted_row : row :=
  mkRow (Some (lit "Makanan; Minuman"))
        (Some (lit "Es " ++ [34%N] ++ lit "Teh" ++ [34%N; 10%N] ++ lit "manis"))
        (PyInt 5000).

(** The bytes of the CSV export of the rows, numbers printed by [str]. *)
Definition exported (rows : list row) : bytes :=
  match convert_df_to_csv str_number rows with
  | Ok b => b
  | Raise _ => []
  end.

(** *** Exact values and rounding

    Every finite binary64 number is a whole multiple of [2^-1074]; [ulps]
    is that multiple, so that sums of floats have exact integer values. *)

Local Open Scope Z_scope.

(** The least exponent of binary64. *)
Definition emin64 : Z := -1074.

(** The value of a finite float, in units of [2^emin64]. *)
Definition ulps (f : float) : Z :=
  match f with
  | S754_finite s m e => cond_Zopp s (Zpos m * 2 ^ (e - emin64))
  | _ => 0
  end.

Definition is_finite (f : float) : bool :=
  match f with
  | S754_zero _ | S754_finite _ _ _ => true
  | _ => false
  end.

(** The exponent is one of binary64. *)
Definition on_grid (f : float) : Prop :=
  match f with
  | S754_finite _ _ e => emin64 <= e
  | _ => True
  end.

(** The state of a right shift of [M] by [k] bits: the mantissa kept, the
    bit shifted out last (round bit) and whether a lower bit was set
    (sticky bit). *)
Definition shr_inv (M k : Z) (mrs : shr_record) : Prop :=
  exists rest,
    0 <= rest < 2 ^ k
    /\ 2 * M = shr_m mrs * 2 ^ (k + 1) + (if shr_r mrs then 2 ^ k else 0) + rest
    /\ (shr_s mrs = true <-> 0 < rest)
    /\ 0 <= shr_m mrs.

(** The inverse of the unit roundoff of binary64. *)
Definition U : Z := 2 ^ 53.

(** [r] is what the exact value [V] (in units of [2^emin64]) rounds to:
    infinity, or a float off [V] by at most its [2^-53]th part. *)
Definition rounds_to (V : Z) (r : float) : Prop :=
  r = S754_infinity false
  \/ exists m e, r = S754_finite false m e /\ emin64 <= e
                 /\ U * Z.abs (Zpos m * 2 ^ (e - emin64) - V) <= V.

Definition finite_or_inf (m : positive) (e : Z) : float :=
  if e <=? emax - prec then S754_finite false m e else S754_infinity false.

(** The exact sum of finite floats, in units of [2^emin64]. *)
Definition exact_sum (l : list float) : Z :=
  fold_right (fun v s => ulps v + s) 0 l.

Definition good (v : float) : Prop := nonneg v /\ on_grid v.

(** [r] is within [n] roundings of the exact value [X]: their difference
    is at most [(1 + 2^-53)^n - 1] times [X]. *)
Definition within (n : nat) (r X : Z) : Prop :=
  U ^ Z.of_nat n * Z.abs (r - X) <= ((U + 1) ^ Z.of_nat n - U ^ Z.of_nat n) * X.

(** The exact sums of the categories [K], added. *)
Definition cat_sum (K : list str) (rows : list row) : Z :=
  fold_right (fun c s => exact_sum (prices_of c rows) + s) 0 K.

Local Close Scope Z_scope.

(** Three prices at the edge of the binary64 range: the greatest finite
    float, and twice a quarter of its last place. *)
Definition overflow_rows : list row :=
  [mkRow (Some (lit "Makanan")) (Some (lit "Emas"))
         (PyStr (lit "1.7976931348623157e308"));
   mkRow (Some (lit "Minuman")) (Some (lit "Perak"))
         (PyStr (lit "4.9896007738368e+291"));
   mkRow (Some (lit "Minuman")) (Some (lit "Perunggu"))
         (PyStr (lit "4.9896007738368e+291"))].

(** *** Notions of the further properties *)

(** [k in l] *)
Definition str_mem (k : str) (l : list str) : bool := existsb (PyStr.eqb k) l.

(** No carriage return, and every line feed is the last character of its
    line. *)
Fixpoint calm (ts : list Csv.tok) : bool :=
  match ts with
  | [] => true
  | Csv.Ch c :: rest =>
      negb (N.eqb c Csv.CR)
      && (if N.eqb c Csv.LF
          then match rest with Csv.EOL :: _ => true | _ => false end
          else true)
      && calm rest
  | Csv.EOL :: rest => calm rest
  end.

(** The number of characters of a stream. *)
Fixpoint count_ch (ts : list Csv.tok) : nat :=
  match ts with
  | [] => O
  | Csv.Ch _ :: rest => S (count_ch rest)
  | Csv.EOL :: rest => count_ch rest
  end.

(** The parser waits for the end of the line only when it comes next. *)
Definition ready (r : Csv.reader) (ts : list Csv.tok) : Prop :=
  Csv.state r = Csv.EAT_CRNL -> exists ts', ts = Csv.EOL :: ts'.

(** The field read so far and the characters to come fit the field size
    limit together. *)
Definition room (r : Csv.reader) (ts : list Csv.tok) : Prop :=
  (N.of_nat (List.length (Csv.field r) + count_ch ts) <= Csv.field_limit)%N.

(** No carriage return, no line feed. *)
Definition no_cr (s : str) : bool := negb (existsb (N.eqb Csv.CR) s).
Definition no_lf (s : str) : bool := negb (existsb (N.eqb Csv.LF) s).

(** The row has a valid price. *)
Definition is_valid (r : row) : bool :=
  match _to_number (harga r) with
  | Some _ => true
  | None => false
  end.

(** The categories of the rows with a valid price, in row order. *)
Definition valid_cats (rows : list row) : list str :=
  List.map cat_of (filter is_valid rows).

(** The distinct elements of a list, in the order of their first
    occurrence. *)
Definition first_seen (l : list str) : list str :=
  fold_left (fun acc c => if str_mem c acc then acc else acc ++ [c]) l [].

(** [summary_list]: one [dict] for each item of [totals], as the summary
    table is given them. *)
Definition summary_list (totals : dict float) : list (dict pyval) :=
  List.map (fun kv => [(lit "kategori", PyStr (fst kv));
                       (lit "total", PyFloat (snd kv))]) totals.

(** The number that a string of decimal digits writes, after the digits
    whose value is [acc]. *)
Fixpoint uint_val (u : Decimal.uint) (acc : Z) : Z :=
  match u with
  | Decimal.Nil => acc
  | Decimal.D0 u => uint_val u (10 * acc)
  | Decimal.D1 u => uint_val u (10 * acc + 1)
  | Decimal.D2 u => uint_val u (10 * acc + 2)
  | Decimal.D3 u => uint_val u (10 * acc + 3)
  | Decimal.D4 u => uint_val u (10 * acc + 4)
  | Decimal.D5 u => uint_val u (10 * acc + 5)
  | Decimal.D6 u => uint_val u (10 * acc + 6)
  | Decimal.D7 u => uint_val u (10 * acc + 7)
  | Decimal.D8 u => uint_val u (10 * acc + 8)
  | Decimal.D9 u => uint_val u (10 * acc + 9)
  end%Z.

(** No leading zero, but for the number zero. *)
Definition lead_ok (u : Decimal.uint) : bool :=
  match u with
  | Decimal.Nil => false
  | Decimal.D0 Decimal.Nil => true
  | Decimal.D0 _ => false
  | _ => true
  end.

(** An ASCII digit. *)
Definition is_digit (c : N) : bool := between 48 57 c.

(** The binary64 of a whole number [0 < S < 2^53]: its bits, moved up to
    fill the 53 of the mantissa. *)
Definition whole (S : Z) : float :=
  S754_finite false (Z.to_pos (S * 2 ^ (53 - Zdigits2 S))) (Zdigits2 S - 53).

(** The price of the row is an [int] that is not negative. *)
Definition int_priced (r : row) : bool :=
  match harga r with
  | PyInt z => (0 <=? z)%Z
  | _ => false
  end.

(** The price of a row that is an [int]. *)
Definition int_price (r : row) : Z :=
  match harga r with
  | PyInt z => z
  | _ => 0%Z
  end.

(** The sum of whole numbers. *)
Definition zsum (l : list Z) : Z := fold_right Z.add 0%Z l.

(** The sum of the [int] prices of the rows, as a whole number. *)
Definition price_sum (rows : list row) : Z := zsum (List.map int_price rows).

(** The rows counted under category [c]. *)
Definition rows_of (c : str) (rows : list row) : list row :=
  filter (fun r => PyStr.eqb (cat_of r) c) rows.

(** The price of the row is an [int]. *)
Definition int_cell (r : row) : bool :=
  match harga r with
  | PyInt _ => true
  | _ => false
  end.

(** Rows with a field that the writer quotes and a negative price. *)
Definition mixed_rows : list row :=
  [quoted_row;
   mkRow (Some (lit "Makanan")) (Some (lit "Ayam Bakar")) (PyInt (-500));
   mkRow (Some []) (Some []) (PyInt 0)].

(** The record that the reader makes of an exported row with an [int]
    price. *)
Definition reads_int (r : row) (rec : list str) : Prop :=
  exists z p, harga r = PyInt z /\ int_str z = Some p
              /\ rec = [text_cell (kategori r); text_cell (nama r); p].

(** A code point of ASCII. *)
Definition is_ascii (c : N) : bool := N.ltb c 128.

(** A code point that a [str] can hold. *)
Definition code_point (c : N) : bool := N.ltb c 1114112.

(** A text of ASCII. *)
Definition all_ascii (s : str) : Prop := Forall (fun c => is_ascii c = true) s.

(** A mapping with a key outside ASCII, holding an unpaired surrogate, and
    a total that has overflowed. *)
Definition odd_totals : dict float :=
  [(lit "Makanan", of_Z 43000);
   ([77; 233; 128512; 55357]%N, S754_infinity false)].

(** White space only. *)
Definition blank (s : str) : bool := forallb isspace s.

(** A code point that UTF-8 encodes: any but a surrogate. *)
Definition scalar (c : N) : bool :=
  N.ltb c 1114112 && negb (between 55296 57343 c).

(** The text of a cell holds no surrogate. *)
Definition cell_scalar (x : option str) : bool :=
  match x with
  | Some s => forallb scalar s
  | None => true
  end.

(** A row that can be exported: category and name without surrogates, and
    an [int] price that [str] prints. *)
Definition exportable (r : row) : bool :=
  cell_scalar (kategori r) && cell_scalar (nama r)
  && match harga r with
     | PyInt z => (Z.abs z <? 10 ^ Z.of_N int_max_str_digits)%Z
     | _ => false
     end.

(** A text without surrogates. *)
Definition all_scalar (s : str) : Prop := Forall (fun c => scalar c = true) s.

(** ** Properties *)

(** *** Strings and dictionaries *)

Lemma str_eqb_eq (a b : str) : PyStr.eqb a b = true <-> a = b.
Proof.
  revert b; induction a as [|x a IH]; intros [|y b]; simpl;
    try (split; congruence).
  rewrite andb_true_iff, N.eqb_eq, IH. split.
  - intros [-> ->]; reflexivity.
  - intros H; inversion H; auto.
Qed.

Lemma str_eqb_refl (a : str) : PyStr.eqb a a = true.
Proof. apply str_eqb_eq; reflexivity. Qed.

Lemma str_eqb_neq (a b : str) : PyStr.eqb a b = false <-> a <> b.
Proof.
  rewrite <- str_eqb_eq. destruct (PyStr.eqb a b); split; congruence.
Qed.

Lemma str_eqb_trans_l (a b c : str) :
  PyStr.eqb a b = true -> PyStr.eqb a c = PyStr.eqb b c.
Proof. intros H; apply str_eqb_eq in H; subst; reflexivity. Qed.

Section DictFacts.

Variable V : Type.
Implicit Types (d : dict V) (k : str) (v : V).

Lemma get_set_same d k v : get (set d k v) k = Some v.
Proof.
  induction d as [|[k' v'] d IH]; simpl.
  - rewrite str_eqb_refl; reflexivity.
  - destruct (PyStr.eqb k' k) eqn:E; simpl; rewrite E; auto.
Qed.

Lemma get_set_other d k k' v : k <> k' -> get (set d k v) k' = get d k'.
Proof.
  intros Hne. induction d as [|[k0 v0] d IH]; simpl.
  - apply str_eqb_neq in Hne; rewrite Hne; reflexivity.
  - destruct (PyStr.eqb k0 k) eqn:E; simpl.
    + apply str_eqb_eq in E; subst k0.
      apply str_eqb_neq in Hne; rewrite Hne; reflexivity.
    + destruct (PyStr.eqb k0 k'); auto.
Qed.

Lemma get_set d k k' v :
  get (set d k v) k' = if PyStr.eqb k k' then Some v else get d k'.
Proof.
  destruct (PyStr.eqb k k') eqn:E.
  - apply str_eqb_eq in E; subst; apply get_set_same.
  - apply str_eqb_neq in E; apply get_set_other; assumption.
Qed.

(** Every value of [set d k v] is [v] or was a value of [d]. *)
Lemma set_values (P : V -> Prop) d k v :
  P v -> Forall P (values d) -> Forall P (values (set d k v)).
Proof.
  intros Hv. induction d as [|[k' v'] d IH]; simpl; intros Hd.
  - constructor; auto.
  - inversion Hd; subst.
    destruct (PyStr.eqb k' k); simpl; constructor; auto.
Qed.

Lemma get_in_values d k v : get d k = Some v -> In v (values d).
Proof.
  induction d as [|[k' v'] d IH]; simpl; [discriminate|].
  destruct (PyStr.eqb k' k); [intros [= ->]; auto | auto].
Qed.

End DictFacts.

(** *** The aggregator *)

Lemma step_invalid acc r : _to_number (harga r) = None -> step acc r = acc.
Proof. unfold step; intros ->; reflexivity. Qed.

Lemma step_valid acc r v :
  _to_number (harga r) = Some v ->
  step acc r =
    (set (fst acc) (cat_of r) (fadd (get_or (fst acc) (cat_of r) zero) v),
     fadd (snd acc) v).
Proof. unfold step; intros ->; reflexivity. Qed.

Lemma valid_prices_cons r rows :
  valid_prices (r :: rows) =
    match _to_number (harga r) with
    | Some v => v :: valid_prices rows
    | None => valid_prices rows
    end.
Proof. unfold valid_prices; simpl. destruct (_to_number (harga r)); auto. Qed.

Lemma prices_of_cons c r rows :
  prices_of c (r :: rows) =
    if PyStr.eqb (cat_of r) c
    then match _to_number (harga r) with
         | Some v => v :: prices_of c rows
         | None => prices_of c rows
         end
    else prices_of c rows.
Proof.
  unfold prices_of; simpl. destruct (PyStr.eqb (cat_of r) c); auto.
  apply valid_prices_cons.
Qed.

(** The grand total is the running sum of the valid prices. *)
Lemma total_all_fold rows acc :
  snd (fold_left step rows acc) = fold_left fadd (valid_prices rows) (snd acc).
Proof.
  revert acc; induction rows as [|r rows IH]; intros acc;
    cbn [fold_left]; auto.
  rewrite IH, valid_prices_cons. unfold step.
  destruct (_to_number (harga r)); reflexivity.
Qed.

(** What the mapping holds under a key: nothing new when no valid row has
    that category, else the running sum of their prices. *)
Lemma totals_fold rows acc c :
  get (fst (fold_left step rows acc)) c =
    match prices_of c rows with
    | [] => get (fst acc) c
    | l => Some (fold_left fadd l (get_or (fst acc) c zero))
    end.
Proof.
  revert acc; induction rows as [|r rows IH]; intros acc;
    cbn [fold_left]; auto.
  rewrite IH, prices_of_cons. unfold step, get_or.
  destruct (_to_number (harga r)) as [v|]; simpl.
  - rewrite get_set. destruct (PyStr.eqb (cat_of r) c) eqn:E.
    + apply str_eqb_eq in E; subst c.
      destruct (prices_of (cat_of r) rows); reflexivity.
    + destruct (prices_of c rows); reflexivity.
  - destruct (PyStr.eqb (cat_of r) c); reflexivity.
Qed.

Lemma compute_totals_get rows c :
  get (fst (compute_totals rows)) c =
    match prices_of c rows with
    | [] => None
    | l => Some (fsum l)
    end.
Proof. unfold compute_totals; rewrite totals_fold; reflexivity. Qed.

Lemma compute_totals_total rows :
  snd (compute_totals rows) = fsum (valid_prices rows).
Proof. unfold compute_totals; rewrite total_all_fold; reflexivity. Qed.

Lemma blank_cat_of r : blank_category r = true -> cat_of r = tidak_diketahui.
Proof.
  unfold blank_category, cat_of.
  destruct (kategori r) as [s|]; [|reflexivity].
  replace (or_str (Some s) []) with s by (destruct s; reflexivity).
  destruct (strip s); [reflexivity | discriminate].
Qed.

Lemma in_prices_of c r rows v :
  In r rows -> cat_of r = c -> _to_number (harga r) = Some v ->
  In v (prices_of c rows).
Proof.
  intros Hin Hc Hv; induction rows as [|r' rows IH]; [destruct Hin|].
  rewrite prices_of_cons. destruct Hin as [-> | Hin].
  - rewrite Hc, str_eqb_refl, Hv; left; reflexivity.
  - specialize (IH Hin). destruct (PyStr.eqb (cat_of r') c); auto.
    destruct (_to_number (harga r')); [right|]; auto.
Qed.

(** C1 (as amended): a row whose category is missing or blank after
    trimming is counted under the key [Tidak diketahui]: that is its
    category, its valid price is one of the prices summed under that key,
    and the returned mapping holds their sum there. *)
Theorem C1_blank_category_key rows r v :
  In r rows -> blank_category r = true -> _to_number (harga r) = Some v ->
  cat_of r = lit "Tidak diketahui"
  /\ In v (prices_of (lit "Tidak diketahui") rows)
  /\ get (fst (compute_totals rows)) (lit "Tidak diketahui")
     = Some (fsum (prices_of (lit "Tidak diketahui") rows)).
Proof.
  intros Hin Hb Hv. pose proof (blank_cat_of r Hb) as Hc.
  pose proof (in_prices_of _ _ Hin Hc Hv) as Hp.
  change (lit "Tidak diketahui") with tidak_diketahui.
  repeat split; auto.
  rewrite compute_totals_get.
  destruct (prices_of tidak_diketahui rows); [destruct Hp | reflexivity].
Qed.

Lemma C1_blank_category_key_witness :
  cat_of blank_row = lit "Tidak diketahui"
  /\ In (of_Z 5000) (prices_of (lit "Tidak diketahui") [blank_row])
  /\ get (fst (compute_totals [blank_row])) (lit "Tidak diketahui")
     = Some (fsum (prices_of (lit "Tidak diketahui") [blank_row])).
Proof.
  apply (@C1_blank_category_key [blank_row] blank_row (of_Z 5000)).
  - left; reflexivity.
  - vm_compute; reflexivity.
  - vm_compute; reflexivity.
Defined.

(** C1, as the specification words it, fails: the price of a row with a
    blank category is not put under a key [Unknown]. *)
Lemma C1_no_unknown_key :
  blank_category blank_row = true
  /\ compute_totals [blank_row] = ([(lit "Tidak diketahui", of_Z 5000)], of_Z 5000)
  /\ get (fst (compute_totals [blank_row])) (lit "Unknown") = None.
Proof. vm_compute; auto. Qed.

(** A number below zero is not [>= 0]. *)
Lemma fltb_zero_not_fleb v : fltb v zero = true -> fleb zero v = false.
Proof. destruct v as [[|]|[|]| |[|] m e]; cbv; congruence. Qed.

Lemma invalid_price_to_number x :
  invalid_price x = true -> _to_number x = None.
Proof.
  unfold invalid_price, coerce, _to_number.
  destruct (py_str x) as [s|]; [|reflexivity].
  destruct (py_float (strip s)) as [v|]; [|reflexivity].
  intros H; rewrite (fltb_zero_not_fleb _ H); reflexivity.
Qed.

Lemma compute_totals_skip l1 r l2 :
  _to_number (harga r) = None ->
  compute_totals (l1 ++ r :: l2) = compute_totals (l1 ++ l2).
Proof.
  intros H. unfold compute_totals. rewrite !fold_left_app.
  cbn [fold_left]. rewrite (step_invalid _ _ H). reflexivity.
Qed.

(** C3: a row whose price does not coerce to a number, or coerces to a
    negative number, is left out of the per-category totals and of the grand
    total: both results are those of the sequence without the row (it adds
    no key either).  The prices [-500] and [abc] are such prices, and so
    are the empty string and [None]. *)
Theorem C3_invalid_price_excluded :
  (forall l1 r l2, invalid_price (harga r) = true ->
     compute_totals (l1 ++ r :: l2) = compute_totals (l1 ++ l2))
  /\ invalid_price (PyStr (lit "-500")) = true
  /\ invalid_price (PyStr (lit "abc")) = true
  /\ invalid_price (PyStr []) = true
  /\ invalid_price PyNone = true.
Proof.
  split; [|repeat split; vm_compute; reflexivity].
  intros l1 r l2 H. apply compute_totals_skip, invalid_price_to_number, H.
Qed.

Lemma C3_invalid_price_excluded_witness :
  compute_totals
    ([blank_row]
       ++ mkRow (Some (lit "Makanan")) (Some (lit "Sate")) (PyStr (lit "-500"))
       :: sample_rows)
  = compute_totals ([blank_row] ++ sample_rows).
Proof.
  apply (proj1 C3_invalid_price_excluded). vm_compute; reflexivity.
Defined.

(** *** The parser *)

(** C2 fails on the code: [int] reads a sign, so a negative price comes out
    of [load_csv] as it is. *)
Theorem C2_negative_price_kept :
  load_csv (Text NEGATIVE_CSV)
  = Ok [mkRow (Some (lit "Makanan")) (Some (lit "Ayam Bakar")) (PyInt (-500))].
Proof. vm_compute; reflexivity. Qed.

(** C5: the built-in data parses to its four rows, and they aggregate to
    Makanan 43000 and Minuman 17000, in this order, with grand total
    60000. *)
Theorem C5_default_dataset :
  load_csv (Text SAMPLE_CSV) = Ok sample_rows
  /\ compute_totals sample_rows
     = ([(lit "Makanan", of_Z 43000); (lit "Minuman", of_Z 17000)],
        of_Z 60000).
Proof. split; vm_compute; reflexivity. Qed.

Lemma parse_harga_default d : no_int_price d = true -> parse_harga d = 0%Z.
Proof.
  unfold no_int_price, parse_harga.
  destruct (row_get d "harga") as [[|c s]|]; simpl or_str.
  - intros _; vm_compute; reflexivity.
  - destruct (py_int (strip (c :: s))); [discriminate | reflexivity].
  - intros _; vm_compute; reflexivity.
Qed.

(** C6: when the reader delivers its rows, [load_csv] returns one row for
    each of them, and a row whose price field is missing, empty or not the
    text of an integer is returned with price 0: the failed conversion is
    caught and nothing is raised for it. *)
Theorem C6_bad_price_is_zero text recs :
  Csv.DictReader text = Ok recs ->
  load_csv (Text text) = Ok (List.map load_row recs)
  /\ List.length (List.map load_row recs) = List.length recs
  /\ forall d, In d recs -> no_int_price d = true ->
       In (load_row d) (List.map load_row recs)
       /\ harga (load_row d) = PyInt 0.
Proof.
  intros H. unfold load_csv; simpl. rewrite H; simpl.
  split; [reflexivity|]. split; [apply length_map|].
  intros d Hin Hbad. split; [apply in_map; assumption|].
  simpl. rewrite (parse_harga_default _ Hbad). reflexivity.
Qed.

Lemma C6_bad_price_is_zero_witness :
  load_csv (Text BAD_PRICE_CSV) = Ok (List.map load_row bad_price_recs)
  /\ List.length (List.map load_row bad_price_recs)
     = List.length bad_price_recs
  /\ forall d, In d bad_price_recs -> no_int_price d = true ->
       In (load_row d) (List.map load_row bad_price_recs)
       /\ harga (load_row d) = PyInt 0.
Proof. apply C6_bad_price_is_zero. vm_compute; reflexivity. Defined.

(** *** The export gate and the JSON export *)

Lemma is_empty_nil {A} (l : list A) : is_empty l = true <-> l = [].
Proof. destruct l; simpl; split; congruence. Qed.

(** C7: the downloads are offered exactly when there is a row and the grand
    total is above zero or the mapping of totals is empty. *)
Theorem C7_export_gate rows :
  data_valid rows = true
  <-> rows <> []
      /\ (fltb zero (snd (compute_totals rows)) = true
          \/ fst (compute_totals rows) = []).
Proof.
  unfold data_valid. destruct (compute_totals rows) as [totals total_all].
  simpl fst; simpl snd.
  rewrite andb_true_iff, orb_true_iff, negb_true_iff, is_empty_nil.
  destruct rows; simpl; intuition congruence.
Qed.

(** C8: the JSON export is a function of the mapping alone, and the summary
    of the sample is exported as the object with two members, one on each
    line behind four spaces. *)
Theorem C8_json_export :
  (forall d d' : dict float,
     d = d' -> convert_summary_to_json d = convert_summary_to_json d')
  /\ convert_summary_to_json
       [(lit "Makanan", of_Z 43000); (lit "Minuman", of_Z 17000)]
     = Ok SAMPLE_JSON.
Proof. split; [intros d d' ->; reflexivity | vm_compute; reflexivity]. Qed.

(** *** Floats that are not negative *)

Section IterPos.

Variables (A : Type) (f : A -> A) (P : A -> Prop).
Hypothesis Pf : forall x, P x -> P (f x).

Lemma iter_pos_inv (p : positive) (x : A) : P x -> P (iter_pos f p x).
Proof.
  revert x; induction p as [p IH|p IH|]; intros x Hx; simpl; auto.
Qed.

End IterPos.

Lemma shr_1_nonneg mrs : (0 <= shr_m mrs)%Z -> (0 <= shr_m (shr_1 mrs))%Z.
Proof.
  destruct mrs as [m r s]; simpl.
  destruct m as [|[p|p|]|p]; simpl; lia.
Qed.

Lemma shr_fexp_nonneg m e l :
  (0 <= m)%Z -> (0 <= shr_m (fst (shr_fexp prec emax m e l)))%Z.
Proof.
  intros Hm. unfold shr_fexp, shr.
  assert (H0 : (0 <= shr_m (shr_record_of_loc m l))%Z)
    by (destruct l as [|[| |]]; simpl; exact Hm).
  destruct (fexp prec emax (Zdigits2 m + e) - e)%Z; simpl; auto.
  apply iter_pos_inv; auto using shr_1_nonneg.
Qed.

Lemma round_nearest_even_nonneg m l :
  (0 <= m)%Z -> (0 <= round_nearest_even m l)%Z.
Proof.
  intros Hm. destruct l as [|[| |]]; simpl; try lia.
  destruct (Z.even m); lia.
Qed.

Lemma binary_round_aux_nonneg m e l :
  (0 <= m)%Z -> nonneg (binary_round_aux prec emax false m e l).
Proof.
  intros Hm. unfold binary_round_aux.
  pose proof (shr_fexp_nonneg e l Hm) as H1.
  destruct (shr_fexp prec emax m e l) as [mrs' e']. simpl fst in H1.
  pose proof (shr_fexp_nonneg e' loc_Exact
                (round_nearest_even_nonneg (loc_of_shr_record mrs') H1)) as H2.
  destruct (shr_fexp prec emax _ e' loc_Exact) as [mrs'' e'']. simpl fst in H2.
  destruct (shr_m mrs'') as [|p|p]; try reflexivity; [|lia].
  destruct (e'' <=? emax - prec)%Z; reflexivity.
Qed.

Lemma binary_round_nonneg m e : nonneg (binary_round prec emax false m e).
Proof.
  unfold binary_round.
  destruct (shl_align m e _) as [mz ez].
  apply binary_round_aux_nonneg; lia.
Qed.

Lemma fadd_nonneg x y : nonneg x -> nonneg y -> nonneg (fadd x y).
Proof.
  unfold nonneg.
  destruct x as [[|]|[|]| |[|] mx ex]; destruct y as [[|]|[|]| |[|] my ey];
    try reflexivity; try discriminate.
  intros _ _. unfold fadd, SFadd, cond_Zopp, binary_normalize.
  destruct (fst (shl_align mx ex (Z.min ex ey))) as [a|a|];
    destruct (fst (shl_align my ey (Z.min ex ey))) as [b|b|];
    simpl Z.add; apply binary_round_nonneg.
Qed.

Lemma fsum_from_nonneg l a :
  nonneg a -> Forall nonneg l -> nonneg (fold_left fadd l a).
Proof.
  revert a; induction l as [|v l IH]; intros a Ha Hl; simpl; auto.
  inversion Hl; subst. apply IH; auto using fadd_nonneg.
Qed.

Lemma to_number_nonneg x v : _to_number x = Some v -> nonneg v.
Proof.
  unfold _to_number, nonneg.
  destruct (py_str x) as [s|]; [|discriminate].
  destruct (py_float (strip s)) as [w|]; [|discriminate].
  destruct (fleb zero w) eqn:E; [intros [= <-]; exact E | discriminate].
Qed.

Lemma valid_prices_nonneg rows : Forall nonneg (valid_prices rows).
Proof.
  induction rows as [|r rows IH]; [constructor|].
  rewrite valid_prices_cons.
  destruct (_to_number (harga r)) eqn:E; auto.
  constructor; eauto using to_number_nonneg.
Qed.

Lemma step_nonneg acc r :
  Forall nonneg (values (fst acc)) /\ nonneg (snd acc) ->
  Forall nonneg (values (fst (step acc r))) /\ nonneg (snd (step acc r)).
Proof.
  intros [Ht Hg]. unfold step.
  destruct (_to_number (harga r)) as [v|] eqn:E; [|auto].
  pose proof (to_number_nonneg _ E) as Hv. simpl. split.
  - apply set_values; auto. apply fadd_nonneg; auto.
    unfold get_or. destruct (get (fst acc) (cat_of r)) as [t|] eqn:G.
    + rewrite Forall_forall in Ht. eauto using get_in_values.
    + reflexivity.
  - apply fadd_nonneg; auto.
Qed.

(** C10: every total of the returned mapping is [>= 0], and so is the
    grand total. *)
Theorem C10_totals_nonneg rows :
  Forall (fun kv => fleb zero (snd kv) = true) (fst (compute_totals rows))
  /\ fleb zero (snd (compute_totals rows)) = true.
Proof.
  assert (H : forall acc,
             Forall nonneg (values (fst acc)) /\ nonneg (snd acc) ->
             Forall nonneg (values (fst (fold_left step rows acc)))
             /\ nonneg (snd (fold_left step rows acc))).
  { induction rows as [|r rows IH]; intros acc Hacc; simpl; auto.
    apply IH, step_nonneg, Hacc. }
  destruct (H ([], zero)) as [Ht Hg].
  - split; [constructor | reflexivity].
  - split; [|exact Hg].
    unfold values in Ht. rewrite Forall_map in Ht. exact Ht.
Qed.

(** *** UTF-8: decoding what was encoded *)

Local Open Scope N_scope.

Ltac div_lia := zify; Z.to_euclidean_division_equations; lia.

Ltac decide_cmp :=
  repeat match goal with
  | |- context [N.ltb ?a ?b] =>
      first [ replace (N.ltb a b) with true by (symmetry; apply N.ltb_lt; lia)
            | replace (N.ltb a b) with false by (symmetry; apply N.ltb_ge; lia) ]
  | |- context [N.leb ?a ?b] =>
      first [ replace (N.leb a b) with true by (symmetry; apply N.leb_le; lia)
            | replace (N.leb a b) with false by (symmetry; apply N.leb_gt; lia) ]
  end.

(** One code point, of one to four bytes, read back. *)
Lemma decode1 b1 rest :
  b1 < 128 -> decode (b1 :: rest) = (s <- decode rest ;; Ok (b1 :: s)).
Proof. intros H. cbn [decode]. decide_cmp. reflexivity. Qed.

Lemma decode2 b1 b2 rest :
  194 <= b1 <= 223 -> 128 <= b2 <= 191 ->
  decode (b1 :: b2 :: rest)
  = (s <- decode rest ;; Ok ((b1 - 192) * 64 + (b2 - 128) :: s)).
Proof.
  intros H1 H2. cbn [decode]. unfold is_cont, between. decide_cmp. reflexivity.
Qed.

Lemma decode3 b1 b2 b3 rest :
  224 <= b1 <= 239 -> 128 <= b2 <= 191 -> 128 <= b3 <= 191 ->
  2048 <= (b1 - 224) * 4096 + (b2 - 128) * 64 + (b3 - 128) ->
  ~ (55296 <= (b1 - 224) * 4096 + (b2 - 128) * 64 + (b3 - 128) <= 57343) ->
  decode (b1 :: b2 :: b3 :: rest)
  = (s <- decode rest ;;
     Ok ((b1 - 224) * 4096 + (b2 - 128) * 64 + (b3 - 128) :: s)).
Proof.
  intros H1 H2 H3 H4 H5. cbn [decode]. unfold is_cont, between. cbv zeta.
  set (c := (b1 - 224) * 4096 + (b2 - 128) * 64 + (b3 - 128)) in *.
  decide_cmp. cbn [andb].
  replace ((55296 <=? c) && (c <=? 57343)) with false; [reflexivity|].
  symmetry. apply andb_false_iff. rewrite N.leb_gt, N.leb_gt. lia.
Qed.

Lemma decode4 b1 b2 b3 b4 rest :
  240 <= b1 <= 244 -> 128 <= b2 <= 191 -> 128 <= b3 <= 191 ->
  128 <= b4 <= 191 ->
  65536 <= (b1 - 240) * 262144 + (b2 - 128) * 4096 + (b3 - 128) * 64
           + (b4 - 128) < 1114112 ->
  decode (b1 :: b2 :: b3 :: b4 :: rest)
  = (s <- decode rest ;;
     Ok ((b1 - 240) * 262144 + (b2 - 128) * 4096 + (b3 - 128) * 64
         + (b4 - 128) :: s)).
Proof.
  intros H1 H2 H3 H4 H5. cbn [decode]. unfold is_cont, between. cbv zeta.
  set (c := (b1 - 240) * 262144 + (b2 - 128) * 4096 + (b3 - 128) * 64
            + (b4 - 128)) in *.
  decide_cmp. reflexivity.
Qed.

Lemma decode_encode_cp c bs rest :
  encode_cp c = Some bs ->
  decode (bs ++ rest) = (s <- decode rest ;; Ok (c :: s)).
Proof.
  unfold encode_cp, between.
  destruct (N.ltb_spec c 128).
  { intros E; replace bs with [c] by congruence. apply decode1; assumption. }
  destruct (N.ltb_spec c 2048).
  { intros E; replace bs with [192 + c / 64; 128 + c mod 64] by congruence.
    cbn [app]. rewrite decode2 by div_lia.
    replace ((192 + c / 64 - 192) * 64 + (128 + c mod 64 - 128)) with c by div_lia.
    reflexivity. }
  destruct (N.leb_spec 55296 c); destruct (N.leb_spec c 57343); cbn [andb];
    try discriminate.
  all: destruct (N.ltb_spec c 65536); try div_lia.
  all: try (intros E;
    replace bs with [224 + c / 4096; 128 + (c / 64) mod 64; 128 + c mod 64]
      by congruence;
    cbn [app]; rewrite decode3 by div_lia;
    replace ((224 + c / 4096 - 224) * 4096 + (128 + (c / 64) mod 64 - 128) * 64
             + (128 + c mod 64 - 128)) with c by div_lia; reflexivity).
  all: destruct (N.ltb_spec c 1114112); try discriminate.
  all: intros E;
    replace bs with [240 + c / 262144; 128 + (c / 4096) mod 64;
                     128 + (c / 64) mod 64; 128 + c mod 64] by congruence;
    cbn [app]; rewrite decode4 by div_lia;
    replace ((240 + c / 262144 - 240) * 262144
             + (128 + (c / 4096) mod 64 - 128) * 4096
             + (128 + (c / 64) mod 64 - 128) * 64 + (128 + c mod 64 - 128))
      with c by div_lia; reflexivity.
Qed.

Lemma decode_encode s b : encode s = Ok b -> decode b = Ok s.
Proof.
  revert b; induction s as [|c s IH]; intros b; simpl.
  - intros [= <-]; reflexivity.
  - destruct (encode_cp c) as [bs|] eqn:E; [|discriminate].
    destruct (encode s) as [r|]; simpl; [|discriminate].
    intros [= <-]. rewrite (@decode_encode_cp c bs r E), (IH r eq_refl). reflexivity.
Qed.

Local Close Scope N_scope.

(** *** [csv.reader] as one pass over the text *)

Import Csv.

Lemma toks_app a b : toks (a ++ b) = toks a ++ toks b.
Proof. apply flat_map_app. Qed.

Lemma Ok_inj {A} (a b : A) : Ok a = Ok b -> a = b.
Proof. congruence. Qed.

Lemma bind_ok {A B} (x : res A) (k : A -> res B) a :
  x = Ok a -> bind x k = k a.
Proof. intros ->; reflexivity. Qed.

(** The characters of a line complete no record. *)
Lemma run_line l r ts :
  run r (List.map Ch l ++ EOL :: ts)
  = (r' <- feed r (List.map Ch l ++ [EOL]) ;;
     match state r' with
     | START_RECORD =>
         p <- run parse_reset ts ;; Ok (fields r' :: fst p, snd p)
     | _ => run r' ts
     end).
Proof.
  revert r; induction l as [|c l IH]; intros r; cbn [List.map app run feed].
  - destruct (parse_process_char r EOL) as [r'|e]; cbn [bind]; reflexivity.
  - destruct (parse_process_char r (Ch c)) as [r'|e]; cbn [bind];
      [apply IH | reflexivity].
Qed.

Lemma read_records_run lines r :
  read_records r lines
  = (p <- run r (flat_map (fun l => List.map Ch l ++ [EOL]) lines) ;;
     Ok (fst p ++ last_record (snd p))).
Proof.
  revert r; induction lines as [|l lines IH]; intros r.
  - cbn. unfold last_record.
    destruct (state r), (field r); reflexivity.
  - cbn [read_records flat_map]. rewrite <- app_assoc. cbn [app].
    rewrite run_line.
    destruct (feed r (List.map Ch l ++ [EOL])) as [r'|e]; cbn [bind];
      [|reflexivity].
    destruct (state r'); try apply IH.
    rewrite IH.
    destruct (run parse_reset _) as [[recs rf]|e]; reflexivity.
Qed.

(** The lines of a text that ends with a line feed, put end to end with
    their end-of-line marks, are the stream of the text. *)
Lemma readlines_toks s cur :
  flat_map (fun l => List.map Ch l ++ [EOL]) (readlines_from cur (s ++ [LF]))
  = List.map Ch cur ++ toks (s ++ [LF]).
Proof.
  revert cur; induction s as [|c s IH]; intros cur.
  - cbn. rewrite app_nil_r, map_app, <- app_assoc. reflexivity.
  - cbn [app readlines_from toks flat_map].
    destruct (N.eqb_spec c LF) as [->|Hc].
    + cbn [flat_map]. fold (toks (s ++ [LF])). rewrite IH.
      rewrite map_app, <- !app_assoc. reflexivity.
    + fold (toks (s ++ [LF])). rewrite IH.
      rewrite map_app, <- !app_assoc. reflexivity.
Qed.

Lemma reader_rows_run s :
  reader_rows (s ++ [LF])
  = (p <- run parse_reset (toks (s ++ [LF])) ;;
     Ok (fst p ++ last_record (snd p))).
Proof.
  unfold reader_rows, readlines.
  rewrite read_records_run, readlines_toks. reflexivity.
Qed.

(** *** One field, written and read *)

Lemma add_char_fits st f fs c :
  fits (f ++ [c]) ->
  parse_add_char st (mkReader IN_FIELD f fs) c = Ok (mkReader st (f ++ [c]) fs)
  /\ forall st0, parse_add_char st (mkReader st0 f fs) c
                 = Ok (mkReader st (f ++ [c]) fs).
Proof.
  unfold fits, parse_add_char; cbn [field fields].
  rewrite length_app; cbn [List.length]. intros H.
  destruct (N.leb_spec field_limit (N.of_nat (List.length f))); [lia|].
  split; reflexivity.
Qed.

Lemma fits_app_l f s : fits (f ++ s) -> fits f.
Proof. unfold fits; rewrite length_app; lia. Qed.

Lemma fits_snoc f c s : fits (f ++ c :: s) -> fits (f ++ [c]).
Proof. unfold fits; rewrite !length_app; cbn [List.length]; lia. Qed.

Lemma plain_spec c :
  plain c = true ->
  N.eqb c delimiter = false /\ N.eqb c quotechar = false
  /\ N.eqb c LF = false /\ N.eqb c CR = false.
Proof.
  unfold plain. rewrite negb_true_iff, !orb_false_iff. tauto.
Qed.

Lemma run_plain s f fs ts :
  forallb plain s = true -> fits (f ++ s) ->
  run (mkReader IN_FIELD f fs) (toks s ++ ts)
  = run (mkReader IN_FIELD (f ++ s) fs) ts.
Proof.
  revert f; induction s as [|c s IH]; intros f Hp Hf.
  - rewrite app_nil_r; reflexivity.
  - cbn [forallb] in Hp. apply andb_true_iff in Hp as [Hc Hs].
    destruct (plain_spec _ Hc) as (Hd & Hq & Hl & Hr).
    cbn [toks flat_map]. rewrite Hl. fold (toks s). cbn [app run].
    unfold parse_process_char; cbn [state is_nl]. rewrite Hl, Hr, Hd.
    cbn [orb].
    rewrite (proj1 (add_char_fits IN_FIELD f fs c (fits_snoc _ _ _ Hf))).
    cbn [bind state]. rewrite IH; auto.
    + rewrite <- app_assoc; reflexivity.
    + rewrite <- app_assoc; exact Hf.
Qed.

Lemma run_quoted s f fs ts :
  fits (f ++ s) ->
  run (mkReader IN_QUOTED_FIELD f fs) (toks (double_quotes s) ++ ts)
  = run (mkReader IN_QUOTED_FIELD (f ++ s) fs) ts.
Proof.
  revert f; induction s as [|c s IH]; intros f Hf.
  - rewrite app_nil_r; reflexivity.
  - pose proof (proj2 (add_char_fits IN_QUOTED_FIELD f fs c
                                      (fits_snoc _ _ _ Hf))) as Hadd.
    assert (Hnext :
              run (mkReader IN_QUOTED_FIELD (f ++ [c]) fs)
                  (toks (double_quotes s) ++ ts)
              = run (mkReader IN_QUOTED_FIELD (f ++ c :: s) fs) ts).
    { rewrite IH; rewrite <- app_assoc; [reflexivity | exact Hf]. }
    unfold double_quotes; cbn [flat_map]. fold (double_quotes s).
    destruct (N.eqb_spec c quotechar) as [->|Hq].
    + rewrite toks_app, <- app_assoc. cbn [toks flat_map app].
      change (N.eqb quotechar LF) with false. cbn [app run].
      unfold parse_process_char at 1; cbn [state].
      rewrite N.eqb_refl. unfold goto. cbn [bind state field fields].
      unfold parse_process_char at 1; cbn [state].
      rewrite N.eqb_refl, Hadd. cbn [bind state]. exact Hnext.
    + rewrite toks_app, <- app_assoc. cbn [toks flat_map].
      apply N.eqb_neq in Hq.
      destruct (N.eqb_spec c LF) as [->|Hl]; cbn [app run];
        unfold parse_process_char at 1; cbn [state]; rewrite Hq, Hadd;
        cbn [bind state].
      * unfold parse_process_char at 1; cbn [state bind]. exact Hnext.
      * exact Hnext.
Qed.

(** A delimiter closes the field. *)
Lemma close_delim st f fs ts :
  after_field st f ->
  run (mkReader st f fs) (Ch delimiter :: ts)
  = run (mkReader START_FIELD [] (fs ++ [f])) ts.
Proof.
  destruct st; cbn [after_field]; intros H; try contradiction; subst;
    reflexivity.
Qed.

(** A line feed closes the field and the record. *)
Lemma close_line st f fs ts :
  after_field st f -> st <> START_RECORD ->
  run (mkReader st f fs) (Ch LF :: EOL :: ts)
  = (p <- run parse_reset ts ;; Ok ((fs ++ [f]) :: fst p, snd p)).
Proof.
  destruct st; cbn [after_field]; intros H Hs; try contradiction; subst;
    try congruence; reflexivity.
Qed.

Lemma unquoted_plain f :
  needs_quote lineterminator f = false -> existsb (N.eqb CR) f = false ->
  forallb plain f = true.
Proof.
  unfold needs_quote, lineterminator.
  induction f as [|c f IH]; cbn [existsb forallb]; auto.
  rewrite !orb_false_iff. intros [[[Hd Hq] [Hl _]] Hn] [Hr Hc].
  rewrite IH by assumption. unfold plain.
  rewrite Hd, Hq, Hl, (N.eqb_sym c CR), Hr. reflexivity.
Qed.

Lemma field_ok_fits f : field_ok f = true -> fits f.
Proof.
  unfold field_ok, fits. rewrite andb_true_iff, N.leb_le. tauto.
Qed.

(** The text of a field, as the writer puts it, read from the start of a
    record or of a field. *)
Lemma run_field f st fs :
  st = START_RECORD \/ st = START_FIELD -> field_ok f = true ->
  exists st',
    after_field st' f /\ (st' = START_RECORD -> st = START_RECORD)
    /\ forall ts,
         run (mkReader st [] fs) (toks (join_append lineterminator f) ++ ts)
         = run (mkReader st' f fs) ts.
Proof.
  intros Hst Hok. pose proof (field_ok_fits _ Hok) as Hfit.
  unfold field_ok in Hok. apply andb_true_iff in Hok as [_ Hok].
  unfold join_append.
  destruct (needs_quote lineterminator f) eqn:Hq.
  - exists QUOTE_IN_QUOTED_FIELD. split; [exact I|]. split; [discriminate|].
    intros ts.
    change (quotechar :: double_quotes f ++ [quotechar])
      with ([quotechar] ++ double_quotes f ++ [quotechar]).
    rewrite !toks_app, <- !app_assoc.
    transitivity (run (mkReader IN_QUOTED_FIELD [] fs)
                      (toks (double_quotes f) ++ toks [quotechar] ++ ts)).
    { destruct Hst as [-> | ->]; reflexivity. }
    rewrite run_quoted by exact Hfit. reflexivity.
  - cbn [orb] in Hok. apply negb_true_iff in Hok.
    pose proof (unquoted_plain _ Hq Hok) as Hp.
    destruct f as [|c f].
    + exists st. split; [destruct Hst as [-> | ->]; reflexivity|].
      split; [auto | reflexivity].
    + exists IN_FIELD. split; [discriminate|]. split; [discriminate|].
      intros ts.
      cbn [forallb] in Hp. apply andb_true_iff in Hp as [Hc Hp].
      destruct (plain_spec _ Hc) as (Hd & Hqc & Hl & Hr).
      change (c :: f) with ([c] ++ f) at 1.
      rewrite toks_app, <- app_assoc.
      transitivity (run (mkReader IN_FIELD [c] fs) (toks f ++ ts)).
      * cbn [toks flat_map app]. rewrite Hl. cbn [app run].
        assert (Hsf : start_field (mkReader st [] fs) (Ch c)
                      = Ok (mkReader IN_FIELD [c] fs)).
        { unfold start_field. cbn [is_nl]. rewrite Hl, Hr, Hqc, Hd.
          cbn [orb].
          apply (proj2 (add_char_fits IN_FIELD [] fs c
                                      (fits_app_l [c] f Hfit))). }
        destruct Hst as [-> | ->]; unfold parse_process_char;
          cbn [state is_nl]; rewrite ?Hl, ?Hr; cbn [orb]; rewrite Hsf;
          reflexivity.
      * rewrite run_plain; auto.
Qed.

Lemma writerow3 a b c :
  writerow lineterminator [a; b; c]
  = join_append lineterminator a ++ [delimiter]
    ++ join_append lineterminator b ++ [delimiter]
    ++ join_append lineterminator c ++ [LF].
Proof.
  unfold writerow, lineterminator.
  destruct a; cbn [List.map join app]; rewrite <- ?app_assoc;
    cbn [app]; rewrite <- ?app_assoc; reflexivity.
Qed.

(** A written line of three fields is read as the record of the three. *)
Lemma run_row a b c ts :
  field_ok a = true -> field_ok b = true -> field_ok c = true ->
  run parse_reset (toks (writerow lineterminator [a; b; c]) ++ ts)
  = (p <- run parse_reset ts ;; Ok ([a; b; c] :: fst p, snd p)).
Proof.
  intros Ha Hb Hc. rewrite writerow3, !toks_app, <- !app_assoc.
  change (toks [delimiter]) with [Ch delimiter].
  change (toks [LF]) with [Ch LF; EOL]. cbn [app].
  destruct (@run_field a START_RECORD [] (or_introl eq_refl) Ha)
    as (s1 & A1 & _ & E1).
  destruct (@run_field b START_FIELD [a] (or_intror eq_refl) Hb)
    as (s2 & A2 & _ & E2).
  destruct (@run_field c START_FIELD [a; b] (or_intror eq_refl) Hc)
    as (s3 & A3 & S3 & E3).
  unfold parse_reset at 1.
  rewrite E1, (@close_delim _ _ _ _ A1). cbn [app].
  rewrite E2, (@close_delim _ _ _ _ A2). cbn [app].
  rewrite E3, (@close_line _ _ _ _ A3); [reflexivity|].
  intros H; specialize (S3 H); discriminate.
Qed.

(** *** The exported text, read again *)

Section Reparse.

Variable number_str : list pyval -> pyval -> res str.

Lemma text_ok_fields r :
  text_ok r = true ->
  exists k n,
    kategori r = Some k /\ nama r = Some n
    /\ stripped k = true /\ stripped n = true
    /\ field_ok k = true /\ field_ok n = true.
Proof.
  unfold text_ok. destruct (kategori r) as [k|]; [|discriminate].
  destruct (nama r) as [n|]; [|discriminate].
  rewrite !andb_true_iff. intros [[[? ?] ?] ?]. exists k, n; auto 10.
Qed.

Lemma to_csv_rows_run col rows body :
  Forall (fun r => text_ok r = true) rows ->
  (forall r p, In r rows -> cell_str number_str col (harga r) = Ok p ->
               field_ok p = true) ->
  to_csv_rows number_str col rows = Ok body ->
  exists recs,
    Forall2 reads_as rows recs
    /\ (rows = [] /\ body = [] \/ exists s0, body = s0 ++ [LF])
    /\ forall ts,
         run parse_reset (toks body ++ ts)
         = (p <- run parse_reset ts ;; Ok (recs ++ fst p, snd p)).
Proof.
  revert body; induction rows as [|r rows IH]; intros body Hok Hprice.
  - intros [= <-]. exists []. split; [constructor|]. split; [auto|].
    intros ts; cbn [toks flat_map app].
    destruct (run parse_reset ts) as [[a b]|e]; reflexivity.
  - cbn [to_csv_rows]. unfold record_strs.
    destruct (cell_str number_str col (harga r)) as [p|e] eqn:Ep;
      [|discriminate].
    cbn [bind].
    destruct (to_csv_rows number_str col rows) as [t|e] eqn:Et;
      [|discriminate].
    cbn [bind]. intros Hb; apply Ok_inj in Hb; subst body.
    inversion Hok as [|r0 rows0 Hr Hrows]; subst.
    destruct (text_ok_fields _ Hr) as (k & n & Ek & En & _ & _ & Fk & Fn).
    rewrite Ek, En; cbn [text_cell].
    assert (Fp : field_ok p = true) by (apply (Hprice r); [left|]; auto).
    destruct (IH t Hrows) as (recs & Hrecs & Hend & Hrun); auto.
    { intros r' p' Hin; apply Hprice; right; exact Hin. }
    exists ([k; n; p] :: recs). split; [|split].
    + constructor; auto. exists p. rewrite Ek, En; reflexivity.
    + right. destruct Hend as [[_ ->] | [s0 ->]].
      * rewrite app_nil_r, writerow3.
        eexists. rewrite !app_assoc. reflexivity.
      * exists (writerow lineterminator [k; n; p] ++ s0).
        rewrite app_assoc; reflexivity.
    + intros ts. rewrite toks_app, <- app_assoc, run_row by assumption.
      rewrite Hrun.
      destruct (run parse_reset ts) as [[a b]|e]; reflexivity.
Qed.

Lemma or_str_nil (s : str) : or_str (Some s) [] = s.
Proof. destruct s; reflexivity. Qed.

Lemma stripped_eq s : stripped s = true -> strip s = s.
Proof. apply str_eqb_eq. Qed.

(** A record under the header of the frame becomes the row of its first two
    fields. *)
Lemma load_row_pair k n p :
  stripped k = true -> stripped n = true ->
  pair_of (load_row (dict_row [lit "kategori"; lit "nama"; lit "harga"]
                              [k; n; p]))
  = (Some k, Some n).
Proof.
  intros Hk Hn.
  change (dict_row [lit "kategori"; lit "nama"; lit "harga"] [k; n; p])
    with [(lit "kategori", Some k); (lit "nama", Some n);
          (lit "harga", Some p)].
  unfold pair_of, load_row; cbn [kategori nama].
  change (row_get _ "kategori") with (Some k).
  change (row_get _ "nama") with (Some n).
  rewrite !or_str_nil, (stripped_eq _ Hk), (stripped_eq _ Hn). reflexivity.
Qed.

Lemma reads_as_pairs rows recs :
  Forall (fun r => text_ok r = true) rows -> Forall2 reads_as rows recs ->
  filter (fun rec => negb (is_empty rec)) recs = recs
  /\ List.map pair_of
       (List.map load_row
          (List.map (dict_row [lit "kategori"; lit "nama"; lit "harga"]) recs))
     = List.map pair_of rows.
Proof.
  intros Hok H; induction H as [|r rec rows recs [p ->] _ IH].
  - split; reflexivity.
  - inversion Hok as [|r0 rows0 Hr Hrows]; subst.
    destruct (IH Hrows) as [IH1 IH2].
    destruct (text_ok_fields _ Hr) as (k & n & Ek & En & Sk & Sn & _ & _).
    rewrite Ek, En; cbn [text_cell]. split.
    + cbn [filter is_empty negb]. rewrite IH1; reflexivity.
    + cbn [List.map]. rewrite IH2, (@load_row_pair k n p Sk Sn).
      unfold pair_of at 2. rewrite Ek, En; reflexivity.
Qed.

End Reparse.

Lemma header_ok :
  field_ok (lit "kategori") = true /\ field_ok (lit "nama") = true
  /\ field_ok (lit "harga") = true.
Proof. vm_compute; auto. Qed.

(** The reader's records of an exported frame with at least one row: the
    header, then one record for each row. *)
Lemma reader_rows_export recs body :
  (exists s0, body = s0 ++ [LF]) ->
  (forall ts,
     run parse_reset (toks body ++ ts)
     = (p <- run parse_reset ts ;; Ok (recs ++ fst p, snd p))) ->
  reader_rows
    (writerow lineterminator [lit "kategori"; lit "nama"; lit "harga"] ++ body)
  = Ok ([lit "kategori"; lit "nama"; lit "harga"] :: recs).
Proof.
  intros [s0 Hs0] Hrun.
  set (hdr := writerow lineterminator [lit "kategori"; lit "nama"; lit "harga"]).
  assert (E : hdr ++ body = (hdr ++ s0) ++ [LF])
    by (rewrite Hs0, app_assoc; reflexivity).
  rewrite E, reader_rows_run, <- E, toks_app.
  destruct header_ok as (H1 & H2 & H3).
  unfold hdr. rewrite (@run_row _ _ _ _ H1 H2 H3).
  rewrite <- (app_nil_r (toks body)), Hrun. cbn [run bind fst snd].
  unfold last_record, parse_reset; cbn [state field].
  rewrite !app_nil_r. reflexivity.
Qed.

(** C9 (as amended): when category and name of every row are strings with
    no white space at their ends, and every exported field is within the
    field size limit and holds no carriage return that the writer leaves
    unquoted, then the bytes of the CSV export, uploaded to the parser
    again, give rows with the same categories and names in the same order,
    however the price column is printed. *)
Theorem C9_export_reparse number_str rows b :
  Forall (fun r => text_ok r = true) rows ->
  (forall r p, In r rows ->
     cell_str number_str (List.map harga rows) (harga r) = Ok p ->
     field_ok p = true) ->
  convert_df_to_csv number_str rows = Ok b ->
  exists rows',
    load_csv (Upload b) = Ok rows'
    /\ List.map pair_of rows' = List.map pair_of rows.
Proof.
  intros Hok Hprice. unfold convert_df_to_csv.
  destruct (to_csv number_str rows) as [text|e] eqn:Et; [|discriminate].
  cbn [bind]. intros Henc. apply decode_encode in Henc.
  unfold load_csv. rewrite Henc. cbn [bind].
  unfold to_csv in Et.
  destruct (to_csv_rows number_str (List.map harga rows) rows)
    as [body|e] eqn:Eb; [|discriminate].
  cbn [bind] in Et. apply Ok_inj in Et. subst text.
  destruct rows as [|r rows].
  - apply Ok_inj in Eb; subst body. exists []. split; reflexivity.
  - destruct (@to_csv_rows_run _ _ _ _ Hok Hprice Eb)
      as (recs & Hrecs & Hend & Hrun).
    destruct Hend as [[Hnil _] | Hend]; [discriminate|].
    unfold columns; cbn [is_empty]. unfold DictReader.
    rewrite (@reader_rows_export _ _ Hend Hrun). cbn [bind].
    destruct (@reads_as_pairs _ _ Hok Hrecs) as [Hf Hp].
    rewrite Hf. eexists; split; [reflexivity | exact Hp].
Qed.

Lemma C9_export_reparse_witness :
  exists rows',
    load_csv (Upload (exported (quoted_row :: sample_rows))) = Ok rows'
    /\ List.map pair_of rows' = List.map pair_of (quoted_row :: sample_rows).
Proof.
  apply (@C9_export_reparse str_number (quoted_row :: sample_rows)
           (exported (quoted_row :: sample_rows))).
  - repeat constructor.
  - intros r p Hin H.
    repeat (destruct Hin as [<- | Hin];
            [vm_compute in H; apply Ok_inj in H; subst p;
             vm_compute; reflexivity|]).
    destruct Hin.
  - vm_compute; reflexivity.
Defined.

(** C9, as the specification words it, fails: the parser trims the white
    space that a category or a name carries at its ends. *)
Lemma C9_padding_lost :
  exists b rows',
    convert_df_to_csv str_number [padded_row] = Ok b
    /\ load_csv (Upload b) = Ok rows'
    /\ List.map pair_of rows' = [(Some (lit "Makanan"), Some (lit "Es Teh"))]
    /\ List.map pair_of rows' <> List.map pair_of [padded_row].
Proof.
  exists (exported [padded_row]).
  exists [mkRow (Some (lit "Makanan")) (Some (lit "Es Teh")) (PyInt 5000)].
  split; [vm_compute; reflexivity|].
  split; [vm_compute; reflexivity|].
  split; [reflexivity|].
  vm_compute; discriminate.
Qed.

(** *** Binary64 rounding *)

Local Open Scope Z_scope.

(** The exponent that binary64 gives a number of magnitude [e]. *)
Lemma fexp_eq e : fexp prec emax e = Z.max (e - 53) emin64.
Proof. reflexivity. Qed.

(** The number of bits of a mantissa. *)
Lemma digits2_bounds m :
  2 ^ (Zpos (digits2_pos m) - 1) <= Zpos m < 2 ^ Zpos (digits2_pos m).
Proof.
  induction m as [p IH|p IH|]; cbn [digits2_pos].
  - rewrite Pos2Z.inj_succ.
    replace (Z.succ (Zpos (digits2_pos p)) - 1)
      with (Z.succ (Zpos (digits2_pos p) - 1)) by lia.
    rewrite !Z.pow_succ_r by lia. lia.
  - rewrite Pos2Z.inj_succ.
    replace (Z.succ (Zpos (digits2_pos p)) - 1)
      with (Z.succ (Zpos (digits2_pos p) - 1)) by lia.
    rewrite !Z.pow_succ_r by lia. lia.
  - cbn. lia.
Qed.

Lemma digits2_unique m k :
  2 ^ (k - 1) <= Zpos m < 2 ^ k -> Zpos (digits2_pos m) = k.
Proof.
  intros [Hlo Hhi]. pose proof (digits2_bounds m) as [Dlo Dhi].
  set (d := Zpos (digits2_pos m)) in *.
  assert (Hd : 0 < d) by (unfold d; lia).
  destruct (Z.lt_trichotomy d k) as [H|[H|H]]; auto; exfalso.
  - assert (2 ^ d <= 2 ^ (k - 1)) by (apply Z.pow_le_mono_r; lia). lia.
  - assert (0 <= k \/ k < 0) as [Hk|Hk] by lia.
    + assert (2 ^ k <= 2 ^ (d - 1)) by (apply Z.pow_le_mono_r; lia). lia.
    + rewrite (Z.pow_neg_r 2 k) in Hhi by lia. lia.
Qed.

Section IterIdx.
Variables (A : Type) (f : A -> A) (P : Z -> A -> Prop).
Hypothesis Pf : forall k x, P k x -> P (k + 1) (f x).
Lemma iter_pos_idx (p : positive) k x : P k x -> P (k + Zpos p) (iter_pos f p x).
Proof.
  revert k x; induction p as [p IH|p IH|]; intros k x Hx; cbn [iter_pos].
  - replace (k + Zpos p~1) with (k + 1 + Zpos p + Zpos p) by lia.
    apply IH, IH, Pf, Hx.
  - replace (k + Zpos p~0) with (k + Zpos p + Zpos p) by lia.
    apply IH, IH, Hx.
  - apply Pf, Hx.
Qed.
End IterIdx.

(** One more bit shifted out. *)
Lemma shr_1_inv M k mrs : 0 <= k -> shr_inv M k mrs -> shr_inv M (k + 1) (shr_1 mrs).
Proof.
  intros Hk (rest & Hrest & HM & Hs & Hm).
  destruct mrs as [m r s]; cbn [shr_m shr_r shr_s] in *.
  assert (Hp : 0 < 2 ^ k) by (apply Z.pow_pos_nonneg; lia).
  exists ((if r then 2 ^ k else 0) + rest).
  rewrite !Z.pow_add_r in * by lia. change (2 ^ 1) with 2 in *.
  assert (Hs' : (r || s)%bool = true <-> 0 < (if r then 2 ^ k else 0) + rest).
  { rewrite orb_true_iff, Hs. destruct r; split.
    - intros _; lia.
    - intros _; left; reflexivity.
    - intros [H|H]; [discriminate | lia].
    - intros H; right; lia. }
  destruct m as [|[p|p|]|p]; cbn [shr_1 shr_m shr_r shr_s]; try lia;
    (split; [destruct r; lia|]); (split; [|split; [exact Hs'|lia]]).
  all: destruct r; lia.
Qed.

(** A right shift by [q] bits keeps the quotient by [2^q] and records
    where the remainder lies. *)
Lemma shr_shift M (q : positive) :
  0 <= M -> shr_inv M (Zpos q) (iter_pos shr_1 q (Build_shr_record M false false)).
Proof.
  intros HM.
  assert (H : 0 <= 0 + Zpos q
              /\ shr_inv M (0 + Zpos q)
                   (iter_pos shr_1 q (Build_shr_record M false false))).
  { apply (@iter_pos_idx _ shr_1 (fun k x => 0 <= k /\ shr_inv M k x)).
    - intros k x [Hk Hx]; split; [lia | apply shr_1_inv; assumption].
    - split; [lia|]. exists 0. cbn [shr_m shr_r shr_s].
      split; [cbn; lia|]. split; [lia|].
      split; [split; [discriminate | lia] | lia]. }
  exact (proj2 H).
Qed.

(** Rounding to nearest, ties to even, after a shift by [n] bits: the
    mantissa chosen is off by at most half a unit. *)
Lemma round_half M n mrs :
  0 < n -> shr_inv M n mrs ->
  let m1 := round_nearest_even (shr_m mrs) (loc_of_shr_record mrs) in
  shr_m mrs <= m1 <= shr_m mrs + 1
  /\ 2 * Z.abs (m1 * 2 ^ n - M) <= 2 ^ n
  /\ shr_m mrs * 2 ^ n <= M < (shr_m mrs + 1) * 2 ^ n.
Proof.
  intros Hn (rest & Hrest & HM & Hs & Hm).
  destruct mrs as [m r s]; cbn [shr_m shr_r shr_s] in *.
  assert (Hp : 0 < 2 ^ n) by (apply Z.pow_pos_nonneg; lia).
  rewrite Z.pow_add_r in HM by lia. change (2 ^ 1) with 2 in HM.
  assert (Hs0 : s = false -> rest = 0).
  { intros ->. destruct Hs as [_ Hs]. destruct (Z.eq_dec rest 0); auto.
    assert (false = true) by (apply Hs; lia). discriminate. }
  assert (Hs1 : s = true -> 0 < rest) by (intros ->; apply Hs; reflexivity).
  destruct r, s; cbn [loc_of_shr_record round_nearest_even];
    try specialize (Hs0 eq_refl); try specialize (Hs1 eq_refl).
  - repeat split; try lia.
  - destruct (Z.even m); repeat split; try lia.
  - repeat split; try lia.
  - repeat split; try lia.
Qed.

Lemma shr_fexp_0 m e :
  fexp prec emax (Zdigits2 m + e) - e = 0 ->
  shr_fexp prec emax m e loc_Exact = (Build_shr_record m false false, e).
Proof. unfold shr_fexp; intros ->; reflexivity. Qed.

Lemma shr_fexp_pos m e q :
  fexp prec emax (Zdigits2 m + e) - e = Zpos q ->
  shr_fexp prec emax m e loc_Exact
  = (iter_pos shr_1 q (Build_shr_record m false false), e + Zpos q).
Proof. unfold shr_fexp; intros ->; reflexivity. Qed.

(** A mantissa already at its exponent is kept as it is. *)
Lemma bra_exact p E :
  fexp prec emax (Zpos (digits2_pos p) + E) - E = 0 ->
  binary_round_aux prec emax false (Zpos p) E loc_Exact = finite_or_inf p E.
Proof.
  intros H. unfold binary_round_aux.
  rewrite (shr_fexp_0 (Zpos p) E H).
  cbn [shr_m loc_of_shr_record round_nearest_even].
  rewrite (shr_fexp_0 (Zpos p) E H). reflexivity.
Qed.

Lemma finite_or_inf_rounds V m e :
  emin64 <= e -> U * Z.abs (Zpos m * 2 ^ (e - emin64) - V) <= V ->
  rounds_to V (finite_or_inf m e).
Proof.
  intros He HV. unfold finite_or_inf, rounds_to.
  destruct (e <=? emax - prec); [right; exists m, e; auto | left; reflexivity].
Qed.

(** A mantissa of [q] bits too many, at an exponent of binary64: the
    rounded float is off by at most the [2^-53]th part of the value. *)
Lemma bra_round p E q :
  emin64 <= E ->
  fexp prec emax (Zpos (digits2_pos p) + E) - E = Zpos q ->
  rounds_to (Zpos p * 2 ^ (E - emin64))
            (binary_round_aux prec emax false (Zpos p) E loc_Exact).
Proof.
  intros HE Hn. unfold binary_round_aux.
  rewrite (shr_fexp_pos (Zpos p) E Hn).
  pose proof (digits2_bounds p) as [Dlo Dhi].
  cbn [Zdigits2] in Hn. rewrite fexp_eq in Hn.
  set (d := Zpos (digits2_pos p)) in *.
  assert (Hd : d = 53 + Zpos q) by lia.
  assert (Hsh := @shr_shift (Zpos p) q ltac:(lia)).
  set (mrs := iter_pos shr_1 q (Build_shr_record (Zpos p) false false)) in *.
  destruct (@round_half (Zpos p) (Zpos q) mrs ltac:(lia) Hsh) as (Hm1 & Herr & Hfl).
  set (m1 := round_nearest_even (shr_m mrs) (loc_of_shr_record mrs)) in *.
  set (Q := 2 ^ Zpos q) in *.
  assert (HQ : 0 < Q) by (apply Z.pow_pos_nonneg; lia).
  assert (HloQ : 2 ^ 52 * Q <= Zpos p).
  { unfold Q. rewrite <- Z.pow_add_r by lia.
    replace (52 + Zpos q) with (d - 1) by lia. exact Dlo. }
  assert (HhiQ : Zpos p < 2 ^ 53 * Q).
  { unfold Q. rewrite <- Z.pow_add_r by lia.
    replace (53 + Zpos q) with d by lia. exact Dhi. }
  assert (Hm0 : 2 ^ 52 <= shr_m mrs < 2 ^ 53) by nia.
  set (W := 2 ^ (E - emin64)).
  assert (HW : 0 < W) by (apply Z.pow_pos_nonneg; lia).
  assert (Hval : forall x, x * 2 ^ (E + Zpos q - emin64) = x * Q * W).
  { intros x. replace (E + Zpos q - emin64) with (Zpos q + (E - emin64)) by lia.
    rewrite Z.pow_add_r by lia. unfold Q, W. ring. }
  assert (Hbound : U * Z.abs (m1 * Q * W - Zpos p * W) <= Zpos p * W).
  { replace (m1 * Q * W - Zpos p * W) with ((m1 * Q - Zpos p) * W) by ring.
    rewrite Z.abs_mul, (Z.abs_eq W) by lia.
    change U with (2 ^ 52 * 2).
    assert (2 ^ 52 * 2 * Z.abs (m1 * Q - Zpos p) <= 2 ^ 52 * Q) by lia.
    nia. }
  assert (Hcase : m1 < 2 ^ 53 \/ m1 = 2 ^ 53) by lia.
  destruct Hcase as [Hlt | Heq].
  - destruct m1 as [|p1|p1] eqn:Em1; try lia.
    assert (Hd1 : Zpos (digits2_pos p1) = 53)
      by (apply digits2_unique; change (53 - 1) with 52; lia).
    assert (H0 : fexp prec emax (Zdigits2 (Zpos p1) + (E + Zpos q))
                 - (E + Zpos q) = 0).
    { cbn [Zdigits2]. rewrite Hd1, fexp_eq. lia. }
    rewrite (shr_fexp_0 _ _ H0). cbn [shr_m].
    apply finite_or_inf_rounds; [lia|]. rewrite Hval. exact Hbound.
  - rewrite Heq.
    assert (H1 : fexp prec emax (Zdigits2 (2 ^ 53) + (E + Zpos q))
                 - (E + Zpos q) = 1).
    { change (Zdigits2 (2 ^ 53)) with 54. rewrite fexp_eq. lia. }
    rewrite (shr_fexp_pos _ _ H1).
    change (iter_pos shr_1 1 (Build_shr_record (2 ^ 53) false false))
      with (Build_shr_record (2 ^ 52) false false).
    cbn [shr_m]. change (2 ^ 52) with (Zpos (2 ^ 52)) at 1.
    cbv iota beta.
    apply finite_or_inf_rounds; [lia|].
    replace (E + Zpos q + 1 - emin64) with (1 + (E + Zpos q - emin64)) by lia.
    rewrite Z.pow_add_r by lia. change (2 ^ 1) with 2.
    replace (Zpos (2 ^ 52) * (2 * 2 ^ (E + Zpos q - emin64)))
      with (2 ^ 53 * 2 ^ (E + Zpos q - emin64))
      by (change (Zpos (2 ^ 52)) with (2 ^ 52); change (2 ^ 53) with (2 ^ 52 * 2); ring).
    rewrite Hval, <- Heq. exact Hbound.
Qed.

Lemma pos_iter_xO m d : Zpos (Pos.iter xO m d) = Zpos m * 2 ^ Zpos d.
Proof.
  apply (@Pos.iter_ind positive xO m (fun p x => Zpos x = Zpos m * 2 ^ Zpos p)).
  - change (2 ^ 1) with 2. lia.
  - intros p a Ha. rewrite Pos2Z.inj_succ, Z.pow_succ_r by lia. lia.
Qed.

(** Rounding a positive mantissa at an exponent of binary64. *)
Lemma binary_round_rounds m e :
  emin64 <= e ->
  rounds_to (Zpos m * 2 ^ (e - emin64)) (binary_round prec emax false m e).
Proof.
  intros He. unfold binary_round, shl_align.
  set (F := fexp prec emax (Zpos (digits2_pos m) + e)).
  assert (HW : 0 < 2 ^ (e - emin64)) by (apply Z.pow_pos_nonneg; lia).
  destruct (F - e) as [|q|dd] eqn:Hn.
  - rewrite (bra_exact m e Hn). apply finite_or_inf_rounds; [lia|].
    rewrite Z.sub_diag. change (Z.abs 0) with 0. rewrite Z.mul_0_r. nia.
  - exact (@bra_round m e q He Hn).
  - pose proof (pos_iter_xO m dd) as Hmz.
    set (mz := Pos.iter xO m dd) in *.
    assert (HF : emin64 <= F) by (unfold F; rewrite fexp_eq; lia).
    assert (Hdz : Zpos (digits2_pos mz) = Zpos (digits2_pos m) + Zpos dd).
    { apply digits2_unique. pose proof (digits2_bounds m) as [Dlo Dhi].
      rewrite Hmz.
      replace (Zpos (digits2_pos m) + Zpos dd - 1)
        with ((Zpos (digits2_pos m) - 1) + Zpos dd) by lia.
      rewrite !Z.pow_add_r by lia.
      assert (0 < 2 ^ Zpos dd) by (apply Z.pow_pos_nonneg; lia). nia. }
    assert (H0 : fexp prec emax (Zpos (digits2_pos mz) + F) - F = 0).
    { rewrite Hdz.
      replace (Zpos (digits2_pos m) + Zpos dd + F)
        with (Zpos (digits2_pos m) + e) by lia.
      fold F. lia. }
    rewrite (bra_exact mz F H0). apply finite_or_inf_rounds; [lia|].
    rewrite Hmz.
    replace (e - emin64) with (Zpos dd + (F - emin64)) by lia.
    rewrite Z.pow_add_r by lia.
    replace (Zpos m * 2 ^ Zpos dd * 2 ^ (F - emin64)
             - Zpos m * (2 ^ Zpos dd * 2 ^ (F - emin64))) with 0 by ring.
    change (Z.abs 0) with 0. rewrite Z.mul_0_r.
    assert (0 < 2 ^ Zpos dd) by (apply Z.pow_pos_nonneg; lia).
    assert (0 < 2 ^ (F - emin64)) by (apply Z.pow_pos_nonneg; lia). nia.
Qed.

(** Aligning a mantissa to a lower exponent keeps the value. *)
Lemma shl_align_val mx ex ez :
  ez <= ex -> Zpos (fst (shl_align mx ex ez)) = Zpos mx * 2 ^ (ex - ez).
Proof.
  intros H. unfold shl_align. destruct (ez - ex) as [|q|q] eqn:E; cbn [fst].
  - replace (ex - ez) with 0 by lia. cbn; lia.
  - lia.
  - rewrite pos_iter_xO. replace (ex - ez) with (Zpos q) by lia. reflexivity.
Qed.

Lemma nonneg_ulps x : nonneg x -> 0 <= ulps x.
Proof.
  unfold nonneg. destruct x as [s|s| |[|] m e]; intros H;
    try discriminate H; cbn [ulps cond_Zopp]; lia.
Qed.

(** Binary64 addition of two numbers that are not negative: the result is
    off the exact sum by at most its [2^-53]th part, unless it is infinite. *)
Lemma fadd_error x y :
  nonneg x -> nonneg y -> on_grid x -> on_grid y ->
  on_grid (fadd x y)
  /\ (is_finite (fadd x y) = true ->
      is_finite x = true /\ is_finite y = true
      /\ U * Z.abs (ulps (fadd x y) - (ulps x + ulps y)) <= ulps x + ulps y).
Proof.
  intros Nx Ny Gx Gy.
  pose proof (nonneg_ulps Nx) as Ux. pose proof (nonneg_ulps Ny) as Uy.
  unfold nonneg in Nx, Ny.
  assert (Hsame : forall v, 0 <= v -> U * Z.abs (v - v) <= v)
    by (intros v Hv; rewrite Z.sub_diag; change (Z.abs 0) with 0; lia).
  destruct x as [[|]|[|]| |[|] mx ex]; try discriminate Nx;
    destruct y as [[|]|[|]| |[|] my ey]; try discriminate Ny;
    try (split; [exact I | discriminate]);
    try (cbn [fadd SFadd is_finite on_grid ulps] in *; split; [auto|];
         intros _; split; [reflexivity|]; split; [reflexivity|];
         rewrite ?Z.add_0_l, ?Z.add_0_r; apply Hsame; cbn in *; lia).
  cbn [on_grid] in Gx, Gy. unfold fadd, SFadd. cbv zeta. cbn [cond_Zopp].
  set (ez := Z.min ex ey).
  rewrite <- (Pos2Z.inj_add). cbn [binary_normalize].
  assert (Hz : emin64 <= ez) by (unfold ez; lia).
  pose proof (binary_round_rounds
                (fst (shl_align mx ex ez) + fst (shl_align my ey ez)) Hz) as H.
  rewrite Pos2Z.inj_add, !shl_align_val in H by (unfold ez; lia).
  assert (HV : (Zpos mx * 2 ^ (ex - ez) + Zpos my * 2 ^ (ey - ez))
               * 2 ^ (ez - emin64)
               = ulps (S754_finite false mx ex) + ulps (S754_finite false my ey)).
  { cbn [ulps cond_Zopp].
    replace (ex - emin64) with ((ex - ez) + (ez - emin64)) by lia.
    replace (ey - emin64) with ((ey - ez) + (ez - emin64)) by lia.
    rewrite !Z.pow_add_r by (unfold ez; lia). ring. }
  rewrite HV in H.
  destruct H as [-> | (m & e & -> & He & Herr)].
  - split; [exact I | discriminate].
  - split; [exact He|]. intros _. split; [reflexivity|].
    split; [reflexivity | exact Herr].
Qed.

(** Whatever is rounded, the exponent of the result is one of binary64. *)
Lemma shr_fexp_grid m e l : emin64 <= snd (shr_fexp prec emax m e l).
Proof.
  unfold shr_fexp, shr.
  destruct (fexp prec emax (Zdigits2 m + e) - e) eqn:E; cbn [snd];
    rewrite fexp_eq in E; lia.
Qed.

Lemma bra_grid sx m e l : on_grid (binary_round_aux prec emax sx m e l).
Proof.
  unfold binary_round_aux.
  destruct (shr_fexp prec emax m e l) as [mrs' e'].
  pose proof (shr_fexp_grid
                (round_nearest_even (shr_m mrs') (loc_of_shr_record mrs'))
                e' loc_Exact) as H.
  destruct (shr_fexp prec emax _ e' loc_Exact) as [mrs'' e''].
  cbn [snd] in H. destruct (shr_m mrs''); try exact I.
  destruct (e'' <=? emax - prec); [exact H | exact I].
Qed.

Lemma binary_round_grid sx m e : on_grid (binary_round prec emax sx m e).
Proof.
  unfold binary_round. destruct (shl_align m e _). apply bra_grid.
Qed.

Lemma binary_normalize_grid m e s : on_grid (binary_normalize prec emax m e s).
Proof. destruct m; cbn [binary_normalize]; try exact I; apply binary_round_grid. Qed.

Lemma dec2f_grid neg d k : on_grid (dec2f neg d k).
Proof.
  unfold dec2f. destruct d; try exact I.
  destruct (0 <=? k); [apply binary_normalize_grid|].
  destruct (SFdiv_core_binary prec emax (Z.pos p) 0 (10 ^ (- k)) 0) as [[q e] l].
  apply bra_grid.
Qed.

Lemma of_decimal_grid neg d nd k : on_grid (of_decimal neg d nd k).
Proof.
  unfold of_decimal. destruct d; try exact I.
  destruct (310 <? k); [exact I|].
  destruct (k + nd <? -330); [exact I | apply dec2f_grid].
Qed.

(** So the floats that [float] reads, and the valid prices, are on the
    grid of binary64. *)
Lemma py_float_grid s v : py_float s = Some v -> on_grid v.
Proof.
  unfold py_float. destruct (sign (strip_with num_space s)) as [neg body].
  destruct (_ || _); [intros [= <-]; exact I|].
  destruct (PyStr.eqb _ _); [intros [= <-]; exact I|].
  destruct (digitpart body 0 0%N) as [[ip n1] r1].
  destruct (match r1 with
            | 46%N :: t => digitpart t ip 0%N
            | _ => (ip, 0%N, r1)
            end) as [[d n2] r2].
  destruct (N.eqb (n1 + n2) 0); [discriminate|].
  destruct (exponent r2); [|discriminate].
  intros [= <-]. apply of_decimal_grid.
Qed.

Lemma to_number_grid x v : _to_number x = Some v -> on_grid v.
Proof.
  unfold _to_number. destruct (py_str x) as [s|]; [|discriminate].
  destruct (py_float (strip s)) as [w|] eqn:E; [|discriminate].
  destruct (fleb zero w); [|discriminate].
  intros [= <-]. exact (py_float_grid _ E).
Qed.

(** *** Rounding error of a float sum *)

Lemma U_pos : 0 < U.
Proof. reflexivity. Qed.

Lemma pow_facts n :
  0 < U ^ Z.of_nat n /\ U ^ Z.of_nat n <= (U + 1) ^ Z.of_nat n.
Proof.
  pose proof U_pos. split.
  - apply Z.pow_pos_nonneg; lia.
  - apply Z.pow_le_mono_l; lia.
Qed.

Lemma pow_S (b : Z) n : b ^ Z.of_nat (S n) = b * b ^ Z.of_nat n.
Proof. rewrite Nat2Z.inj_succ, Z.pow_succ_r by lia. reflexivity. Qed.

Lemma within_0 X : within 0 X X.
Proof. unfold within. rewrite Z.sub_diag. cbn. lia. Qed.

(** One more rounding: [r'] is the rounded [r + v]. *)
Lemma within_step n T L R a' :
  0 <= T -> 0 <= L ->
  U * Z.abs (a' - T) <= T ->
  within n R (a' + L) ->
  within (S n) R (T + L).
Proof.
  unfold within. rewrite !pow_S. intros HT HL Hd HR.
  destruct (pow_facts n) as [HB HC].
  set (B := U ^ Z.of_nat n) in *. set (C := (U + 1) ^ Z.of_nat n) in *.
  pose proof U_pos as HU.
  set (x := Z.abs (R - (a' + L))) in *. set (y := Z.abs (a' - T)) in *.
  assert (Hx : 0 <= x) by apply Z.abs_nonneg.
  assert (Hy : 0 <= y) by apply Z.abs_nonneg.
  assert (Htri : Z.abs (R - (T + L)) <= x + y) by (unfold x, y; lia).
  assert (Ha' : a' + L <= T + y + L) by (unfold y; lia).
  assert (HUB : 0 <= U * B) by (apply Z.mul_nonneg_nonneg; lia).
  assert (HUC : 0 <= U * (C - B)) by (apply Z.mul_nonneg_nonneg; lia).
  pose proof (Z.mul_le_mono_nonneg_l _ _ (U * B) HUB Htri) as H1.
  pose proof (Z.mul_le_mono_nonneg_l _ _ U ltac:(lia) HR) as H2.
  pose proof (Z.mul_le_mono_nonneg_l _ _ (U * (C - B)) HUC Ha') as H3.
  pose proof (Z.mul_le_mono_nonneg_l _ _ (C - B) ltac:(lia) Hd) as H4.
  pose proof (Z.mul_le_mono_nonneg_l _ _ B ltac:(lia) Hd) as H5.
  pose proof (Z.mul_le_mono_nonneg_l _ _ C ltac:(lia) HL) as H6.
  lia.
Qed.

Lemma exact_sum_nonneg l : Forall good l -> 0 <= exact_sum l.
Proof.
  induction 1 as [|v l [Hv _] _ IH]; cbn [exact_sum fold_right]; [lia|].
  fold (exact_sum l). pose proof (nonneg_ulps Hv). lia.
Qed.

Lemma fadd_good x y : good x -> good y -> good (fadd x y).
Proof.
  intros [Nx Gx] [Ny Gy]. split; [apply fadd_nonneg; assumption|].
  apply (fadd_error Nx Ny Gx Gy).
Qed.

(** The float sum of numbers that are not negative, started from [a]: when
    it is finite, so were all the numbers, and it is within one rounding
    for each of them of the exact sum. *)
Lemma fold_fadd_error l a :
  good a -> Forall good l ->
  good (fold_left fadd l a)
  /\ (is_finite (fold_left fadd l a) = true ->
      is_finite a = true
      /\ Forall (fun v => is_finite v = true) l
      /\ within (List.length l) (ulps (fold_left fadd l a))
                (ulps a + exact_sum l)).
Proof.
  revert a; induction l as [|v l IH]; intros a Ha Hl.
  - cbn [fold_left exact_sum fold_right List.length]. split; [exact Ha|].
    intros Hf; split; [exact Hf|]. split; [constructor|].
    rewrite Z.add_0_r. apply within_0.
  - inversion Hl as [|v' l' Hv Hl']; subst.
    cbn [fold_left exact_sum fold_right List.length]. fold (exact_sum l).
    destruct (IH (fadd a v) (fadd_good Ha Hv) Hl') as [Hg Hfin].
    split; [exact Hg|]. intros Hf. destruct (Hfin Hf) as (Hf' & Hall & Hw).
    destruct Ha as [Na Ga], Hv as [Nv Gv].
    destruct (fadd_error Na Nv Ga Gv) as [_ Herr].
    destruct (Herr Hf') as (Hfa & Hfv & Hd).
    split; [exact Hfa|]. split; [constructor; assumption|].
    replace (ulps a + (ulps v + exact_sum l))
      with ((ulps a + ulps v) + exact_sum l) by ring.
    apply within_step with (a' := ulps (fadd a v)); auto.
    + pose proof (nonneg_ulps Na); pose proof (nonneg_ulps Nv); lia.
    + apply exact_sum_nonneg; assumption.
Qed.

Lemma good_zero : good zero.
Proof. split; [reflexivity | exact I]. Qed.

Lemma fsum_error l :
  Forall good l ->
  good (fsum l)
  /\ (is_finite (fsum l) = true ->
      Forall (fun v => is_finite v = true) l
      /\ within (List.length l) (ulps (fsum l)) (exact_sum l)).
Proof.
  intros Hl. destruct (fold_fadd_error good_zero Hl) as [Hg Hf].
  split; [exact Hg|]. intros H. destruct (Hf H) as (_ & Hall & Hw).
  split; [exact Hall | exact Hw].
Qed.

(** More roundings allow more error. *)
Lemma within_S n r X : 0 <= X -> within n r X -> within (S n) r X.
Proof.
  unfold within. rewrite !pow_S. intros HX H.
  destruct (pow_facts n) as [HB HC]. pose proof U_pos as HU.
  set (B := U ^ Z.of_nat n) in *. set (C := (U + 1) ^ Z.of_nat n) in *.
  pose proof (Z.mul_le_mono_nonneg_l _ _ U ltac:(lia) H) as H1.
  pose proof (Z.mul_le_mono_nonneg_l _ _ C ltac:(lia) HX) as H2.
  lia.
Qed.

Lemma within_le n k r X : (n <= k)%nat -> 0 <= X -> within n r X -> within k r X.
Proof. induction 1; auto using within_S. Qed.

(** Sums of values within [n] roundings are within [n] roundings. *)
Lemma within_add n r1 X1 r2 X2 :
  within n r1 X1 -> within n r2 X2 -> within n (r1 + r2) (X1 + X2).
Proof.
  unfold within. intros H1 H2. destruct (pow_facts n) as [HB HC].
  set (B := U ^ Z.of_nat n) in *. set (C := (U + 1) ^ Z.of_nat n) in *.
  assert (Htri : Z.abs (r1 + r2 - (X1 + X2))
                 <= Z.abs (r1 - X1) + Z.abs (r2 - X2)) by lia.
  pose proof (Z.mul_le_mono_nonneg_l _ _ B ltac:(lia) Htri) as H3.
  lia.
Qed.

(** Roundings after roundings. *)
Lemma within_trans m n a b c :
  0 <= c -> within m a b -> within n b c -> within (m + n) a c.
Proof.
  unfold within. rewrite Nat2Z.inj_add, !Z.pow_add_r by lia.
  intros Hc H1 H2.
  destruct (pow_facts m) as [HBm HCm]. destruct (pow_facts n) as [HBn HCn].
  set (Bm := U ^ Z.of_nat m) in *. set (Cm := (U + 1) ^ Z.of_nat m) in *.
  set (Bn := U ^ Z.of_nat n) in *. set (Cn := (U + 1) ^ Z.of_nat n) in *.
  set (x := Z.abs (a - b)) in *. set (y := Z.abs (b - c)) in *.
  assert (Hx : 0 <= x) by apply Z.abs_nonneg.
  assert (Hy : 0 <= y) by apply Z.abs_nonneg.
  assert (Htri : Z.abs (a - c) <= x + y) by (unfold x, y; lia).
  assert (Hb : b <= c + y) by (unfold y; lia).
  assert (HBB : 0 <= Bm * Bn) by (apply Z.mul_nonneg_nonneg; lia).
  pose proof (Z.mul_le_mono_nonneg_l _ _ (Bm * Bn) HBB Htri) as H3.
  pose proof (Z.mul_le_mono_nonneg_l _ _ Bn ltac:(lia) H1) as H4.
  pose proof (Z.mul_le_mono_nonneg_l _ _ Bn ltac:(lia) Hb) as H5.
  assert (H6 : Bn * b <= Cn * c) by lia.
  pose proof (Z.mul_le_mono_nonneg_l _ _ (Cm - Bm) ltac:(lia) H6) as H7.
  pose proof (Z.mul_le_mono_nonneg_l _ _ Bm ltac:(lia) H2) as H8.
  lia.
Qed.

(** *** The keys of the mapping *)

Section DictKeys.
Variable V : Type.
Implicit Types (d : dict V) (k c : str) (v : V).

Lemma set_keys_in d k v c : In c (keys (set d k v)) <-> c = k \/ In c (keys d).
Proof.
  induction d as [|[k' v'] d IH]; cbn [set keys List.map fst In].
  - intuition.
  - destruct (PyStr.eqb k' k) eqn:E; cbn [keys List.map fst In].
    + apply str_eqb_eq in E; subst k'. intuition.
    + fold (keys (set d k v)). fold (keys d). rewrite IH. intuition.
Qed.

Lemma set_keys_nodup d k v : NoDup (keys d) -> NoDup (keys (set d k v)).
Proof.
  induction d as [|[k' v'] d IH]; cbn [set keys List.map fst].
  - intros _. constructor; [intros [] | constructor].
  - fold (keys d). intros H; inversion H as [|x l Hnin Hnd]; subst.
    destruct (PyStr.eqb k' k) eqn:E; cbn [keys List.map fst].
    + fold (keys d). constructor; assumption.
    + fold (keys (set d k v)). constructor; [|auto].
      rewrite set_keys_in. intros [->|Hin]; [|contradiction].
      rewrite str_eqb_refl in E; discriminate.
Qed.

Lemma nodup_get d c v : NoDup (keys d) -> In (c, v) d -> get d c = Some v.
Proof.
  induction d as [|[k' v'] d IH]; cbn [keys List.map fst get In]; [tauto|].
  fold (keys d). intros H; inversion H as [|x l Hnin Hnd]; subst.
  intros [[= -> ->] | Hin].
  - rewrite str_eqb_refl; reflexivity.
  - destruct (PyStr.eqb k' c) eqn:E; [|auto].
    apply str_eqb_eq in E; subst k'. exfalso; apply Hnin.
    change c with (fst (c, v)). apply in_map; assumption.
Qed.

Lemma get_in_keys d c v : get d c = Some v -> In c (keys d).
Proof.
  induction d as [|[k' v'] d IH]; cbn [keys List.map fst get In];
    [discriminate|].
  destruct (PyStr.eqb k' c) eqn:E; [|auto].
  apply str_eqb_eq in E; auto.
Qed.

End DictKeys.

Lemma step_keys_nodup acc r :
  NoDup (keys (fst acc)) -> NoDup (keys (fst (step acc r))).
Proof.
  unfold step. destruct (_to_number (harga r)); auto.
  cbn [fst]. apply set_keys_nodup.
Qed.

Lemma totals_nodup rows : NoDup (keys (fst (compute_totals rows))).
Proof.
  unfold compute_totals.
  assert (H : forall acc, NoDup (keys (fst acc)) ->
                          NoDup (keys (fst (fold_left step rows acc)))).
  { induction rows as [|r rows IH]; intros acc Hacc; cbn [fold_left]; auto.
    apply IH, step_keys_nodup, Hacc. }
  apply H. constructor.
Qed.

(** Each total of the mapping is the float sum of the valid prices of its
    category, of which there is at least one. *)
Lemma totals_entry rows c t :
  In (c, t) (fst (compute_totals rows)) ->
  prices_of c rows <> [] /\ t = fsum (prices_of c rows).
Proof.
  intros Hin. pose proof (@nodup_get _ _ _ _ (totals_nodup rows) Hin) as Hg.
  rewrite compute_totals_get in Hg.
  destruct (prices_of c rows); [discriminate|].
  split; [discriminate | congruence].
Qed.

Lemma valid_row_key rows r v :
  In r rows -> _to_number (harga r) = Some v ->
  In (cat_of r) (keys (fst (compute_totals rows))).
Proof.
  intros Hin Hv. pose proof (in_prices_of _ _ Hin eq_refl Hv) as Hp.
  pose proof (compute_totals_get rows (cat_of r)) as Hg.
  destruct (prices_of (cat_of r) rows); [destruct Hp|].
  exact (@get_in_keys _ _ _ _ Hg).
Qed.

(** *** The exact sums, category by category *)

Lemma indicator_out K c0 x :
  ~ In c0 K ->
  fold_right (fun c s => (if PyStr.eqb c0 c then x else 0) + s) 0 K = 0.
Proof.
  induction K as [|c K IH]; cbn [fold_right In]; [reflexivity|].
  intros H. rewrite IH by tauto.
  destruct (PyStr.eqb c0 c) eqn:E; [|reflexivity].
  apply str_eqb_eq in E; subst; tauto.
Qed.

(** Exactly one of distinct keys is the category of a row. *)
Lemma indicator_in K c0 x :
  NoDup K -> In c0 K ->
  fold_right (fun c s => (if PyStr.eqb c0 c then x else 0) + s) 0 K = x.
Proof.
  induction K as [|c K IH]; cbn [fold_right In]; [tauto|].
  intros H; inversion H as [|c' K' Hnin Hnd]; subst. intros [->|Hin].
  - rewrite str_eqb_refl, indicator_out by assumption. lia.
  - rewrite IH by assumption.
    destruct (PyStr.eqb c0 c) eqn:E; [|reflexivity].
    apply str_eqb_eq in E; subst; contradiction.
Qed.

Lemma cat_sum_cons K r rows :
  cat_sum K (r :: rows)
  = match _to_number (harga r) with
    | Some v =>
        fold_right (fun c s => (if PyStr.eqb (cat_of r) c then ulps v else 0) + s)
                   0 K
    | None => 0
    end + cat_sum K rows.
Proof.
  induction K as [|c K IH]; cbn [cat_sum fold_right].
  - destruct (_to_number (harga r)); reflexivity.
  - fold (cat_sum K (r :: rows)). fold (cat_sum K rows).
    rewrite IH, prices_of_cons.
    destruct (_to_number (harga r)) as [v|];
      destruct (PyStr.eqb (cat_of r) c); cbn [exact_sum fold_right];
      fold (exact_sum (prices_of c rows)); lia.
Qed.

Lemma cat_sum_nil K : cat_sum K [] = 0.
Proof.
  induction K as [|c K IH]; cbn [cat_sum fold_right]; [reflexivity|].
  fold (cat_sum K []). rewrite IH. reflexivity.
Qed.

(** The exact sums of the categories add up to the exact sum of all valid
    prices, when the keys are distinct and every valid row has its key. *)
Lemma cat_sum_total K rows :
  NoDup K ->
  (forall r v, In r rows -> _to_number (harga r) = Some v -> In (cat_of r) K) ->
  cat_sum K rows = exact_sum (valid_prices rows).
Proof.
  intros HK. induction rows as [|r rows IH]; intros Hin.
  - apply cat_sum_nil.
  - rewrite cat_sum_cons, valid_prices_cons, IH
      by (intros r' v' H; apply Hin; right; exact H).
    destruct (_to_number (harga r)) as [v|] eqn:E; [|reflexivity].
    rewrite (@indicator_in K (cat_of r) (ulps v) HK (Hin r v (or_introl eq_refl) E)).
    reflexivity.
Qed.

Lemma valid_prices_good rows : Forall good (valid_prices rows).
Proof.
  induction rows as [|r rows IH]; [constructor|].
  rewrite valid_prices_cons.
  destruct (_to_number (harga r)) as [v|] eqn:E; [|exact IH].
  constructor; [|exact IH].
  split; [exact (@to_number_nonneg _ _ E) | exact (@to_number_grid _ _ E)].
Qed.

Lemma prices_of_good c rows : Forall good (prices_of c rows).
Proof. apply valid_prices_good. Qed.

Lemma prices_of_length c rows :
  (List.length (prices_of c rows) <= List.length (valid_prices rows))%nat.
Proof.
  induction rows as [|r rows IH]; [apply Nat.le_refl|].
  rewrite prices_of_cons, valid_prices_cons.
  destruct (PyStr.eqb (cat_of r) c), (_to_number (harga r));
    cbn [List.length]; lia.
Qed.

Lemma within_refl n X : 0 <= X -> within n X X.
Proof.
  unfold within. intros HX. destruct (pow_facts n) as [HB HC].
  rewrite Z.sub_diag. change (Z.abs 0) with 0. rewrite Z.mul_0_r.
  apply Z.mul_nonneg_nonneg; lia.
Qed.

(** The totals of the mapping, added exactly, are within one rounding for
    each valid price of the exact sum of the prices. *)
Lemma values_within rows (d : dict float) :
  (forall c t, In (c, t) d -> In (c, t) (fst (compute_totals rows))) ->
  Forall (fun t => is_finite t = true) (values d) ->
  within (List.length (valid_prices rows))
         (exact_sum (values d)) (cat_sum (keys d) rows).
Proof.
  induction d as [|[c t] d IH]; intros Hsub Hfin.
  - apply (within_refl _ (Z.le_refl 0)).
  - cbn [values keys List.map fst snd exact_sum cat_sum fold_right].
    fold (values d) (keys d) (exact_sum (values d)) (cat_sum (keys d) rows).
    inversion Hfin as [|t' l Ht Hl]; subst.
    apply within_add.
    + destruct (@totals_entry rows c t (Hsub c t (or_introl eq_refl))) as [_ ->].
      destruct (fsum_error (prices_of_good c rows)) as [_ Hw].
      apply (@within_le _ _ _ _ (prices_of_length c rows)).
      * apply exact_sum_nonneg, prices_of_good.
      * apply (Hw Ht).
    + apply IH; [|exact Hl]. intros c' t' H; apply Hsub; right; exact H.
Qed.

Lemma values_good rows : Forall good (values (fst (compute_totals rows))).
Proof.
  apply Forall_forall. intros t Ht. unfold values in Ht.
  apply in_map_iff in Ht as ([c t'] & <- & Hin).
  destruct (@totals_entry rows c t' Hin) as [_ ->]. cbn [snd].
  apply (fsum_error (prices_of_good c rows)).
Qed.

Lemma within_both k a b X :
  within k a X -> within k b X ->
  U ^ Z.of_nat k * Z.abs (a - b)
  <= 2 * (((U + 1) ^ Z.of_nat k - U ^ Z.of_nat k) * X).
Proof.
  unfold within. intros Ha Hb. destruct (pow_facts k) as [HB HC].
  set (B := U ^ Z.of_nat k) in *.
  assert (Htri : Z.abs (a - b) <= Z.abs (a - X) + Z.abs (b - X)) by lia.
  pose proof (Z.mul_le_mono_nonneg_l _ _ B ltac:(lia) Htri) as H.
  lia.
Qed.

(** C4 (as amended): the grand total is the float sum, in row order, of
    the valid prices; and when neither it nor the float sum of the totals
    of the mapping has overflowed to infinity, both are within [k]
    roundings of the exact sum [S] of the valid prices, [k] being the
    number of categories plus the number of valid prices: each differs
    from [S] by at most [(1 + 2^-53)^k - 1] times [S], and they differ
    from each other by at most twice that. *)
Theorem C4_totals_within_rounding rows :
  let totals := fst (compute_totals rows) in
  let total_all := snd (compute_totals rows) in
  let S := exact_sum (valid_prices rows) in
  let k := (List.length totals + List.length (valid_prices rows))%nat in
  total_all = fsum (valid_prices rows)
  /\ (is_finite total_all = true ->
      is_finite (fsum (values totals)) = true ->
      within k (ulps total_all) S
      /\ within k (ulps (fsum (values totals))) S
      /\ U ^ Z.of_nat k * Z.abs (ulps (fsum (values totals)) - ulps total_all)
         <= 2 * (((U + 1) ^ Z.of_nat k - U ^ Z.of_nat k) * S)).
Proof.
  intros totals total_all S k.
  assert (Hg : total_all = fsum (valid_prices rows))
    by apply compute_totals_total.
  split; [exact Hg|]. intros Fg Fs.
  assert (HS : 0 <= S) by apply exact_sum_nonneg, valid_prices_good.
  assert (Wg : within k (ulps total_all) S).
  { rewrite Hg in Fg |- *.
    destruct (fsum_error (valid_prices_good rows)) as [_ Hw].
    apply (@within_le (List.length (valid_prices rows)) k); [lia | exact HS|].
    apply (Hw Fg). }
  assert (Ws : within k (ulps (fsum (values totals))) S).
  { destruct (fsum_error (values_good rows)) as [_ Hw].
    destruct (Hw Fs) as [Hall Hm].
    unfold values in Hm at 1. rewrite length_map in Hm.
    apply (within_trans HS Hm).
    replace S with (cat_sum (keys totals) rows).
    - apply values_within; [auto | exact Hall].
    - apply cat_sum_total; [apply totals_nodup|].
      intros r v; apply valid_row_key. }
  split; [exact Wg|]. split; [exact Ws|].
  apply within_both; assumption.
Qed.

Lemma C4_totals_within_rounding_witness :
  snd (compute_totals sample_rows) = fsum (valid_prices sample_rows)
  /\ within 6 (ulps (snd (compute_totals sample_rows)))
               (exact_sum (valid_prices sample_rows))
  /\ within 6 (ulps (fsum (values (fst (compute_totals sample_rows)))))
               (exact_sum (valid_prices sample_rows))
  /\ U ^ 6 * Z.abs (ulps (fsum (values (fst (compute_totals sample_rows))))
                    - ulps (snd (compute_totals sample_rows)))
     <= 2 * (((U + 1) ^ 6 - U ^ 6) * exact_sum (valid_prices sample_rows)).
Proof.
  destruct (C4_totals_within_rounding sample_rows) as [H1 H2].
  split; [exact H1|]. apply H2; vm_compute; reflexivity.
Defined.

(** C4, as the specification words it, fails at the edge of the range: the
    grand total of [overflow_rows] is the greatest finite float, while the
    totals of its two categories add up to infinity. *)
Lemma C4_overflow_disagreement :
  snd (compute_totals overflow_rows)
  = S754_finite false 9007199254740991 971
  /\ fsum (values (fst (compute_totals overflow_rows))) = S754_infinity false.
Proof. split; vm_compute; reflexivity. Qed.

Local Close Scope Z_scope.

(** ** Further properties *)

(** *** Trimming *)

Lemma rstrip_cons p c s :
  rstrip_with p (c :: s)
  = if p c && is_empty (rstrip_with p s) then [] else c :: rstrip_with p s.
Proof. reflexivity. Qed.

Lemma rstrip_idem p s : rstrip_with p (rstrip_with p s) = rstrip_with p s.
Proof.
  induction s as [|c s IH]; [reflexivity|].
  rewrite rstrip_cons.
  destruct (p c && is_empty (rstrip_with p s)) eqn:E; [reflexivity|].
  rewrite rstrip_cons, IH, E. reflexivity.
Qed.

Lemma lstrip_head p s :
  match lstrip_with p s with
  | [] => True
  | c :: _ => p c = false
  end.
Proof.
  induction s as [|c s IH]; cbn [lstrip_with]; [exact I|].
  destruct (p c) eqn:E; [exact IH | exact E].
Qed.

Lemma strip_idem p s : strip_with p (strip_with p s) = strip_with p s.
Proof.
  unfold strip_with. pose proof (lstrip_head p s) as H.
  destruct (lstrip_with p s) as [|c t]; [reflexivity|].
  rewrite rstrip_cons, H. cbn [andb lstrip_with]. rewrite H.
  rewrite rstrip_cons, H. cbn [andb]. rewrite rstrip_idem. reflexivity.
Qed.

(** X1: whatever [load_csv] is given, the rows it returns hold a category
    and a name that are strings with no white space at either end, and an
    [int] as price. *)
Theorem X1_load_csv_rows_trimmed f rows r :
  load_csv f = Ok rows -> In r rows ->
  exists k n z,
    r = mkRow (Some k) (Some n) (PyInt z) /\ strip k = k /\ strip n = n.
Proof.
  unfold load_csv. destruct (match f with Upload b => decode b | Text s => Ok s end)
    as [text|e]; [|discriminate].
  cbn [bind]. destruct (DictReader text) as [recs|e]; [|discriminate].
  cbn [bind]. intros H Hin. apply Ok_inj in H. subst rows.
  apply in_map_iff in Hin as (d & <- & _).
  exists (strip (or_str (row_get d "kategori") [])),
         (strip (or_str (row_get d "nama") [])), (parse_harga d).
  split; [reflexivity|]. split; apply strip_idem.
Qed.

Lemma X1_load_csv_rows_trimmed_witness :
  exists k n z,
    mkRow (Some (lit "Minuman")) (Some (lit "Es Teh")) (PyInt 5000)
    = mkRow (Some k) (Some n) (PyInt z) /\ strip k = k /\ strip n = n.
Proof.
  apply (@X1_load_csv_rows_trimmed (Text SAMPLE_CSV) sample_rows).
  - vm_compute; reflexivity.
  - right; right; left; reflexivity.
Defined.

(** *** Missing columns and short rows *)

Lemma str_eqb_sym (a b : str) : PyStr.eqb a b = PyStr.eqb b a.
Proof.
  destruct (PyStr.eqb a b) eqn:E.
  - apply str_eqb_eq in E; subst; symmetry; apply str_eqb_refl.
  - symmetry; apply str_eqb_neq. apply str_eqb_neq in E. congruence.
Qed.

Lemma get_fold_zip (kvs : list (str * str)) (d : dict (option str)) k :
  ~ In k (List.map fst kvs) ->
  get (fold_left (fun d kv => set d (fst kv) (Some (snd kv))) kvs d) k
  = get d k.
Proof.
  revert d; induction kvs as [|[k' v] kvs IH]; intros d Hn;
    cbn [fold_left]; [reflexivity|].
  cbn [List.map fst In] in Hn. rewrite IH by tauto. cbn [fst snd].
  apply get_set_other. intros ->; tauto.
Qed.

Lemma get_fold_none (ks : list str) (d : dict (option str)) k :
  get (fold_left (fun d k => set d k None) ks d) k
  = if str_mem k ks then Some None else get d k.
Proof.
  revert d; induction ks as [|k' ks IH]; intros d; cbn [fold_left];
    [reflexivity|].
  rewrite IH. unfold str_mem; cbn [existsb]. fold (str_mem k ks).
  destruct (str_mem k ks); [rewrite orb_true_r; reflexivity|].
  rewrite orb_false_r, get_set, (str_eqb_sym k k'). reflexivity.
Qed.

Lemma combine_keys (fns row : list str) k :
  In k (List.map fst (combine fns row)) ->
  In k (firstn (List.length row) fns).
Proof.
  revert row; induction fns as [|f fns IH]; intros [|x row];
    cbn [combine List.map fst In firstn List.length]; auto.
  intros [H|H]; [left; exact H | right; apply IH; exact H].
Qed.

Lemma row_get_absent fns row k :
  ~ In (lit k) (firstn (List.length row) fns) ->
  row_get (dict_row fns row) k = None.
Proof.
  intros Hn. unfold row_get, dict_row. rewrite get_fold_none.
  destruct (str_mem (lit k) _); [reflexivity|].
  rewrite get_fold_zip; [reflexivity|].
  intros H; apply Hn, combine_keys, H.
Qed.

(** X2: a column that the header does not name, or that a short row does
    not reach, is read as absent: the price of the row is 0 and its
    category or name the empty string. *)
Theorem X2_absent_field_defaults fns row :
  (~ In (lit "harga") (firstn (List.length row) fns) ->
   harga (load_row (dict_row fns row)) = PyInt 0)
  /\ (~ In (lit "kategori") (firstn (List.length row) fns) ->
      kategori (load_row (dict_row fns row)) = Some [])
  /\ (~ In (lit "nama") (firstn (List.length row) fns) ->
      nama (load_row (dict_row fns row)) = Some []).
Proof.
  repeat split; intros H; unfold load_row, parse_harga;
    cbn [harga kategori nama]; rewrite (row_get_absent _ _ _ H); reflexivity.
Qed.

(** *** Uploaded bytes *)

(** X4: an uploaded file that holds the UTF-8 encoding of a text is parsed
    as the text itself, and bytes that are not UTF-8 make [load_csv] raise
    the decoding error. *)
Theorem X4_upload_as_text :
  (forall s b, encode s = Ok b -> load_csv (Upload b) = load_csv (Text s))
  /\ (forall b e, decode b = Raise e -> load_csv (Upload b) = Raise e).
Proof.
  split.
  - intros s b H. unfold load_csv. rewrite (decode_encode _ H). reflexivity.
  - intros b e H. unfold load_csv. rewrite H. reflexivity.
Qed.

(** *** When the reader cannot fail *)

Ltac step_done :=
  eexists; (split; [reflexivity|]);
  cbn [state field goto parse_save_field];
  repeat split; auto; try discriminate; try (intros _; assumption).

Lemma step_calm r t ts :
  calm (t :: ts) = true -> ready r (t :: ts) -> room r (t :: ts) ->
  exists r', parse_process_char r t = Ok r' /\ ready r' ts /\ room r' ts.
Proof.
  intros Hc Hr Hroom. destruct r as [st f fs]. unfold ready, room in *.
  cbn [state field] in *.
  destruct t as [c|].
  - cbn [calm] in Hc. apply andb_true_iff in Hc as [Hc Hrest].
    apply andb_true_iff in Hc as [Hcr Hlf]. apply negb_true_iff in Hcr.
    cbn [count_ch] in Hroom.
    assert (Hst : st <> EAT_CRNL)
      by (intros ->; destruct (Hr eq_refl) as [? H]; discriminate H).
    assert (Hadd : forall st', parse_add_char st' (mkReader st f fs) c
                               = Ok (mkReader st' (f ++ [c]) fs)).
    { intros st'. unfold parse_add_char; cbn [field fields].
      destruct (N.leb_spec field_limit (N.of_nat (List.length f)));
        [lia | reflexivity]. }
    assert (Hroom' : (N.of_nat (List.length (f ++ [c]) + count_ch ts)
                      <= field_limit)%N)
      by (rewrite length_app; cbn [List.length]; lia).
    assert (Hroom0 : (N.of_nat (List.length (@nil N) + count_ch ts)
                      <= field_limit)%N) by (cbn [List.length]; lia).
    assert (Hroomf : (N.of_nat (List.length f + count_ch ts)
                      <= field_limit)%N) by lia.
    destruct (N.eqb c LF) eqn:El.
    + assert (Hready : exists ts', ts = EOL :: ts').
      { destruct ts as [|[c'|] ts']; try discriminate Hlf.
        eexists; reflexivity. }
      assert (Hnl : is_nl (Ch c) = true) by (cbn [is_nl]; rewrite El; reflexivity).
      assert (Hq : N.eqb c quotechar = false)
        by (apply N.eqb_eq in El; subst c; reflexivity).
      assert (Hd : N.eqb c delimiter = false)
        by (apply N.eqb_eq in El; subst c; reflexivity).
      destruct st; try congruence;
        unfold parse_process_char, start_field; cbn [state];
        rewrite ?Hnl, ?Hq, ?Hd, ?Hadd; step_done.
    + assert (Hnl : is_nl (Ch c) = false)
        by (cbn [is_nl]; rewrite El, Hcr; reflexivity).
      destruct st; try congruence;
        unfold parse_process_char, start_field; cbn [state];
        rewrite ?Hnl; destruct (N.eqb c quotechar), (N.eqb c delimiter);
        rewrite ?Hadd; step_done.
  - cbn [calm count_ch] in *.
    destruct st; unfold parse_process_char, start_field; cbn [state];
      step_done; try (cbn [List.length]; lia).
Qed.

Lemma run_calm ts r :
  calm ts = true -> ready r ts -> room r ts -> exists p, run r ts = Ok p.
Proof.
  revert r; induction ts as [|t ts IH]; intros r Hc Hr Hroom.
  - eexists; reflexivity.
  - destruct (step_calm Hc Hr Hroom) as (r' & E & Hr' & Hroom').
    cbn [run]. rewrite E. cbn [bind].
    assert (Hc' : calm ts = true).
    { destruct t; cbn [calm] in Hc; [|exact Hc].
      apply andb_true_iff in Hc as [_ Hc]; exact Hc. }
    assert (Hreset : exists p, run parse_reset ts = Ok p).
    { apply IH; [exact Hc' | discriminate|].
      unfold room in *. cbn [parse_reset field List.length]. lia. }
    destruct t as [c|]; [apply IH; assumption|].
    destruct (state r'); try (apply IH; assumption).
    destruct Hreset as [p ->]. eexists; reflexivity.
Qed.

Lemma calm_chars cur ts :
  no_cr cur = true -> no_lf cur = true ->
  calm (List.map Ch cur ++ ts) = calm ts
  /\ count_ch (List.map Ch cur ++ ts) = (List.length cur + count_ch ts)%nat.
Proof.
  unfold no_cr, no_lf. induction cur as [|c cur IH];
    cbn [existsb List.map app calm count_ch List.length]; [auto|].
  rewrite !negb_true_iff, !orb_false_iff. intros [Hc Hcr] [Hl Hlf].
  destruct IH as [IH1 IH2]; [apply negb_true_iff; exact Hcr
                            | apply negb_true_iff; exact Hlf|].
  rewrite IH1, IH2, (N.eqb_sym c CR), Hc, (N.eqb_sym c LF), Hl.
  split; reflexivity.
Qed.

Lemma no_snoc (x : N) cur c :
  negb (existsb (N.eqb x) cur) = true -> N.eqb x c = false ->
  negb (existsb (N.eqb x) (cur ++ [c])) = true.
Proof.
  rewrite !negb_true_iff, existsb_app. intros -> Hc. cbn [existsb orb].
  rewrite Hc. reflexivity.
Qed.

(** The stream of a text without carriage return. *)
Lemma readlines_calm s cur :
  no_cr s = true -> no_cr cur = true -> no_lf cur = true ->
  let ts := flat_map (fun l => List.map Ch l ++ [EOL]) (readlines_from cur s) in
  calm ts = true /\ count_ch ts = (List.length cur + List.length s)%nat.
Proof.
  revert cur; induction s as [|c s IH]; intros cur Hs Hcr Hlf.
  - cbn [readlines_from List.length]. destruct cur as [|x cur].
    + split; reflexivity.
    + cbn [is_empty flat_map]. rewrite app_nil_r.
      destruct (@calm_chars _ [EOL] Hcr Hlf) as [-> ->]. split; [reflexivity|].
      cbn [count_ch]. lia.
  - unfold no_cr in Hs. cbn [existsb] in Hs.
    rewrite negb_true_iff, orb_false_iff in Hs. destruct Hs as [Hc Hs].
    assert (Hs' : no_cr s = true) by (apply negb_true_iff; exact Hs).
    cbn [readlines_from List.length]. destruct (N.eqb c LF) eqn:El.
    + apply N.eqb_eq in El; subst c.
      destruct (IH [] Hs' eq_refl eq_refl) as [I1 I2].
      cbn [flat_map]. rewrite map_app, <- !app_assoc. cbn [List.map app].
      match goal with
      | |- context [List.map Ch cur ++ ?T] =>
          destruct (@calm_chars _ T Hcr Hlf) as [-> ->]
      end.
      cbn [calm count_ch]. change (N.eqb LF CR) with false.
      change (N.eqb LF LF) with true. cbn [negb andb].
      cbn [List.length] in I2. split; [exact I1 | lia].
    + destruct (IH (cur ++ [c])) as [I1 I2]; auto.
      * apply no_snoc; assumption.
      * apply no_snoc; [assumption | rewrite N.eqb_sym; exact El].
      * split; [exact I1|]. rewrite I2, length_app. cbn [List.length]. lia.
Qed.

(** X3: a text without carriage return that is no longer than the field
    size limit is always parsed: [load_csv] raises nothing on it. *)
Theorem X3_load_csv_total s :
  existsb (N.eqb CR) s = false ->
  (N.of_nat (List.length s) <= field_limit)%N ->
  exists rows, load_csv (Text s) = Ok rows.
Proof.
  intros Hcr Hlen.
  assert (Hs : no_cr s = true) by (unfold no_cr; rewrite Hcr; reflexivity).
  destruct (@readlines_calm s [] Hs eq_refl eq_refl) as [Hc Hn].
  assert (Hrun : exists p,
             run parse_reset
                 (flat_map (fun l => List.map Ch l ++ [EOL]) (readlines s))
             = Ok p).
  { apply run_calm; [exact Hc | discriminate|].
    unfold room, readlines. rewrite Hn. cbn [parse_reset field List.length].
    lia. }
  destruct Hrun as [p Hp].
  unfold load_csv, DictReader, reader_rows. cbn [bind].
  rewrite read_records_run, Hp. cbn [bind].
  destruct (fst p ++ last_record (snd p)); eexists; reflexivity.
Qed.

Lemma X3_load_csv_total_witness :
  exists rows, load_csv (Text BAD_PRICE_CSV) = Ok rows.
Proof.
  apply X3_load_csv_total; vm_compute; [reflexivity | discriminate].
Defined.

(** *** Which categories the mapping holds *)

Lemma valid_prices_nil rows :
  valid_prices rows = [] <-> forall r, In r rows -> _to_number (harga r) = None.
Proof.
  induction rows as [|r rows IH]; [split; [intros _ r [] | reflexivity]|].
  rewrite valid_prices_cons. destruct (_to_number (harga r)) as [v|] eqn:E.
  - split; [discriminate|]. intros H.
    rewrite (H r (or_introl eq_refl)) in E. discriminate.
  - rewrite IH. split.
    + intros H r' [<-|Hin]; auto.
    + intros H r' Hin; apply H; right; exact Hin.
Qed.

Lemma fold_step_invalid rows acc :
  (forall r, In r rows -> _to_number (harga r) = None) ->
  fold_left step rows acc = acc.
Proof.
  revert acc; induction rows as [|r rows IH]; intros acc H; [reflexivity|].
  cbn [fold_left]. rewrite (step_invalid _ _ (H r (or_introl eq_refl))).
  apply IH. intros r' Hin; apply H; right; exact Hin.
Qed.

Lemma valid_prices_in rows v :
  In v (valid_prices rows) ->
  exists r, In r rows /\ _to_number (harga r) = Some v.
Proof.
  induction rows as [|r rows IH]; [intros []|].
  rewrite valid_prices_cons. destruct (_to_number (harga r)) as [w|] eqn:E.
  - intros [<-|Hin].
    + exists r; split; [left; reflexivity | exact E].
    + destruct (IH Hin) as (r' & H1 & H2). exists r'; split; [right|]; auto.
  - intros Hin. destruct (IH Hin) as (r' & H1 & H2).
    exists r'; split; [right|]; auto.
Qed.

Lemma totals_none rows :
  valid_prices rows = [] -> compute_totals rows = ([], zero).
Proof. intros H. apply fold_step_invalid, valid_prices_nil, H. Qed.

Lemma totals_nil_iff rows :
  fst (compute_totals rows) = [] <-> valid_prices rows = [].
Proof.
  split.
  - intros He. destruct (valid_prices rows) as [|v l] eqn:E; [reflexivity|].
    destruct (@valid_prices_in rows v) as (r & Hin & Hv);
      [rewrite E; left; reflexivity|].
    pose proof (valid_row_key _ _ Hin Hv) as Hk.
    rewrite He in Hk. destruct Hk.
  - intros H. rewrite (totals_none _ H). reflexivity.
Qed.

(** X7: the mapping of totals is empty exactly when no row has a valid
    price, and then the grand total is 0.0; in particular for no row at
    all. *)
Theorem X7_no_valid_row rows :
  (fst (compute_totals rows) = [] <->
   forall r, In r rows -> _to_number (harga r) = None)
  /\ ((forall r, In r rows -> _to_number (harga r) = None) ->
      snd (compute_totals rows) = zero).
Proof.
  rewrite <- valid_prices_nil. split; [apply totals_nil_iff|].
  intros H. rewrite (totals_none _ H). reflexivity.
Qed.

(** *** The order of the categories *)

Lemma set_keys V (d : dict V) k v :
  keys (set d k v) = if str_mem k (keys d) then keys d else keys d ++ [k].
Proof.
  unfold str_mem.
  induction d as [|[k' v'] d IH]; cbn [set keys List.map fst existsb app];
    [reflexivity|].
  fold (keys d). rewrite (str_eqb_sym k k').
  destruct (PyStr.eqb k' k) eqn:E; cbn [keys List.map fst orb]; [reflexivity|].
  fold (keys (set d k v)). rewrite IH.
  destruct (existsb (PyStr.eqb k) (keys d)); reflexivity.
Qed.

Lemma valid_cats_cons r rows :
  valid_cats (r :: rows) =
    match _to_number (harga r) with
    | Some _ => cat_of r :: valid_cats rows
    | None => valid_cats rows
    end.
Proof.
  unfold valid_cats, is_valid; cbn [filter].
  destruct (_to_number (harga r)); reflexivity.
Qed.

Lemma totals_keys_fold rows acc :
  keys (fst (fold_left step rows acc)) =
    fold_left (fun ks c => if str_mem c ks then ks else ks ++ [c])
              (valid_cats rows) (keys (fst acc)).
Proof.
  revert acc; induction rows as [|r rows IH]; intros acc; [reflexivity|].
  cbn [fold_left]. rewrite IH, valid_cats_cons. unfold step.
  destruct (_to_number (harga r)) as [v|]; [|reflexivity].
  cbn [fold_left fst]. rewrite set_keys. reflexivity.
Qed.

Lemma totals_keys rows :
  keys (fst (compute_totals rows)) = first_seen (valid_cats rows).
Proof. unfold compute_totals. rewrite totals_keys_fold. reflexivity. Qed.

Lemma valid_cats_in rows c :
  In c (valid_cats rows) <->
  exists r, In r rows /\ is_valid r = true /\ cat_of r = c.
Proof.
  unfold valid_cats. rewrite in_map_iff. split.
  - intros (r & Hc & Hin). apply filter_In in Hin as [Hin Hv].
    exists r; auto.
  - intros (r & Hin & Hv & Hc). exists r; split; [exact Hc|].
    apply filter_In; auto.
Qed.

Lemma totals_keys_in rows c :
  In c (keys (fst (compute_totals rows))) <->
  exists r, In r rows /\ is_valid r = true /\ cat_of r = c.
Proof.
  split.
  - intros Hin. apply in_map_iff in Hin as ([c' t] & Hc & Hin).
    cbn [fst] in Hc; subst c'.
    destruct (totals_entry _ _ _ Hin) as [Hne _].
    unfold prices_of in Hne.
    destruct (valid_prices _) as [|v l] eqn:E; [destruct Hne; reflexivity|].
    destruct (@valid_prices_in (filter (fun r => PyStr.eqb (cat_of r) c) rows) v)
      as (r & Hr & Hv); [rewrite E; left; reflexivity|].
    apply filter_In in Hr as [Hr Hc]. apply str_eqb_eq in Hc.
    exists r; repeat split; auto. unfold is_valid; rewrite Hv; reflexivity.
  - intros (r & Hin & Hv & <-). unfold is_valid in Hv.
    destruct (_to_number (harga r)) as [v|] eqn:E; [|discriminate].
    exact (valid_row_key _ _ Hin E).
Qed.

Lemma cat_of_trimmed r : cat_of r <> [] /\ strip (cat_of r) = cat_of r.
Proof.
  unfold cat_of.
  destruct (strip (or_str (kategori r) [])) as [|c s] eqn:E.
  - split; [discriminate | reflexivity].
  - cbn [or_str]. split; [discriminate|].
    rewrite <- E. apply strip_idem.
Qed.

(** X8: the categories of the mapping of totals are those under which
    some row with a valid price is counted; no key occurs twice, and every
    key is a non-empty text without white space at its ends. *)
Theorem X8_total_keys rows :
  NoDup (keys (fst (compute_totals rows)))
  /\ (forall c, In c (keys (fst (compute_totals rows))) <->
                exists r, In r rows /\ is_valid r = true /\ cat_of r = c)
  /\ (forall c, In c (keys (fst (compute_totals rows))) ->
                c <> [] /\ strip c = c).
Proof.
  split; [apply totals_nodup|]. split; [apply totals_keys_in|].
  intros c Hin. apply totals_keys_in in Hin as (r & _ & _ & <-).
  apply cat_of_trimmed.
Qed.

(** X9: the mapping of totals lists the categories in the order in which
    each first occurs among the rows with a valid price, and the summary
    table has one line for each, in that order, with the float sum of the
    category's valid prices. *)
Theorem X9_summary_order rows :
  keys (fst (compute_totals rows)) = first_seen (valid_cats rows)
  /\ summary_list (fst (compute_totals rows)) =
       List.map (fun c => [(lit "kategori", PyStr c);
                           (lit "total", PyFloat (fsum (prices_of c rows)))])
                (first_seen (valid_cats rows)).
Proof.
  split; [apply totals_keys|].
  rewrite <- totals_keys. unfold summary_list, keys. rewrite map_map.
  apply map_ext_in. intros [c t] Hin. cbn [fst snd].
  destruct (totals_entry _ _ _ Hin) as [_ ->]. reflexivity.
Qed.

(** *** When a sum is positive *)

Local Open Scope Z_scope.

Lemma good_cases x :
  good x ->
  (exists s, x = S754_zero s) \/ x = S754_infinity false
  \/ exists m e, x = S754_finite false m e.
Proof.
  intros [Hn _]. unfold nonneg in Hn.
  destruct x as [s|[|]| |[|] m e]; try discriminate; eauto.
Qed.

Lemma fltb_zero_ulps x :
  good x -> is_finite x = true -> fltb zero x = true <-> 0 < ulps x.
Proof.
  intros [Hn Hg]. unfold nonneg in Hn.
  destruct x as [s|[|]| |[|] m e]; try discriminate;
    intros _; cbn [ulps cond_Zopp].
  - split; [discriminate | lia].
  - cbn [on_grid] in Hg. split; [intros _ | reflexivity].
    apply Z.mul_pos_pos; [lia | apply Z.pow_pos_nonneg; lia].
Qed.

Lemma good_not_finite x : good x -> is_finite x = false -> x = S754_infinity false.
Proof.
  intros [Hn _]. unfold nonneg in Hn.
  destruct x as [s|[|]| |[|] m e]; try discriminate; reflexivity.
Qed.

(** A sum of two numbers that are not negative is positive exactly when
    one of them is: rounding never takes a positive sum to zero. *)
Lemma fadd_pos x y :
  good x -> good y -> fltb zero (fadd x y) = fltb zero x || fltb zero y.
Proof.
  intros Gx Gy. pose proof (fadd_good Gx Gy) as Gr.
  destruct (is_finite (fadd x y)) eqn:Fr.
  - destruct Gx as [Nx Ox], Gy as [Ny Oy].
    destruct (fadd_error Nx Ny Ox Oy) as [_ He].
    destruct (He Fr) as (Fx & Fy & Hb).
    pose proof (nonneg_ulps Nx) as Ux. pose proof (nonneg_ulps Ny) as Uy.
    pose proof U_pos as HU.
    pose proof (fltb_zero_ulps Gr Fr) as Hr.
    pose proof (fltb_zero_ulps (conj Nx Ox) Fx) as Hx.
    pose proof (fltb_zero_ulps (conj Ny Oy) Fy) as Hy.
    assert (Hiff : 0 < ulps (fadd x y) <-> 0 < ulps x \/ 0 < ulps y).
    { split.
      - intros Hp. destruct (Z.eq_dec (ulps x + ulps y) 0) as [E|E]; [|lia].
        rewrite E in Hb. lia.
      - intros Hp.
        destruct (Z_lt_le_dec 0 (ulps (fadd x y))) as [H|H]; [exact H|].
        exfalso.
        assert (ulps x + ulps y <= Z.abs (ulps (fadd x y) - (ulps x + ulps y)))
          by lia.
        assert (U * (ulps x + ulps y)
                <= U * Z.abs (ulps (fadd x y) - (ulps x + ulps y)))
          by (apply Z.mul_le_mono_nonneg_l; lia).
        assert (2 * (ulps x + ulps y) <= U * (ulps x + ulps y))
          by (apply Z.mul_le_mono_nonneg_r; unfold U in *; lia).
        lia. }
    destruct (fltb zero (fadd x y)) eqn:E1; destruct (fltb zero x) eqn:E2;
      destruct (fltb zero y) eqn:E3; try reflexivity; exfalso;
      intuition congruence.
  - rewrite (good_not_finite Gr Fr).
    destruct (good_cases Gx) as [[sx ->]|[->|(mx & ex & ->)]];
      destruct (good_cases Gy) as [[sy ->]|[->|(my & ey & ->)]];
      try reflexivity.
    destruct sx, sy; discriminate.
Qed.

Lemma fold_fadd_pos l a :
  good a -> Forall good l ->
  fltb zero (fold_left fadd l a) = fltb zero a || existsb (fltb zero) l.
Proof.
  revert a; induction l as [|v l IH]; intros a Ha Hl; cbn [fold_left existsb].
  - rewrite orb_false_r; reflexivity.
  - inversion Hl; subst. rewrite IH by auto using fadd_good.
    rewrite fadd_pos by assumption. rewrite orb_assoc. reflexivity.
Qed.

Local Close Scope Z_scope.

(** X11: the downloads are offered exactly when there is a row and either
    no price is valid or some valid price is positive; rows whose valid
    prices are all zero are not exported. *)
Theorem X11_data_valid rows :
  data_valid rows = true <->
  rows <> []
  /\ (valid_prices rows = []
      \/ exists v, In v (valid_prices rows) /\ fltb zero v = true).
Proof.
  unfold data_valid.
  destruct (compute_totals rows) as [totals total_all] eqn:E.
  assert (Ht : total_all = fsum (valid_prices rows))
    by (rewrite <- compute_totals_total, E; reflexivity).
  assert (Hk : totals = [] <-> valid_prices rows = []).
  { pose proof (totals_nil_iff rows) as H. rewrite E in H. exact H. }
  assert (Hp : fltb zero total_all = existsb (fltb zero) (valid_prices rows)).
  { rewrite Ht. unfold fsum.
    rewrite (fold_fadd_pos good_zero (valid_prices_good rows)). reflexivity. }
  rewrite andb_true_iff, orb_true_iff, negb_true_iff, Hp, existsb_exists.
  split.
  - intros [Hr Hc]. split; [intros ->; discriminate|].
    destruct Hc as [Hc|Hc]; [right; exact Hc | left].
    apply Hk. destruct totals; [reflexivity | discriminate].
  - intros [Hr Hc]. split; [destruct rows; [congruence | reflexivity]|].
    destruct Hc as [Hc|Hc]; [right | left; exact Hc].
    apply Hk in Hc. rewrite Hc. reflexivity.
Qed.

(** *** Printing an integer and reading it back *)

Local Open Scope Z_scope.

Lemma digitpart_uint u acc n :
  digitpart (uint_str u) acc n
  = (uint_val u acc, (n + N.of_nat (List.length (uint_str u)))%N, []).
Proof.
  revert acc n; induction u as [|u IH|u IH|u IH|u IH|u IH|u IH|u IH|u IH|u IH|u IH];
    intros acc n; cbn [uint_str uint_val List.length digitpart].
  - rewrite N.add_0_r; reflexivity.
  - change (digit_val 48) with (Some 0); cbv beta iota. rewrite IH, Z.add_0_r. f_equal; f_equal; lia.
  - change (digit_val 49) with (Some 1); cbv beta iota. rewrite IH. f_equal; f_equal; lia.
  - change (digit_val 50) with (Some 2); cbv beta iota. rewrite IH. f_equal; f_equal; lia.
  - change (digit_val 51) with (Some 3); cbv beta iota. rewrite IH. f_equal; f_equal; lia.
  - change (digit_val 52) with (Some 4); cbv beta iota. rewrite IH. f_equal; f_equal; lia.
  - change (digit_val 53) with (Some 5); cbv beta iota. rewrite IH. f_equal; f_equal; lia.
  - change (digit_val 54) with (Some 6); cbv beta iota. rewrite IH. f_equal; f_equal; lia.
  - change (digit_val 55) with (Some 7); cbv beta iota. rewrite IH. f_equal; f_equal; lia.
  - change (digit_val 56) with (Some 8); cbv beta iota. rewrite IH. f_equal; f_equal; lia.
  - change (digit_val 57) with (Some 9); cbv beta iota. rewrite IH. f_equal; f_equal; lia.
Qed.

Lemma of_uint_acc_val u acc :
  Zpos (Pos.of_uint_acc u acc) = uint_val u (Zpos acc).
Proof.
  revert acc; induction u; intros acc; cbn [Pos.of_uint_acc uint_val];
    [reflexivity|..]; rewrite IHu; f_equal; lia.
Qed.

Lemma of_uint_val u : Z.of_N (N.of_uint u) = uint_val u 0.
Proof.
  unfold N.of_uint.
  induction u; cbn [Pos.of_uint uint_val]; [reflexivity | exact IHu|..];
    cbn [Z.of_N]; apply of_uint_acc_val.
Qed.

Lemma to_uint_val n : uint_val (N.to_uint n) 0 = Z.of_N n.
Proof. rewrite <- of_uint_val, DecimalN.Unsigned.of_to. reflexivity. Qed.

Lemma unorm_lead u : lead_ok (Decimal.unorm u) = true.
Proof. induction u; cbn [Decimal.unorm]; auto. Qed.

Lemma to_uint_lead n : lead_ok (N.to_uint n) = true.
Proof.
  rewrite <- (DecimalN.Unsigned.of_to n) at 1.
  rewrite DecimalN.Unsigned.to_of. apply unorm_lead.
Qed.

Lemma uint_val_bounds u acc :
  0 <= acc ->
  acc * 10 ^ len (uint_str u) <= uint_val u acc
  < (acc + 1) * 10 ^ len (uint_str u).
Proof.
  unfold len.
  revert acc; induction u; intros acc Hacc; cbn [uint_str uint_val List.length];
    [change (10 ^ Z.of_nat 0) with 1; lia|..];
    rewrite Nat2Z.inj_succ, Z.pow_succ_r by lia;
    match goal with
    | |- _ <= uint_val _ ?a < _ =>
        let H := fresh in
        assert (H : 0 <= a) by lia; specialize (IHu a H);
        pose proof (Z.pow_pos_nonneg 10 (Z.of_nat (List.length (uint_str u))))
    end; nia.
Qed.

Lemma uint_str_digits u : Forall (fun c => is_digit c = true) (uint_str u).
Proof. induction u; cbn [uint_str]; constructor; auto. Qed.

Lemma to_uint_cons n : exists c s, uint_str (N.to_uint n) = c :: s /\ is_digit c = true.
Proof.
  pose proof (to_uint_lead n) as H. pose proof (uint_str_digits (N.to_uint n)) as F.
  destruct (N.to_uint n); [discriminate|..]; cbn [uint_str] in *;
    inversion F; subst; eauto.
Qed.

Lemma uint_val_low u a : 1 <= a -> 10 ^ len (uint_str u) <= uint_val u a.
Proof.
  intros Ha. pose proof (@uint_val_bounds u a ltac:(lia)) as [Hb _].
  assert (0 < 10 ^ len (uint_str u))
    by (apply Z.pow_pos_nonneg; unfold len; lia).
  assert (1 * 10 ^ len (uint_str u) <= a * 10 ^ len (uint_str u))
    by (apply Z.mul_le_mono_nonneg_r; lia).
  lia.
Qed.

Lemma lead_val_low u :
  lead_ok u = true ->
  len (uint_str u) = 1 \/ 10 ^ (len (uint_str u) - 1) <= uint_val u 0.
Proof.
  destruct u as [|v|v|v|v|v|v|v|v|v|v]; try discriminate;
    [destruct v; try discriminate; intros _; left; reflexivity|..];
    intros _; right; unfold len; cbn [uint_str uint_val List.length];
    rewrite Nat2Z.inj_succ;
    replace (Z.succ (Z.of_nat (List.length (uint_str v))) - 1)
      with (len (uint_str v)) by (unfold len; lia);
    apply uint_val_low; lia.
Qed.

Lemma digits_len_bound z :
  0 <= z ->
  (len (digits z) <= Z.of_N int_max_str_digits
   <-> z < 10 ^ Z.of_N int_max_str_digits).
Proof.
  intros Hz. unfold digits.
  assert (HM : 1 <= Z.of_N int_max_str_digits) by (cbv; discriminate).
  pose proof (to_uint_val (Z.to_N z)) as Hv. rewrite Z2N.id in Hv by lia.
  pose proof (lead_val_low _ (to_uint_lead (Z.to_N z))) as Hl.
  set (u := N.to_uint (Z.to_N z)) in *.
  pose proof (@uint_val_bounds u 0 (Z.le_refl 0)) as [_ Hhi].
  rewrite Hv in Hhi, Hl. split.
  - intros Hlen.
    assert (10 ^ len (uint_str u) <= 10 ^ Z.of_N int_max_str_digits)
      by (apply Z.pow_le_mono_r; lia).
    lia.
  - intros Hlt.
    destruct (Z_le_gt_dec (len (uint_str u)) (Z.of_N int_max_str_digits))
      as [H|H]; [exact H|].
    exfalso. destruct Hl as [Hl|Hl]; [lia|].
    assert (10 ^ Z.of_N int_max_str_digits <= 10 ^ (len (uint_str u) - 1))
      by (apply Z.pow_le_mono_r; lia).
    lia.
Qed.

(** White space is cut only where there is some. *)
Lemma strip_with_none p s :
  Forall (fun c => p c = false) s -> strip_with p s = s.
Proof.
  intros H. unfold strip_with.
  replace (lstrip_with p s) with s
    by (destruct H as [|c s Hc _]; cbn [lstrip_with]; [|rewrite Hc]; reflexivity).
  induction H as [|c s Hc _ IH]; [reflexivity|].
  unfold rstrip_with in *. cbn [fold_right]. rewrite IH, Hc. reflexivity.
Qed.

Lemma is_digit_cases c :
  is_digit c = true ->
  (c = 48 \/ c = 49 \/ c = 50 \/ c = 51 \/ c = 52
   \/ c = 53 \/ c = 54 \/ c = 55 \/ c = 56 \/ c = 57)%N.
Proof.
  unfold is_digit, between. rewrite andb_true_iff, !N.leb_le. lia.
Qed.

Lemma digit_not_space c :
  is_digit c = true -> isspace c = false /\ num_space c = false.
Proof.
  intros H. apply is_digit_cases in H.
  repeat (destruct H as [->|H]; [split; reflexivity|]).
  subst; split; reflexivity.
Qed.

Lemma minus_not_space (p : N -> bool) neg s :
  p 45%N = false -> Forall (fun c => p c = false) s ->
  Forall (fun c => p c = false) (minus neg s).
Proof. intros H45 Hs. destruct neg; cbn [minus]; [constructor|]; assumption. Qed.

Lemma uint_str_not_space u :
  Forall (fun c => isspace c = false) (uint_str u)
  /\ Forall (fun c => num_space c = false) (uint_str u).
Proof.
  split; eapply Forall_impl; try apply uint_str_digits;
    intros c Hc; apply (digit_not_space _ Hc).
Qed.

Lemma uint_len_pos u :
  u <> Decimal.Nil -> N.of_nat (List.length (uint_str u)) <> 0%N.
Proof. destruct u; [congruence|..]; intros _; cbn [uint_str List.length]; lia. Qed.

Lemma not_keyword u :
  u <> Decimal.Nil ->
  PyStr.eqb (List.map lower (uint_str u)) (lit "inf")
  || PyStr.eqb (List.map lower (uint_str u)) (lit "infinity") = false
  /\ PyStr.eqb (List.map lower (uint_str u)) (lit "nan") = false.
Proof. destruct u; [congruence|..]; intros _; split; reflexivity. Qed.

Lemma sign_minus neg u :
  u <> Decimal.Nil -> sign (minus neg (uint_str u)) = (neg, uint_str u).
Proof. destruct neg; [reflexivity|]. destruct u; [congruence|..]; reflexivity. Qed.

(** [float] of a signed string of digits. *)
Lemma py_float_signed neg u :
  u <> Decimal.Nil ->
  py_float (minus neg (uint_str u))
  = Some (of_decimal neg (uint_val u 0) (len (uint_str u)) 0).
Proof.
  intros Hu. unfold py_float.
  rewrite strip_with_none
    by (apply minus_not_space; [reflexivity | apply uint_str_not_space]).
  rewrite (sign_minus neg Hu).
  destruct (not_keyword Hu) as [-> ->].
  rewrite digitpart_uint. rewrite N.add_0_l, N.add_0_r.
  destruct (N.eqb_spec (N.of_nat (List.length (uint_str u))) 0) as [E|_];
    [destruct (uint_len_pos Hu E)|].
  cbn [exponent]. unfold len. rewrite nat_N_Z. reflexivity.
Qed.

Lemma of_decimal_int neg d nd :
  0 <= d -> 0 <= nd ->
  of_decimal neg d nd 0 = binary_normalize prec emax (cond_Zopp neg d) 0 neg.
Proof.
  intros Hd Hnd. unfold of_decimal. destruct d as [|p|p]; [destruct neg; reflexivity| |lia].
  change (310 <? 0) with false. cbv beta iota.
  destruct (0 + nd <? -330) eqn:E; [apply Z.ltb_lt in E; lia|].
  unfold dec2f. change (0 <=? 0) with true. cbv beta iota.
  change (10 ^ 0) with 1. rewrite Z.mul_1_r. destruct neg; reflexivity.
Qed.

Lemma binary_round_opp m e :
  binary_round prec emax true m e = SFopp (binary_round prec emax false m e).
Proof.
  unfold binary_round. destruct (shl_align m e _) as [mz ez].
  unfold binary_round_aux.
  destruct (shr_fexp prec emax (Zpos mz) ez loc_Exact) as [mrs' e'].
  destruct (shr_fexp prec emax _ e' loc_Exact) as [mrs'' e''].
  destruct (shr_m mrs''); try reflexivity.
  destruct (e'' <=? emax - prec); reflexivity.
Qed.

(** A negative integer reads as a negative float, never as zero. *)
Lemma normalize_neg p :
  fleb zero (binary_normalize prec emax (Zneg p) 0 true) = false.
Proof.
  cbn [binary_normalize]. rewrite binary_round_opp.
  destruct (@binary_round_rounds p 0 ltac:(unfold emin64; lia))
    as [->|(m & e & -> & _)]; reflexivity.
Qed.

Lemma of_Z_nonneg z : 0 <= z -> nonneg (of_Z z).
Proof.
  intros Hz. unfold of_Z. destruct z as [|p|p]; [reflexivity| |lia].
  apply binary_round_nonneg.
Qed.

Lemma digits_uint z : 0 <= z -> uint_val (N.to_uint (Z.to_N z)) 0 = z.
Proof. intros Hz. rewrite to_uint_val, Z2N.id by lia. reflexivity. Qed.

Lemma to_uint_not_nil n : N.to_uint n <> Decimal.Nil.
Proof. intros E. pose proof (to_uint_lead n) as H. rewrite E in H. discriminate. Qed.

(** [float(str(z).strip())] of an [int] that [str] can print. *)
Lemma coerce_int z :
  Z.abs z < 10 ^ Z.of_N int_max_str_digits ->
  coerce (PyInt z)
  = Some (binary_normalize prec emax z 0 (z <? 0)).
Proof.
  intros Hz. unfold coerce. cbn [py_str]. unfold int_str.
  assert (Hlen : len (digits (Z.abs z)) <= Z.of_N int_max_str_digits)
    by (apply digits_len_bound; lia).
  destruct (Z.ltb_spec (Z.of_N int_max_str_digits) (len (digits (Z.abs z))))
    as [H|_]; [lia|].
  change (if z <? 0 then 45%N :: digits (Z.abs z) else digits (Z.abs z))
    with (minus (z <? 0) (digits (Z.abs z))).
  unfold digits, strip.
  rewrite strip_with_none
    by (apply minus_not_space; [reflexivity | apply uint_str_not_space]).
  rewrite (py_float_signed _ (@to_uint_not_nil _)).
  rewrite digits_uint by lia.
  rewrite of_decimal_int by (unfold len; lia).
  f_equal. f_equal. destruct (Z.ltb_spec z 0); cbn [cond_Zopp]; lia.
Qed.

Lemma to_number_coerce x :
  _to_number x = match coerce x with
                 | Some v => if fleb zero v then Some v else None
                 | None => None
                 end.
Proof. unfold _to_number, coerce. destruct (py_str x); reflexivity. Qed.

Lemma to_number_int z :
  0 <= z < 10 ^ Z.of_N int_max_str_digits -> _to_number (PyInt z) = Some (of_Z z).
Proof.
  intros Hz. rewrite to_number_coerce, coerce_int by lia.
  replace (binary_normalize prec emax z 0 (z <? 0)) with (of_Z z)
    by (unfold of_Z; destruct z; try reflexivity; lia).
  pose proof (@of_Z_nonneg z ltac:(lia)) as H. unfold nonneg in H.
  rewrite H. reflexivity.
Qed.

Lemma to_number_out z :
  z < 0 \/ 10 ^ Z.of_N int_max_str_digits <= z -> _to_number (PyInt z) = None.
Proof.
  intros Hz. rewrite to_number_coerce.
  destruct (Z_lt_le_dec (Z.abs z) (10 ^ Z.of_N int_max_str_digits)) as [Hs|Hl].
  - rewrite coerce_int by exact Hs.
    destruct z as [|p|p]; try lia.
    change (Zneg p <? 0) with true. rewrite normalize_neg. reflexivity.
  - unfold coerce. cbn [py_str]. unfold int_str.
    destruct (Z.ltb_spec (Z.of_N int_max_str_digits) (len (digits (Z.abs z))))
      as [_|H]; [reflexivity|].
    apply digits_len_bound in H; lia.
Qed.

(** X5: a price that is an [int] from 0 to below [10^4300] is valid and
    counts as the binary64 nearest to it (infinity when it is beyond the
    range); a negative [int] is not valid, and neither is one of more than
    4300 digits, which [str] refuses to print. *)
Theorem X5_int_price z :
  (0 <= z < 10 ^ Z.of_N int_max_str_digits ->
   _to_number (PyInt z) = Some (of_Z z))
  /\ (z < 0 \/ 10 ^ Z.of_N int_max_str_digits <= z ->
      _to_number (PyInt z) = None).
Proof. split; [apply to_number_int | apply to_number_out]. Qed.

Local Close Scope Z_scope.

Local Open Scope Z_scope.

(** *** Whole numbers below [2^53] are added exactly *)

Lemma digits2_scale p q j :
  0 <= j -> Zpos q = Zpos p * 2 ^ j ->
  Zpos (digits2_pos q) = Zpos (digits2_pos p) + j.
Proof.
  intros Hj Hq. apply digits2_unique. rewrite Hq.
  pose proof (digits2_bounds p) as [Hlo Hhi].
  assert (Hp : 0 < 2 ^ j) by (apply Z.pow_pos_nonneg; lia).
  replace (Zpos (digits2_pos p) + j - 1) with (Zpos (digits2_pos p) - 1 + j) by lia.
  rewrite !Z.pow_add_r by lia. split.
  - apply Z.mul_le_mono_nonneg_r; lia.
  - apply Z.mul_lt_mono_pos_r; lia.
Qed.

(** A right shift that drops zero bits only. *)
Lemma shr_exact K q mrs :
  0 <= q -> shr_inv (Zpos K * 2 ^ q) q mrs ->
  mrs = Build_shr_record (Zpos K) false false.
Proof.
  intros Hq (rest & Hrest & HM & Hs & Hm).
  destruct mrs as [m r s]; cbn [shr_m shr_r shr_s] in *.
  assert (HP : 0 < 2 ^ q) by (apply Z.pow_pos_nonneg; lia).
  rewrite Z.pow_add_r in HM by lia. change (2 ^ 1) with 2 in HM.
  set (P := 2 ^ q) in *.
  set (t := 2 * Zpos K - 2 * m - (if r then 1 else 0)).
  assert (Ht : rest = t * P) by (unfold t; destruct r; lia).
  assert (t = 0).
  { destruct (Z.lt_trichotomy t 0) as [H|[H|H]]; [|exact H|]; exfalso.
    - assert (t * P <= (-1) * P) by (apply Z.mul_le_mono_nonneg_r; lia). lia.
    - assert (1 * P <= t * P) by (apply Z.mul_le_mono_nonneg_r; lia). lia. }
  assert (r = false) by (destruct r; [unfold t in *; lia | reflexivity]).
  subst r. assert (m = Zpos K) by (unfold t in *; lia).
  assert (s = false).
  { destruct s; [|reflexivity]. assert (0 < rest) by (apply Hs; reflexivity). lia. }
  subst; reflexivity.
Qed.

Lemma bra_shift_exact p E q K :
  fexp prec emax (Zpos (digits2_pos p) + E) - E = Zpos q ->
  Zpos p = Zpos K * 2 ^ Zpos q ->
  binary_round_aux prec emax false (Zpos p) E loc_Exact
  = finite_or_inf K (E + Zpos q).
Proof.
  intros Hn Hp. unfold binary_round_aux.
  rewrite (shr_fexp_pos (Zpos p) E Hn).
  pose proof (@shr_shift (Zpos p) q ltac:(lia)) as Hinv.
  rewrite Hp in Hinv at 1.
  rewrite (@shr_exact K (Zpos q) _ ltac:(lia) Hinv).
  cbn [shr_m loc_of_shr_record shr_r shr_s round_nearest_even].
  pose proof (@digits2_scale K p (Zpos q) ltac:(lia) Hp) as Hd.
  rewrite shr_fexp_0.
  - reflexivity.
  - cbn [Zdigits2].
    replace (Zpos (digits2_pos K) + (E + Zpos q))
      with (Zpos (digits2_pos p) + E) by lia.
    lia.
Qed.

Lemma finite_or_inf_low m e : e <= 0 -> finite_or_inf m e = S754_finite false m e.
Proof.
  intros He. unfold finite_or_inf.
  destruct (Z.leb_spec e (emax - prec)) as [_|H]; [reflexivity|].
  unfold emax, prec in H. lia.
Qed.

(** A whole number below [2^53] written with trailing zero bits rounds to
    itself. *)
Lemma round_whole m e s :
  Zpos s < 2 ^ 53 -> e <= 0 -> Zpos m = Zpos s * 2 ^ (- e) ->
  binary_round prec emax false m e = whole (Zpos s).
Proof.
  intros Hs He Hm. unfold whole. cbn [Zdigits2].
  pose proof (@digits2_scale s m (- e) ltac:(lia) Hm) as Hd.
  pose proof (digits2_bounds s) as [Dlo Dhi].
  set (dS := Zpos (digits2_pos s)) in *.
  assert (HdS : 1 <= dS <= 53).
  { split; [unfold dS; lia|].
    destruct (Z_le_gt_dec dS 53) as [H|H]; [exact H|].
    assert (2 ^ 53 <= 2 ^ (dS - 1)) by (apply Z.pow_le_mono_r; lia). lia. }
  assert (HF : fexp prec emax (Zpos (digits2_pos m) + e) = dS - 53).
  { rewrite fexp_eq, Hd. unfold emin64. lia. }
  unfold binary_round. rewrite HF. unfold shl_align.
  destruct (dS - 53 - e) as [|q|q] eqn:Hn.
  - rewrite bra_exact by (rewrite HF; lia).
    rewrite finite_or_inf_low by lia.
    replace (dS - 53) with e by lia. f_equal.
    replace (53 - dS) with (- e) by lia. rewrite <- Hm. reflexivity.
  - rewrite (@bra_shift_exact m e q (Z.to_pos (Zpos s * 2 ^ (53 - dS)))).
    + rewrite finite_or_inf_low by lia. f_equal. lia.
    + rewrite HF. lia.
    + rewrite Z2Pos.id by (apply Z.mul_pos_pos; [lia | apply Z.pow_pos_nonneg; lia]).
      rewrite Hm, <- Z.mul_assoc, <- Z.pow_add_r by lia.
      f_equal. f_equal. lia.
  - assert (Hv : Zpos (Pos.iter xO m q) = Zpos s * 2 ^ (53 - dS)).
    { rewrite pos_iter_xO, Hm, <- Z.mul_assoc, <- Z.pow_add_r by lia.
      f_equal. f_equal. lia. }
    rewrite bra_exact.
    + rewrite finite_or_inf_low by lia. f_equal. rewrite <- Hv. reflexivity.
    + rewrite (@digits2_scale s (Pos.iter xO m q) (53 - dS) ltac:(lia) Hv).
      fold dS. rewrite fexp_eq. unfold emin64. lia.
Qed.

Lemma of_Z_whole s : Zpos s < 2 ^ 53 -> of_Z (Zpos s) = whole (Zpos s).
Proof.
  intros Hs. unfold of_Z. cbn [binary_normalize].
  apply round_whole; [exact Hs | lia|]. change (2 ^ (- 0)) with 1. lia.
Qed.

Lemma whole_align s ez :
  Zpos s < 2 ^ 53 -> ez <= Zdigits2 (Zpos s) - 53 ->
  Zpos (fst (shl_align (Z.to_pos (Zpos s * 2 ^ (53 - Zdigits2 (Zpos s))))
                       (Zdigits2 (Zpos s) - 53) ez))
  = Zpos s * 2 ^ (- ez).
Proof.
  intros Hs He. cbn [Zdigits2] in *.
  pose proof (digits2_bounds s) as [Dlo Dhi].
  set (dS := Zpos (digits2_pos s)) in *.
  assert (HdS : dS <= 53).
  { destruct (Z_le_gt_dec dS 53) as [H|H]; [exact H|].
    assert (2 ^ 53 <= 2 ^ (dS - 1)) by (apply Z.pow_le_mono_r; lia). lia. }
  rewrite shl_align_val by exact He.
  rewrite Z2Pos.id by (apply Z.mul_pos_pos; [lia | apply Z.pow_pos_nonneg; lia]).
  rewrite <- Z.mul_assoc, <- Z.pow_add_r by lia.
  f_equal. f_equal. lia.
Qed.

Lemma fadd_whole a b :
  Zpos a + Zpos b < 2 ^ 53 ->
  fadd (whole (Zpos a)) (whole (Zpos b)) = whole (Zpos a + Zpos b).
Proof.
  intros Hab. unfold whole at 1 2. unfold fadd, SFadd.
  set (ez := Z.min (Zdigits2 (Zpos a) - 53) (Zdigits2 (Zpos b) - 53)).
  rewrite !whole_align by (unfold ez; lia). cbn [cond_Zopp].
  assert (Hez : ez <= 0).
  { pose proof (digits2_bounds a) as [Dlo Dhi]. cbn [Zdigits2] in *.
    destruct (Z_le_gt_dec (Zpos (digits2_pos a)) 53) as [H|H]; [lia|].
    assert (2 ^ 53 <= 2 ^ (Zpos (digits2_pos a) - 1))
      by (apply Z.pow_le_mono_r; lia).
    lia. }
  assert (HP : 0 < 2 ^ (- ez)) by (apply Z.pow_pos_nonneg; lia).
  rewrite <- Z.mul_add_distr_r.
  change (Zpos a + Zpos b) with (Zpos (a + b)) in *.
  destruct (Zpos (a + b) * 2 ^ (- ez)) as [|m|m] eqn:Em;
    [pose proof (Z.mul_pos_pos _ _ (Pos2Z.is_pos (a + b)) HP); lia| |
     pose proof (Z.mul_pos_pos _ _ (Pos2Z.is_pos (a + b)) HP); lia].
  cbn [binary_normalize]. apply round_whole; [exact Hab | exact Hez | symmetry; exact Em].
Qed.

(** Whole numbers whose sum is below [2^53] are added without rounding. *)
Lemma fadd_of_Z a b :
  0 <= a -> 0 <= b -> a + b < 2 ^ 53 ->
  fadd (of_Z a) (of_Z b) = of_Z (a + b).
Proof.
  intros Ha Hb Hab.
  destruct a as [|a|a]; [|destruct b as [|b|b]|]; try lia.
  - rewrite Z.add_0_l. destruct b as [|b|b]; try lia; [reflexivity|].
    rewrite of_Z_whole by lia. reflexivity.
  - rewrite Z.add_0_r. rewrite of_Z_whole by lia. reflexivity.
  - change (Zpos a + Zpos b) with (Zpos (a + b)) in *.
    rewrite !of_Z_whole by lia. apply (@fadd_whole a b). exact Hab.
Qed.

Lemma fold_fadd_of_Z l a :
  0 <= a -> Forall (fun z => 0 <= z) l -> a + zsum l < 2 ^ 53 ->
  fold_left fadd (List.map of_Z l) (of_Z a) = of_Z (a + zsum l).
Proof.
  intros Ha Hl; revert a Ha; induction Hl as [|z l Hz Hl IH]; intros a Ha Hs;
    cbn [List.map fold_left zsum fold_right] in *.
  - rewrite Z.add_0_r; reflexivity.
  - fold (zsum l) in *.
    assert (0 <= zsum l).
    { clear - Hl. induction Hl; cbn [zsum fold_right]; [lia|]. fold (zsum l). lia. }
    rewrite fadd_of_Z by lia. rewrite IH by lia. f_equal. lia.
Qed.

Lemma fsum_of_Z l :
  Forall (fun z => 0 <= z) l -> zsum l < 2 ^ 53 ->
  fsum (List.map of_Z l) = of_Z (zsum l).
Proof.
  intros Hl Hs. unfold fsum. change zero with (of_Z 0).
  rewrite fold_fadd_of_Z by (auto; lia). reflexivity.
Qed.

(** *** Totals of [int] prices *)

Lemma zsum_nonneg l : Forall (fun z => 0 <= z) l -> 0 <= zsum l.
Proof. induction 1; cbn [zsum fold_right]; [lia|]. fold (zsum l). lia. Qed.

Lemma int_priced_spec r :
  int_priced r = true -> harga r = PyInt (int_price r) /\ 0 <= int_price r.
Proof.
  unfold int_priced, int_price. destruct (harga r); try discriminate.
  intros H. apply Z.leb_le in H. auto.
Qed.

Lemma int_prices_nonneg rows :
  Forall (fun r => int_priced r = true) rows ->
  Forall (fun z => 0 <= z) (List.map int_price rows).
Proof.
  induction 1 as [|r rows Hr _ IH]; cbn [List.map]; constructor; auto.
  apply (int_priced_spec _ Hr).
Qed.

Lemma price_sum_cons r rows : price_sum (r :: rows) = int_price r + price_sum rows.
Proof. reflexivity. Qed.

Lemma small_printable z : z < 2 ^ 53 -> z < 10 ^ Z.of_N int_max_str_digits.
Proof.
  intros H. apply Z.lt_le_trans with (10 ^ 16); [lia|].
  apply Z.pow_le_mono_r; [lia | cbv; discriminate].
Qed.

Lemma valid_prices_int rows :
  Forall (fun r => int_priced r = true) rows -> price_sum rows < 2 ^ 53 ->
  valid_prices rows = List.map of_Z (List.map int_price rows).
Proof.
  induction 1 as [|r rows Hr Hrows IH]; [reflexivity|].
  rewrite price_sum_cons. intros Hs.
  destruct (int_priced_spec _ Hr) as [Eh Hz].
  pose proof (zsum_nonneg (int_prices_nonneg Hrows)) as Hn. fold (price_sum rows) in Hn.
  rewrite valid_prices_cons, Eh.
  rewrite to_number_int by (split; [exact Hz | apply small_printable; lia]).
  cbn [List.map app]. rewrite IH by lia. reflexivity.
Qed.

Lemma rows_of_priced c rows :
  Forall (fun r => int_priced r = true) rows ->
  Forall (fun r => int_priced r = true) (rows_of c rows)
  /\ 0 <= price_sum (rows_of c rows) <= price_sum rows.
Proof.
  unfold rows_of.
  induction 1 as [|r rows Hr Hrows [IH1 IH2]]; cbn [filter].
  - split; [constructor | cbn; lia].
  - pose proof (int_priced_spec _ Hr) as [_ Hz].
    destruct (PyStr.eqb (cat_of r) c); rewrite ?price_sum_cons; split; auto; lia.
Qed.

(** The float total of rows with [int] prices, when their sum is below
    [2^53]. *)
Lemma fsum_int_rows rows :
  Forall (fun r => int_priced r = true) rows -> price_sum rows < 2 ^ 53 ->
  fsum (valid_prices rows) = of_Z (price_sum rows).
Proof.
  intros Hr Hs. rewrite valid_prices_int by assumption.
  apply fsum_of_Z; [apply int_prices_nonneg, Hr | exact Hs].
Qed.

Lemma rows_of_sum_cons K r rows :
  zsum (List.map (fun c => price_sum (rows_of c (r :: rows))) K)
  = fold_right (fun c s => (if PyStr.eqb (cat_of r) c then int_price r else 0) + s)
               0 K
    + zsum (List.map (fun c => price_sum (rows_of c rows)) K).
Proof.
  induction K as [|c K IH]; cbn [List.map zsum fold_right]; [reflexivity|].
  fold (zsum (List.map (fun c => price_sum (rows_of c (r :: rows))) K)).
  fold (zsum (List.map (fun c => price_sum (rows_of c rows)) K)).
  rewrite IH. unfold rows_of at 1. cbn [filter].
  destruct (PyStr.eqb (cat_of r) c); rewrite ?price_sum_cons;
    fold (rows_of c rows); lia.
Qed.

(** The sums of the categories add up to the sum of all rows, when the
    keys are distinct and every row has its key. *)
Lemma rows_of_sum_total K rows :
  NoDup K -> (forall r, In r rows -> In (cat_of r) K) ->
  zsum (List.map (fun c => price_sum (rows_of c rows)) K) = price_sum rows.
Proof.
  intros HK. induction rows as [|r rows IH]; intros Hin.
  - clear. induction K as [|c K IHK]; [reflexivity|].
    cbn [List.map zsum fold_right].
    fold (zsum (List.map (fun c => price_sum (rows_of c [])) K)).
    rewrite IHK. reflexivity.
  - rewrite rows_of_sum_cons, IH by (intros r' H; apply Hin; right; exact H).
    rewrite (@indicator_in K (cat_of r) (int_price r) HK (Hin r (or_introl eq_refl))).
    reflexivity.
Qed.

(** X10: when every price is an [int] that is not negative and the prices
    add up to less than [2^53], no total is rounded: the grand total is the
    sum of the prices, the total of each category is the sum of the prices
    counted under it, and the totals of the mapping add up to the grand
    total. *)
Theorem X10_int_totals_exact rows :
  Forall (fun r => int_priced r = true) rows -> price_sum rows < 2 ^ 53 ->
  snd (compute_totals rows) = of_Z (price_sum rows)
  /\ (forall c t, get (fst (compute_totals rows)) c = Some t ->
                  t = of_Z (price_sum (rows_of c rows)))
  /\ fsum (values (fst (compute_totals rows))) = snd (compute_totals rows).
Proof.
  intros Hr Hs.
  assert (Hcat : forall c, fsum (prices_of c rows) = of_Z (price_sum (rows_of c rows))).
  { intros c. destruct (rows_of_priced c Hr) as [Hc Hb].
    apply fsum_int_rows; [exact Hc | lia]. }
  assert (Htot : snd (compute_totals rows) = of_Z (price_sum rows))
    by (rewrite compute_totals_total; apply fsum_int_rows; assumption).
  split; [exact Htot|]. split.
  - intros c t Hg. rewrite compute_totals_get in Hg.
    destruct (prices_of c rows) eqn:E; [discriminate|].
    rewrite <- E in Hg. rewrite Hcat in Hg. congruence.
  - rewrite Htot.
    assert (Hv : values (fst (compute_totals rows))
                 = List.map of_Z
                     (List.map (fun c => price_sum (rows_of c rows))
                               (keys (fst (compute_totals rows))))).
    { unfold values, keys. rewrite !map_map. apply map_ext_in.
      intros [c t] Hin. cbn [fst snd].
      destruct (totals_entry _ _ _ Hin) as [_ ->]. apply Hcat. }
    assert (Hsum : zsum (List.map (fun c => price_sum (rows_of c rows))
                                  (keys (fst (compute_totals rows))))
                   = price_sum rows).
    { apply rows_of_sum_total; [apply totals_nodup|].
      intros r Hin. pose proof (proj1 (Forall_forall _ _) Hr r Hin) as Hp.
      destruct (int_priced_spec _ Hp) as [Eh Hz].
      apply (@valid_row_key rows r (of_Z (int_price r)) Hin).
      rewrite Eh. apply to_number_int. split; [exact Hz|].
      apply small_printable.
      assert (int_price r <= price_sum rows); [|lia].
      clear - Hin Hr. induction Hr as [|r' rows Hr' Hrows IH]; [destruct Hin|].
      rewrite price_sum_cons.
      pose proof (zsum_nonneg (int_prices_nonneg Hrows)) as Hn.
      fold (price_sum rows) in Hn.
      pose proof (int_priced_spec _ Hr') as [_ Hz'].
      destruct Hin as [->|Hin]; [lia | specialize (IH Hin); lia]. }
    rewrite Hv, fsum_of_Z, Hsum; [reflexivity| |rewrite Hsum; exact Hs].
    apply Forall_forall. intros z Hz. apply in_map_iff in Hz as (c & <- & _).
    apply (rows_of_priced c Hr).
Qed.

Lemma X10_int_totals_exact_witness :
  snd (compute_totals sample_rows) = of_Z 60000
  /\ fsum (values (fst (compute_totals sample_rows)))
     = snd (compute_totals sample_rows).
Proof.
  destruct (@X10_int_totals_exact sample_rows) as (H1 & _ & H3).
  - repeat constructor.
  - reflexivity.
  - split; [exact H1 | exact H3].
Defined.

Local Close Scope Z_scope.

(** *** Exporting [int] prices and reading them back *)

Local Open Scope Z_scope.

Lemma py_int_signed neg u :
  u <> Decimal.Nil -> len (uint_str u) <= Z.of_N int_max_str_digits ->
  py_int (minus neg (uint_str u))
  = Some (if neg then - uint_val u 0 else uint_val u 0).
Proof.
  intros Hu Hlen. unfold py_int.
  rewrite strip_with_none
    by (apply minus_not_space; [reflexivity | apply uint_str_not_space]).
  rewrite (sign_minus neg Hu), digitpart_uint, N.add_0_l.
  destruct (N.eqb_spec (N.of_nat (List.length (uint_str u))) 0) as [E|_];
    [destruct (uint_len_pos Hu E)|].
  destruct (N.ltb_spec int_max_str_digits (N.of_nat (List.length (uint_str u))))
    as [H|_]; [unfold len in Hlen; lia|].
  reflexivity.
Qed.

Lemma int_str_inv z s :
  int_str z = Some s ->
  s = minus (z <? 0) (digits (Z.abs z))
  /\ len (digits (Z.abs z)) <= Z.of_N int_max_str_digits.
Proof.
  unfold int_str.
  destruct (Z.ltb_spec (Z.of_N int_max_str_digits) (len (digits (Z.abs z))))
    as [_|H]; [discriminate|].
  intros [= <-]. split; [reflexivity | exact H].
Qed.

(** [int] reads what [str] prints of an [int]. *)
Lemma py_int_str z s : int_str z = Some s -> py_int (strip s) = Some z.
Proof.
  intros H. destruct (int_str_inv _ H) as [-> Hlen]. unfold digits in *.
  unfold strip. rewrite strip_with_none
    by (apply minus_not_space; [reflexivity | apply uint_str_not_space]).
  rewrite (py_int_signed _ (@to_uint_not_nil _) Hlen).
  rewrite digits_uint by lia. f_equal.
  destruct (Z.ltb_spec z 0); lia.
Qed.

Lemma existsb_none (p : N -> bool) s :
  Forall (fun c => p c = false) s -> existsb p s = false.
Proof. induction 1 as [|c s Hc _ IH]; cbn [existsb]; [|rewrite Hc, IH]; reflexivity. Qed.

Lemma digit_not_cr c : is_digit c = true -> N.eqb CR c = false.
Proof.
  intros H. apply is_digit_cases in H.
  repeat (destruct H as [->|H]; [reflexivity|]). subst; reflexivity.
Qed.

Lemma int_str_field z s :
  int_str z = Some s -> field_ok s = true /\ s <> [].
Proof.
  intros H. destruct (int_str_inv _ H) as [-> Hlen]. unfold digits in *.
  set (u := N.to_uint (Z.to_N (Z.abs z))) in *.
  split.
  - unfold field_ok. apply andb_true_iff. split.
    + apply N.leb_le. unfold len in Hlen.
      assert (List.length (minus (z <? 0)%Z (uint_str u))
              <= S (List.length (uint_str u)))%nat
        by (destruct (z <? 0)%Z; cbn [minus List.length]; lia).
      unfold int_max_str_digits, field_limit in *. lia.
    + apply orb_true_iff. right. apply negb_true_iff, existsb_none.
      apply minus_not_space; [reflexivity|].
      eapply Forall_impl; [|apply uint_str_digits].
      intros c Hc. apply digit_not_cr, Hc.
  - pose proof (@to_uint_not_nil (Z.to_N (Z.abs z))) as Hu. fold u in Hu.
    destruct (z <? 0); cbn [minus]; [discriminate|].
    destruct u; [congruence|..]; discriminate.
Qed.

Lemma int_rows_run col rows body :
  Forall (fun r => text_ok r = true) rows ->
  Forall (fun r => int_cell r = true) rows ->
  to_csv_rows str_number col rows = Ok body ->
  exists recs,
    Forall2 reads_int rows recs
    /\ (rows = [] /\ body = [] \/ exists s0, body = s0 ++ [LF])
    /\ forall ts,
         run parse_reset (toks body ++ ts)
         = (p <- run parse_reset ts ;; Ok (recs ++ fst p, snd p)).
Proof.
  revert body; induction rows as [|r rows IH]; intros body Hok Hint.
  - intros H; apply Ok_inj in H; subst body.
    exists []. split; [constructor|]. split; [auto|].
    intros ts; cbn [toks flat_map app].
    destruct (run parse_reset ts) as [[a b]|e]; reflexivity.
  - cbn [to_csv_rows]. unfold record_strs.
    inversion Hok as [|r0 rows0 Hr Hrows]; subst.
    inversion Hint as [|r0 rows0 Hi Hints]; subst.
    unfold int_cell in Hi. destruct (harga r) as [| | z | |] eqn:Eh;
      try discriminate Hi.
    cbn [cell_str]. unfold str_number at 1. cbn [py_str].
    destruct (int_str z) as [p|] eqn:Ep; [|discriminate].
    cbn [bind].
    destruct (to_csv_rows str_number col rows) as [t|e] eqn:Et;
      [|discriminate].
    cbn [bind]. intros Hb; apply Ok_inj in Hb; subst body.
    destruct (text_ok_fields _ Hr) as (k & n & Ek & En & _ & _ & Fk & Fn).
    rewrite Ek, En; cbn [text_cell].
    destruct (int_str_field _ Ep) as [Fp _].
    destruct (IH t Hrows Hints eq_refl) as (recs & Hrecs & Hend & Hrun).
    exists ([k; n; p] :: recs). split; [|split].
    + constructor; auto. exists z, p. rewrite Ek, En; auto.
    + right. destruct Hend as [[_ ->] | [s0 ->]].
      * rewrite app_nil_r, writerow3.
        eexists. rewrite !app_assoc. reflexivity.
      * exists (writerow lineterminator [k; n; p] ++ s0).
        rewrite app_assoc; reflexivity.
    + intros ts. rewrite toks_app, <- app_assoc, run_row by assumption.
      rewrite Hrun.
      destruct (run parse_reset ts) as [[a b]|e]; reflexivity.
Qed.

(** A record under the header of the frame becomes the row again. *)
Lemma load_row_int k n z p :
  stripped k = true -> stripped n = true -> int_str z = Some p ->
  load_row (dict_row [lit "kategori"; lit "nama"; lit "harga"] [k; n; p])
  = mkRow (Some k) (Some n) (PyInt z).
Proof.
  intros Hk Hn Hp.
  change (dict_row [lit "kategori"; lit "nama"; lit "harga"] [k; n; p])
    with [(lit "kategori", Some k); (lit "nama", Some n);
          (lit "harga", Some p)].
  unfold load_row, parse_harga.
  change (row_get _ "kategori") with (Some k).
  change (row_get _ "nama") with (Some n).
  change (row_get _ "harga") with (Some p).
  rewrite !or_str_nil, (stripped_eq _ Hk), (stripped_eq _ Hn).
  destruct (int_str_field _ Hp) as [_ Hne].
  replace (or_str (Some p) (lit "0")) with p
    by (destruct p; [congruence | reflexivity]).
  rewrite (py_int_str _ Hp). reflexivity.
Qed.

Lemma reads_int_rows rows recs :
  Forall (fun r => text_ok r = true) rows -> Forall2 reads_int rows recs ->
  filter (fun rec => negb (is_empty rec)) recs = recs
  /\ List.map load_row
       (List.map (dict_row [lit "kategori"; lit "nama"; lit "harga"]) recs)
     = rows.
Proof.
  intros Hok H; induction H as [|r rec rows recs (z & p & Eh & Ep & ->) _ IH].
  - split; reflexivity.
  - inversion Hok as [|r0 rows0 Hr Hrows]; subst.
    destruct (IH Hrows) as [IH1 IH2].
    destruct (text_ok_fields _ Hr) as (k & n & Ek & En & Sk & Sn & _ & _).
    rewrite Ek, En; cbn [text_cell]. split.
    + cbn [filter is_empty negb]. rewrite IH1; reflexivity.
    + cbn [List.map]. rewrite IH2, (@load_row_int k n z p Sk Sn Ep).
      f_equal. destruct r as [rk rn rh]; cbn [kategori nama harga] in *.
      subst; reflexivity.
Qed.

(** X13: rows whose category and name are strings that the parser leaves
    alone and whose prices are [int]s come back as they were when the bytes
    of their CSV export are uploaded to the parser: the price too, negative
    or not. *)
Theorem X13_int_rows_reimport rows b :
  Forall (fun r => text_ok r = true) rows ->
  Forall (fun r => int_cell r = true) rows ->
  convert_df_to_csv str_number rows = Ok b ->
  load_csv (Upload b) = Ok rows.
Proof.
  intros Hok Hint. unfold convert_df_to_csv.
  destruct (to_csv str_number rows) as [text|e] eqn:Et; [|discriminate].
  cbn [bind]. intros Henc. apply decode_encode in Henc.
  unfold load_csv. rewrite Henc. cbn [bind].
  unfold to_csv in Et.
  destruct (to_csv_rows str_number (List.map harga rows) rows)
    as [body|e] eqn:Eb; [|discriminate].
  cbn [bind] in Et. apply Ok_inj in Et. subst text.
  destruct rows as [|r rows].
  - apply Ok_inj in Eb; subst body. reflexivity.
  - destruct (int_rows_run _ Hok Hint Eb) as (recs & Hrecs & Hend & Hrun).
    destruct Hend as [[Hnil _] | Hend]; [discriminate|].
    unfold columns; cbn [is_empty]. unfold DictReader.
    rewrite (@reader_rows_export _ _ Hend Hrun). cbn [bind].
    destruct (reads_int_rows Hok Hrecs) as [Hf Hp].
    rewrite Hf, Hp. reflexivity.
Qed.

Lemma X13_int_rows_reimport_witness :
  load_csv (Upload (exported mixed_rows)) = Ok mixed_rows.
Proof.
  apply (@X13_int_rows_reimport mixed_rows (exported mixed_rows)).
  - repeat constructor.
  - repeat constructor.
  - vm_compute; reflexivity.
Defined.

Local Close Scope Z_scope.

(** *** The JSON export is ASCII *)

Local Open Scope N_scope.

Lemma encode_ascii s : all_ascii s -> encode s = Ok s.
Proof.
  induction 1 as [|c s Hc _ IH]; [reflexivity|].
  cbn [encode]. unfold encode_cp. unfold is_ascii in Hc. rewrite Hc, IH.
  reflexivity.
Qed.

Lemma all_ascii_app a b : all_ascii a -> all_ascii b -> all_ascii (a ++ b).
Proof. intros Ha Hb. apply Forall_app; auto. Qed.

Lemma all_ascii_lit s : forallb is_ascii (lit s) = true -> all_ascii (lit s).
Proof. intros H. apply Forall_forall. apply forallb_forall, H. Qed.

Lemma hex_digit_ascii n : n < 16 -> is_ascii (Json.hex_digit n) = true.
Proof.
  intros H. unfold is_ascii, Json.hex_digit.
  destruct (N.ltb_spec n 10); apply N.ltb_lt; lia.
Qed.

Lemma u_escape_ascii c : c < 65536 -> all_ascii (Json.u_escape c).
Proof.
  intros H. unfold Json.u_escape.
  repeat constructor; apply hex_digit_ascii; div_lia.
Qed.

Lemma escape_char_ascii c :
  code_point c = true -> all_ascii (Json.escape_char c).
Proof.
  unfold code_point. intros H. apply N.ltb_lt in H. unfold Json.escape_char.
  destruct (N.eqb c 34); [repeat constructor|].
  destruct (N.eqb c 92); [repeat constructor|].
  destruct (N.eqb c 10); [repeat constructor|].
  destruct (N.eqb c 13); [repeat constructor|].
  destruct (N.eqb c 9); [repeat constructor|].
  destruct (N.eqb c 12); [repeat constructor|].
  destruct (N.eqb c 8); [repeat constructor|].
  destruct (between 32 126 c) eqn:Eb.
  - constructor; [|constructor]. unfold between in Eb.
    apply andb_true_iff in Eb as [_ Eb]. apply N.leb_le in Eb.
    apply N.ltb_lt. lia.
  - destruct (N.ltb_spec c 65536) as [Hc|Hc].
    + apply u_escape_ascii, Hc.
    + apply all_ascii_app; apply u_escape_ascii; div_lia.
Qed.

Lemma basestring_ascii s :
  Forall (fun c => code_point c = true) s ->
  all_ascii (Json.encode_basestring_ascii s).
Proof.
  intros H. unfold Json.encode_basestring_ascii.
  constructor; [reflexivity|]. apply all_ascii_app; [|repeat constructor].
  induction H as [|c s Hc _ IH]; cbn [flat_map]; [constructor|].
  apply all_ascii_app; [apply escape_char_ascii, Hc | exact IH].
Qed.

Lemma digit_ascii c : is_digit c = true -> is_ascii c = true.
Proof.
  intros H. apply is_digit_cases in H.
  repeat (destruct H as [->|H]; [reflexivity|]). subst; reflexivity.
Qed.

Lemma digits_ascii z : all_ascii (digits z).
Proof.
  unfold digits. eapply Forall_impl; [|apply uint_str_digits].
  intros c Hc. apply digit_ascii, Hc.
Qed.

Lemma rstrip_ascii p s : all_ascii s -> all_ascii (rstrip_with p s).
Proof.
  induction 1 as [|c s Hc _ IH]; [constructor|].
  unfold rstrip_with in *. cbn [fold_right].
  destruct (p c && is_empty _); [constructor | constructor; assumption].
Qed.

Lemma firstn_ascii n s : all_ascii s -> all_ascii (firstn n s).
Proof.
  unfold all_ascii. intros H; revert n.
  induction H as [|c s Hc _ IH]; intros [|n]; cbn [firstn]; constructor; auto.
Qed.

Lemma skipn_ascii n s : all_ascii s -> all_ascii (skipn n s).
Proof.
  unfold all_ascii. intros H; revert n.
  induction H as [|c s Hc Hs IH]; intros [|n]; cbn [skipn];
    try constructor; auto.
Qed.

Lemma zeros_ascii n : all_ascii (zeros n).
Proof.
  unfold zeros. apply Forall_forall. intros c Hc.
  apply repeat_spec in Hc. subst; reflexivity.
Qed.

Lemma minus_ascii neg s : all_ascii s -> all_ascii (minus neg s).
Proof. intros H. destruct neg; cbn [minus]; [constructor; [reflexivity|]|]; exact H. Qed.

Local Close Scope N_scope.
Local Open Scope Z_scope.

Lemma repr_pos_ascii m e : all_ascii (repr_pos m e).
Proof.
  unfold repr_pos, short_digits.
  destruct (shortest _ _ _ _ _ _) as [c k].
  pose proof (rstrip_ascii (N.eqb 48) (digits_ascii c)) as Hds.
  fold (rstrip_zeros (digits c)) in Hds.
  set (ds := rstrip_zeros (digits c)) in *.
  set (decpt := len (digits c) + k).
  destruct ((decpt <=? -4) || (16 <? decpt)).
  - apply all_ascii_app; [apply firstn_ascii, Hds|].
    apply all_ascii_app.
    { destruct (len ds <=? 1); [constructor|].
      constructor; [reflexivity | apply skipn_ascii, Hds]. }
    apply all_ascii_app.
    { constructor; [reflexivity|]. constructor; [|constructor].
      destruct (decpt - 1 <? 0); reflexivity. }
    destruct (len (digits (Z.abs (decpt - 1))) <? 2);
      [constructor; [reflexivity|]|]; apply digits_ascii.
  - destruct (decpt <=? 0).
    + apply all_ascii_app; [repeat constructor|].
      apply all_ascii_app; [apply zeros_ascii | exact Hds].
    + destruct (len ds <=? decpt).
      * apply all_ascii_app; [exact Hds|].
        apply all_ascii_app; [apply zeros_ascii | repeat constructor].
      * apply all_ascii_app; [apply firstn_ascii, Hds|].
        constructor; [reflexivity | apply skipn_ascii, Hds].
Qed.

Lemma floatstr_ascii f : all_ascii (Json.floatstr f).
Proof.
  destruct f as [s|s| |s m e]; cbn [Json.floatstr repr_finite].
  - apply minus_ascii. repeat constructor.
  - destruct s; repeat constructor.
  - repeat constructor.
  - apply minus_ascii, repr_pos_ascii.
Qed.

Lemma item_ascii kv :
  Forall (fun c => code_point c = true) (fst kv) -> all_ascii (Json.item kv).
Proof.
  intros H. unfold Json.item.
  apply all_ascii_app; [repeat constructor|].
  apply all_ascii_app; [apply basestring_ascii, H|].
  apply all_ascii_app; [repeat constructor | apply floatstr_ascii].
Qed.

Lemma items_ascii d :
  Forall (fun kv => Forall (fun c => code_point c = true) (fst kv)) d ->
  all_ascii (Json.items d).
Proof.
  induction 1 as [|kv d Hkv Hd IH]; [constructor|].
  cbn [Json.items]. destruct d as [|kv' d'].
  - apply item_ascii, Hkv.
  - apply all_ascii_app; [apply item_ascii, Hkv|].
    apply all_ascii_app; [repeat constructor | exact IH].
Qed.

Lemma dumps_ascii d :
  Forall (fun kv => Forall (fun c => code_point c = true) (fst kv)) d ->
  all_ascii (Json.dumps d).
Proof.
  intros H. unfold Json.dumps. destruct d as [|kv d]; [repeat constructor|].
  apply all_ascii_app; [repeat constructor|].
  apply all_ascii_app; [apply items_ascii, H | repeat constructor].
Qed.

Local Close Scope Z_scope.

(** X12: the JSON export raises nothing, whatever the names of the
    categories and the totals, and its bytes are ASCII: they are the
    characters of the JSON text, one byte each. *)
Theorem X12_json_ascii d :
  Forall (fun kv => Forall (fun c => code_point c = true) (fst kv)) d ->
  convert_summary_to_json d = Ok (Json.dumps d)
  /\ Forall (fun c => is_ascii c = true) (Json.dumps d).
Proof.
  intros H. pose proof (dumps_ascii H) as Ha.
  split; [apply encode_ascii, Ha | exact Ha].
Qed.

Lemma X12_json_ascii_witness :
  convert_summary_to_json odd_totals = Ok (Json.dumps odd_totals)
  /\ Forall (fun c => is_ascii c = true) (Json.dumps odd_totals).
Proof.
  apply X12_json_ascii. repeat constructor.
Defined.

(** *** White space around a category or a price *)

Lemma rstrip_blank p s : forallb p s = true -> rstrip_with p s = [].
Proof.
  induction s as [|c s IH]; [reflexivity|]. cbn [forallb].
  intros H. apply andb_true_iff in H as [Hc Hs].
  rewrite rstrip_cons, (IH Hs), Hc. reflexivity.
Qed.

Lemma rstrip_app_blank p s b :
  forallb p b = true -> rstrip_with p (s ++ b) = rstrip_with p s.
Proof.
  intros Hb. induction s as [|c s IH]; cbn [app].
  - apply rstrip_blank, Hb.
  - rewrite !rstrip_cons, IH. reflexivity.
Qed.

Lemma lstrip_blank_app p a s :
  forallb p a = true -> lstrip_with p (a ++ s) = lstrip_with p s.
Proof.
  induction a as [|c a IH]; [reflexivity|]. cbn [forallb app lstrip_with].
  intros H. apply andb_true_iff in H as [-> Ha]. apply IH, Ha.
Qed.

Lemma strip_app_blank p s b :
  forallb p b = true -> strip_with p (s ++ b) = strip_with p s.
Proof.
  intros Hb. unfold strip_with. induction s as [|c s IH]; cbn [app lstrip_with].
  - rewrite <- (app_nil_r b), lstrip_blank_app by exact Hb. reflexivity.
  - destruct (p c); [exact IH|].
    change (c :: s ++ b) with ((c :: s) ++ b). apply rstrip_app_blank, Hb.
Qed.

Lemma strip_padded p a s b :
  forallb p a = true -> forallb p b = true ->
  strip_with p (a ++ s ++ b) = strip_with p s.
Proof.
  intros Ha Hb. rewrite <- (@strip_app_blank p s b Hb). unfold strip_with.
  rewrite lstrip_blank_app by exact Ha. reflexivity.
Qed.

(** X6: white space around the text of a category or of a price changes
    nothing: the row is counted under the same category, and the price is
    as valid and as large as without it. *)
Theorem X6_padding_ignored a b :
  blank a = true -> blank b = true ->
  (forall k n h,
     cat_of (mkRow (Some (a ++ k ++ b)) n h) = cat_of (mkRow (Some k) n h))
  /\ (forall s, _to_number (PyStr (a ++ s ++ b)) = _to_number (PyStr s)).
Proof.
  unfold blank. intros Ha Hb. split.
  - intros k n h. unfold cat_of. cbn [kategori]. rewrite !or_str_nil.
    unfold strip. rewrite strip_padded by assumption. reflexivity.
  - intros s. unfold _to_number. cbn [py_str]. unfold strip.
    rewrite strip_padded by assumption. reflexivity.
Qed.

Lemma X6_padding_ignored_witness :
  cat_of (mkRow (Some (lit "  " ++ lit "Makanan" ++ lit " ")) None PyNone)
  = cat_of (mkRow (Some (lit "Makanan")) None PyNone)
  /\ _to_number (PyStr (lit "  " ++ lit "12.5" ++ lit " "))
     = _to_number (PyStr (lit "12.5")).
Proof.
  destruct (@X6_padding_ignored (lit "  ") (lit " ") eq_refl eq_refl) as [H1 H2].
  split; [apply H1 | apply H2].
Defined.

(** *** The prices that the parser makes *)

Local Open Scope Z_scope.

Lemma digit_val_range c d : digit_val c = Some d -> 0 <= d <= 9.
Proof.
  unfold digit_val.
  destruct (find (fun z => between z (z + 9) c) decimal_blocks) as [z|] eqn:E;
    [|discriminate].
  apply find_some in E as [_ E]. unfold between in E.
  apply andb_true_iff in E as [E1 E2]. apply N.leb_le in E1, E2.
  intros [= <-]. lia.
Qed.

Lemma digitpart_step acc d v j :
  0 <= acc -> 0 <= d <= 9 -> 0 <= j ->
  (10 * acc + d) * 10 ^ j <= v < (10 * acc + d + 1) * 10 ^ j ->
  acc * 10 ^ (j + 1) <= v < (acc + 1) * 10 ^ (j + 1).
Proof.
  intros Ha Hd Hj Hv. rewrite Z.pow_add_r by lia. change (10 ^ 1) with 10.
  assert (HP : 0 < 10 ^ j) by (apply Z.pow_pos_nonneg; lia).
  set (P := 10 ^ j) in *.
  assert (0 <= d * P) by (apply Z.mul_nonneg_nonneg; lia).
  assert (d * P <= 9 * P) by (apply Z.mul_le_mono_nonneg_r; lia).
  lia.
Qed.

(** The value that [digitpart] reads is below the power of ten of the
    number of digits it counts. *)
Lemma digitpart_bound k s acc n v n' r :
  (List.length s <= k)%nat -> 0 <= acc ->
  digitpart s acc n = (v, n', r) ->
  exists j, 0 <= j /\ Z.of_N n' = Z.of_N n + j
            /\ acc * 10 ^ j <= v < (acc + 1) * 10 ^ j.
Proof.
  revert s acc n. induction k as [|k IH]; intros s acc n Hk Hacc.
  - destruct s; [|cbn in Hk; lia]. cbn [digitpart]. intros [= <- <- <-].
    exists 0. change (10 ^ 0) with 1. lia.
  - destruct s as [|c s]; cbn [digitpart].
    + intros [= <- <- <-]. exists 0. change (10 ^ 0) with 1. lia.
    + cbn [List.length] in Hk.
      destruct (digit_val c) as [d|] eqn:Ed.
      * intros H. pose proof (digit_val_range _ Ed) as Hd.
        destruct (IH s (10 * acc + d) (n + 1)%N ltac:(lia) ltac:(lia) H)
          as (j & Hj & Hn & Hv).
        exists (j + 1). split; [lia|]. split; [lia|].
        apply digitpart_step with d; assumption.
      * destruct (N.eqb c 95 && N.ltb 0 n);
          [|intros [= <- <- <-]; exists 0; change (10 ^ 0) with 1; lia].
        destruct s as [|c' s'];
          [intros [= <- <- <-]; exists 0; change (10 ^ 0) with 1; lia|].
        destruct (digit_val c') as [d|] eqn:Ed';
          [|intros [= <- <- <-]; exists 0; change (10 ^ 0) with 1; lia].
        intros H. pose proof (digit_val_range _ Ed') as Hd.
        cbn [List.length] in Hk.
        destruct (IH s' (10 * acc + d) (n + 1)%N ltac:(lia) ltac:(lia) H)
          as (j & Hj & Hn & Hv).
        exists (j + 1). split; [lia|]. split; [lia|].
        apply digitpart_step with d; assumption.
Qed.

(** [int] makes no number that [str] cannot print. *)
Lemma py_int_bound s z :
  py_int s = Some z -> Z.abs z < 10 ^ Z.of_N int_max_str_digits.
Proof.
  unfold py_int. destruct (sign (strip_with num_space s)) as [neg body].
  destruct (digitpart body 0 0%N) as [[v n] r] eqn:E.
  destruct r; [|discriminate].
  destruct (N.eqb n 0); [discriminate|]. cbn [orb].
  destruct (N.ltb_spec int_max_str_digits n) as [|Hn]; [discriminate|].
  intros [= <-].
  destruct (@digitpart_bound _ _ _ _ _ _ _ (Nat.le_refl _) (Z.le_refl 0) E)
    as (j & Hj & Hnj & Hv).
  assert (10 ^ j <= 10 ^ Z.of_N int_max_str_digits)
    by (apply Z.pow_le_mono_r; lia).
  destruct neg; lia.
Qed.

Lemma parse_harga_bound d :
  Z.abs (parse_harga d) < 10 ^ Z.of_N int_max_str_digits.
Proof.
  unfold parse_harga.
  destruct (py_int _) as [z|] eqn:E; [exact (py_int_bound _ E)|].
  apply Z.pow_pos_nonneg; lia.
Qed.

(** X14: every row that [load_csv] returns carries an [int] price, and
    [_to_number] takes it as valid exactly when it is not negative, as the
    binary64 nearest to it: [int] reads no number too long for [str]. *)
Theorem X14_loaded_price f rows r :
  load_csv f = Ok rows -> In r rows ->
  exists z,
    harga r = PyInt z
    /\ _to_number (harga r) = if 0 <=? z then Some (of_Z z) else None.
Proof.
  unfold load_csv. destruct (match f with Upload b => decode b | Text s => Ok s end)
    as [text|e]; [|discriminate].
  cbn [bind]. destruct (DictReader text) as [recs|e]; [|discriminate].
  cbn [bind]. intros H Hin. apply Ok_inj in H. subst rows.
  apply in_map_iff in Hin as (d & <- & _).
  exists (parse_harga d). split; [reflexivity|]. cbn [load_row harga].
  pose proof (parse_harga_bound d) as Hb.
  destruct (Z.leb_spec 0 (parse_harga d)) as [Hz|Hz].
  - apply to_number_int. lia.
  - apply to_number_out. lia.
Qed.

Lemma X14_loaded_price_witness :
  exists z,
    PyInt (-500) = PyInt z
    /\ _to_number (PyInt (-500)) = if 0 <=? z then Some (of_Z z) else None.
Proof.
  apply (@X14_loaded_price (Text NEGATIVE_CSV)
           [mkRow (Some (lit "Makanan")) (Some (lit "Ayam Bakar")) (PyInt (-500))]
           (mkRow (Some (lit "Makanan")) (Some (lit "Ayam Bakar")) (PyInt (-500)))).
  - vm_compute; reflexivity.
  - left; reflexivity.
Defined.

Local Close Scope Z_scope.

(** *** The CSV export does not fail *)

Lemma encode_total s : all_scalar s -> exists b, encode s = Ok b.
Proof.
  induction 1 as [|c s Hc _ [b IH]]; [exists []; reflexivity|].
  cbn [encode]. rewrite IH. unfold scalar in Hc.
  apply andb_true_iff in Hc as [H1 H2]. apply negb_true_iff in H2.
  unfold encode_cp. rewrite H1, H2.
  destruct (N.ltb c 128); [eexists; reflexivity|].
  destruct (N.ltb c 2048); [eexists; reflexivity|].
  destruct (N.ltb c 65536); eexists; reflexivity.
Qed.

Lemma all_scalar_app a b : all_scalar a -> all_scalar b -> all_scalar (a ++ b).
Proof. intros Ha Hb. apply Forall_app; auto. Qed.

Lemma double_quotes_scalar s : all_scalar s -> all_scalar (double_quotes s).
Proof.
  unfold double_quotes. induction 1 as [|c s Hc _ IH]; cbn [flat_map];
    [constructor|].
  apply all_scalar_app; [|exact IH].
  destruct (N.eqb c quotechar); repeat constructor; exact Hc.
Qed.

Lemma join_append_scalar s :
  all_scalar s -> all_scalar (join_append lineterminator s).
Proof.
  intros H. unfold join_append. destruct (needs_quote lineterminator s); [|exact H].
  constructor; [reflexivity|].
  apply all_scalar_app; [apply double_quotes_scalar, H | repeat constructor].
Qed.

Lemma join_scalar l :
  Forall all_scalar l -> all_scalar (join delimiter l).
Proof.
  induction 1 as [|s l Hs Hl IH]; [constructor|].
  cbn [join]. destruct l as [|s' l']; [exact Hs|].
  apply all_scalar_app; [exact Hs|]. constructor; [reflexivity | exact IH].
Qed.

Lemma writerow_scalar l :
  Forall all_scalar l -> all_scalar (writerow lineterminator l).
Proof.
  intros H.
  assert (G : all_scalar (join delimiter (List.map (join_append lineterminator) l)
                          ++ lineterminator)).
  { apply all_scalar_app; [|repeat constructor].
    apply join_scalar. induction H; cbn [List.map]; constructor; auto.
    apply join_append_scalar; assumption. }
  unfold writerow. destruct l as [|[|c s] [|s' l']]; try exact G.
  repeat constructor.
Qed.

Lemma cell_scalar_text x : cell_scalar x = true -> all_scalar (text_cell x).
Proof.
  destruct x as [s|]; cbn [cell_scalar text_cell]; [|constructor].
  intros H. apply Forall_forall. apply forallb_forall, H.
Qed.

Lemma digit_scalar c : is_digit c = true -> scalar c = true.
Proof.
  intros H. apply is_digit_cases in H.
  repeat (destruct H as [->|H]; [reflexivity|]). subst; reflexivity.
Qed.

Local Open Scope Z_scope.

Lemma int_str_total z :
  Z.abs z < 10 ^ Z.of_N int_max_str_digits ->
  exists p, int_str z = Some p /\ all_scalar p.
Proof.
  intros Hz. unfold int_str.
  assert (Hlen : len (digits (Z.abs z)) <= Z.of_N int_max_str_digits)
    by (apply digits_len_bound; lia).
  destruct (Z.ltb_spec (Z.of_N int_max_str_digits) (len (digits (Z.abs z))))
    as [H|_]; [lia|].
  eexists; split; [reflexivity|].
  assert (Hd : all_scalar (digits (Z.abs z))).
  { unfold digits. eapply Forall_impl; [|apply uint_str_digits].
    intros c Hc. apply digit_scalar, Hc. }
  destruct (z <? 0); [constructor; [reflexivity|]|]; exact Hd.
Qed.

Local Close Scope Z_scope.

Lemma to_csv_rows_total col rows :
  Forall (fun r => exportable r = true) rows ->
  exists body, to_csv_rows str_number col rows = Ok body /\ all_scalar body.
Proof.
  induction 1 as [|r rows Hr _ (t & Et & Ht)];
    [exists []; split; [reflexivity | constructor]|].
  unfold exportable in Hr. apply andb_true_iff in Hr as [Hr Hp].
  apply andb_true_iff in Hr as [Hk Hn].
  destruct (harga r) as [| | z | |] eqn:Eh; try discriminate Hp.
  apply Z.ltb_lt in Hp. destruct (int_str_total _ Hp) as (p & Ep & Sp).
  cbn [to_csv_rows]. unfold record_strs. rewrite Eh. cbn [cell_str].
  unfold str_number at 1. cbn [py_str]. rewrite Ep. cbn [bind]. rewrite Et.
  cbn [bind]. eexists; split; [reflexivity|].
  apply all_scalar_app; [|exact Ht].
  apply writerow_scalar.
  repeat constructor; auto using cell_scalar_text.
Qed.

(** X15: the CSV export raises nothing on rows whose category and name
    hold no surrogate and whose prices are [int]s of at most 4300 digits:
    it returns the bytes of the file. *)
Theorem X15_csv_export_total rows :
  Forall (fun r => exportable r = true) rows ->
  exists b, convert_df_to_csv str_number rows = Ok b.
Proof.
  intros H.
  destruct (to_csv_rows_total (List.map harga rows) H) as (body & Eb & Sb).
  assert (St : all_scalar (writerow lineterminator (columns rows) ++ body)).
  { apply all_scalar_app; [|exact Sb]. apply writerow_scalar.
    unfold columns. destruct (is_empty rows); repeat constructor. }
  destruct (encode_total St) as [b Hb].
  exists b. unfold convert_df_to_csv, to_csv. rewrite Eb. cbn [bind]. exact Hb.
Qed.

Lemma X15_csv_export_total_witness :
  exists b, convert_df_to_csv str_number mixed_rows = Ok b.
Proof.
  apply X15_csv_export_total. repeat constructor.
Defined.
